(** * service_shop: the session/cart store of [app.py], embedded and verified

    The development follows [app.py] top to bottom:
    - [Py]       the Python values the handlers compute with: exceptions,
                 binary64 floats with [round(x, 2)], [int(...)], [str(...)],
                 insertion-ordered dictionaries, [uuid4] texts;
    - [Shop]     the catalog, [cart_totals], the seven route handlers and the
                 error handler, as functions on the [carts] store;
    - [Threads]  the handlers' locked regions as interleaved atomic steps;
    - [Loadgen]  the load generator of [loadgen.py]: what it draws, its
                 calls to the service, the loop of a worker and [main].

    [log_event] writes one line to the log file and has no effect on the
    response or on [carts]; it is left out. *)

From Stdlib Require Import ZArith Lia Bool Ascii String.
From Stdlib Require Import Floats.SpecFloat.
From stdpp Require Import base option list gmap strings pretty relations.

Local Open Scope string_scope.
Local Open Scope Z_scope.

#[local] Set Warnings "-register-all".

(* ===================================================================== *)
(** * Python values *)
(* ===================================================================== *)

Module Py.

(** The exceptions the handlers can raise. *)
Inductive exn := TypeError | ValueError | OverflowError | AttributeError.

(** The outcome of evaluating an expression: a value or a raised exception. *)
Inductive res (A : Type) : Type :=
| Ok (a : A)
| Raise (e : exn).
Arguments Ok {A} a.
Arguments Raise {A} e.

Definition bind {A B} (r : res A) (k : A -> res B) : res B :=
  match r with
  | Ok a => k a
  | Raise e => Raise e
  end.

(** ** binary64 floats

    A Python [float] is an IEEE-754 binary64 number: [spec_float] at
    precision 53 and maximal exponent 1024, with round-to-nearest-even. *)

Definition prec : Z := 53.
Definition emax : Z := 1024.

Definition fadd : spec_float -> spec_float -> spec_float := SFadd prec emax.
Definition fmul : spec_float -> spec_float -> spec_float := SFmul prec emax.

(** [x == y] on floats: a NaN is equal to nothing, the two zeros are equal. *)
Definition feq (x y : spec_float) : bool := SFeqb x y.

(** The float nearest to the fraction [n/d] of two positive integers (ties
    to even), with sign [s]: what a decimal literal or [strtod] denotes. *)
Definition nearest_ratio (s : bool) (n d : positive) : spec_float :=
  let '(mz, ez, lz) := SFdiv_core_binary prec emax (Zpos n) 0 (Zpos d) 0 in
  binary_round_aux prec emax s mz ez lz.

(** [float(z)] for a Python int, as [float * int] performs it: the nearest
    float, and [OverflowError] when that is beyond the largest finite one. *)
Definition float_of_int (z : Z) : res spec_float :=
  match binary_normalize prec emax z 0 false with
  | S754_infinity _ => Raise OverflowError
  | f => Ok f
  end.

(** [n/d] rounded to the nearest integer, ties to the even one ([0 <= n],
    [0 < d]). *)
Definition div_half_even (n d : Z) : Z :=
  let q := n / d in
  let r := n mod d in
  match (2 * r ?= d) with
  | Lt => q
  | Gt => q + 1
  | Eq => if Z.even q then q else q + 1
  end.

(** [round(x, 2)]: infinities and NaN round to themselves; a finite [x] is
    rounded, from its exact value, to the nearest multiple of 1/100 (ties to
    even), and that decimal is converted back to the nearest float. A result
    of zero keeps the sign of [x]. *)
Definition round2 (x : spec_float) : spec_float :=
  match x with
  | S754_finite s m e =>
      let k := if 0 <=? e then Zpos m * 2 ^ e * 100
               else div_half_even (Zpos m * 100) (2 ^ (- e)) in
      match k with
      | Zpos kp => nearest_ratio s kp 100
      | _ => S754_zero s
      end
  | _ => x
  end.

(** [int(x)] for a float: truncation toward zero; [OverflowError] on an
    infinity and [ValueError] on NaN. *)
Definition int_of_float (x : spec_float) : res Z :=
  match x with
  | S754_zero _ => Ok 0
  | S754_infinity _ => Raise OverflowError
  | S754_nan => Raise ValueError
  | S754_finite s m e =>
      let a := if 0 <=? e then Zpos m * 2 ^ e else Zpos m / 2 ^ (- e) in
      Ok (if s then - a else a)
  end.

(** ** Texts

    Texts are ASCII strings. Whitespace is what [str.strip] and [int] skip:
    the characters 9 to 13, 28 to 31 and the space. *)

Definition code (c : ascii) : Z := Z.of_nat (nat_of_ascii c).

Definition is_space (c : ascii) : bool :=
  let n := code c in
  ((9 <=? n) && (n <=? 13)) || ((28 <=? n) && (n <=? 32)).

Definition is_digit (c : ascii) : bool :=
  let n := code c in (48 <=? n) && (n <=? 57).

Fixpoint lstrip (l : list ascii) : list ascii :=
  match l with
  | c :: r => if is_space c then lstrip r else l
  | [] => []
  end.

Definition rstrip (l : list ascii) : list ascii := rev (lstrip (rev l)).

(** [s.strip()] *)
Definition strip (s : string) : string :=
  string_of_list_ascii (rstrip (lstrip (list_ascii_of_string s))).

(** The digits of a decimal literal, single underscores allowed between
    digits; [seen] tells whether the previous character was a digit. *)
Fixpoint digits (l : list ascii) (acc : Z) (seen : bool) : option Z :=
  match l with
  | [] => if seen then Some acc else None
  | c :: r =>
      if is_digit c then digits r (10 * acc + (code c - 48)) true
      else if (code c =? 95) && seen then digits r acc false
      else None
  end.

(** [int(s)] for a text: surrounding whitespace, an optional sign, digits. *)
Definition int_of_text (s : string) : res Z :=
  let body := rstrip (lstrip (list_ascii_of_string s)) in
  let signed :=
    match body with
    | c :: r =>
        if code c =? 45 then option_map Z.opp (digits r 0 false)
        else if code c =? 43 then digits r 0 false
        else digits body 0 false
    | [] => None
    end in
  match signed with
  | Some z => Ok z
  | None => Raise ValueError
  end.

(** ** JSON values, as [request.get_json] delivers them *)

Inductive json :=
| JNull
| JBool (b : bool)
| JInt (z : Z)
| JFloat (x : spec_float)
| JStr (s : string)
| JList (l : list json)
| JDict (d : list (string * json)).

(** Truth value of a Python object. *)
Definition truthy (v : json) : bool :=
  match v with
  | JNull => false
  | JBool b => b
  | JInt z => negb (z =? 0)
  | JFloat x => negb (feq x (S754_zero false))
  | JStr s => negb (String.eqb s EmptyString)
  | JList l => match l with [] => false | _ => true end
  | JDict d => match d with [] => false | _ => true end
  end.

(** [int(v)] *)
Definition py_int (v : json) : res Z :=
  match v with
  | JBool b => Ok (if b then 1 else 0)
  | JInt z => Ok z
  | JFloat x => int_of_float x
  | JStr s => int_of_text s
  | JNull | JList _ | JDict _ => Raise TypeError
  end.

(** [str(v)], for [None], booleans, ints and texts. The [repr] of a float,
    a list or a dict is not rendered ([None] here): each holds one of the
    characters [. e n [ {], so it is never a key of the catalog, and the
    handlers use the text for nothing else than that lookup. *)
Definition py_str (v : json) : option string :=
  match v with
  | JNull => Some "None"
  | JBool b => Some (if b then "True" else "False")
  | JInt z => Some (pretty z)
  | JStr s => Some s
  | JFloat _ | JList _ | JDict _ => None
  end.

(** ** Dictionaries in insertion order

    A [dict] with text keys is the list of its entries in insertion order;
    [d[k] = v] overwrites in place or appends, [del d[k]] drops the entry. *)

Section Dict.
Context {V : Type}.

Fixpoint dict_get (k : string) (d : list (string * V)) : option V :=
  match d with
  | [] => None
  | (k', v) :: r => if String.eqb k k' then Some v else dict_get k r
  end.

Definition dict_mem (k : string) (d : list (string * V)) : bool :=
  match dict_get k d with Some _ => true | None => false end.

Fixpoint dict_set (k : string) (v : V) (d : list (string * V)) : list (string * V) :=
  match d with
  | [] => [(k, v)]
  | (k', v') :: r =>
      if String.eqb k k' then (k, v) :: r else (k', v') :: dict_set k v r
  end.

Fixpoint dict_del (k : string) (d : list (string * V)) : list (string * V) :=
  match d with
  | [] => []
  | (k', v') :: r =>
      if String.eqb k k' then r else (k', v') :: dict_del k r
  end.
End Dict.

(** ** [str(uuid.uuid4())]

    [uuid4] draws 16 random bytes, here the number [r], forces the variant
    and version bits, and prints 32 hexadecimal digits in five groups. *)

Definition hex_digit (n : N) : ascii :=
  match String.get (N.to_nat n) "0123456789abcdef" with
  | Some c => c
  | None => "0"%char
  end.

Fixpoint hex (width : nat) (n : N) : list ascii :=
  match width with
  | O => []
  | S w => hex w (n / 16)%N ++ [hex_digit (n mod 16)%N]
  end.

Definition uuid4 (r : N) : N :=
  let i := (r mod 2 ^ 128)%N in
  let i := N.lor (N.ldiff i (N.shiftl 0xc000 48)) (N.shiftl 0x8000 48) in
  N.lor (N.ldiff i (N.shiftl 0xf000 64)) (N.shiftl 4 76).

Definition str_uuid (u : N) : string :=
  let h := hex 32 u in
  string_of_list_ascii
    (take 8 h ++ "-"%char :: take 4 (drop 8 h) ++ "-"%char :: take 4 (drop 12 h)
     ++ "-"%char :: take 4 (drop 16 h) ++ "-"%char :: drop 20 h).

End Py.

(* ===================================================================== *)
(** * The shop: catalog, pricing, handlers *)
(* ===================================================================== *)

Module Shop.
Import Py.

(** ** Domain model *)

Record product := { p_id : string; p_name : string; p_price : spec_float }.

(** The float a decimal literal [n/d] denotes. *)
Definition lit (n d : positive) : spec_float := nearest_ratio false n d.

Definition monitor_name : string :=
  "27" ++ String (ascii_of_nat 34) " Monitor".

Definition catalog : list (string * product) :=
  [ ("1", {| p_id := "1"; p_name := "Mechanical Keyboard"; p_price := lit 9990 100 |});
    ("2", {| p_id := "2"; p_name := "Wireless Mouse"; p_price := lit 3950 100 |});
    ("3", {| p_id := "3"; p_name := "USB-C Hub"; p_price := lit 2900 100 |});
    ("4", {| p_id := "4"; p_name := monitor_name; p_price := lit 19900 100 |});
    ("5", {| p_id := "5"; p_name := "Noise-Canceling Headphones";
             p_price := lit 14900 100 |}) ].

(** [carts]: session id -> { item id : quantity }. A cart keeps its entries
    in insertion order, the order [cart_totals] walks them in. *)
Abbreviation cart := (list (string * Z)).
Abbreviation store := (gmap string (list (string * Z))).

Record line_item := {
  li_id : string;
  li_name : string;
  li_unit_price : spec_float;
  li_qty : Z;
  li_line_total : spec_float
}.

(** ** Requests and responses *)

(** What a handler reads of the request: the [X-Session-Id] header and the
    value of [request.get_json(silent=True)] ([JNull] when there is none). *)
Record request := { x_session_id : option string; get_json : json }.

(** The random bytes behind the two [uuid.uuid4()] calls of a request. *)
Record entropy := { session_bytes : N; order_bytes : N }.

Inductive body :=
| Health_ok
| Catalog_list (products : list product)
| Cart_view (session_id : string) (items : list line_item) (subtotal : spec_float)
| Added (items : list line_item) (subtotal : spec_float)
| Removed (items : list line_item) (subtotal : spec_float)
| Cleared
| Order (order_id : string) (total : spec_float) (items : list line_item)
| Error (msg : string)
| Internal_server_error (e : exn).

Record response := {
  r_body : body;
  r_session : option string;   (* the response header X-Session-Id *)
  r_status : Z
}.

Definition jsonify (b : body) : response :=
  {| r_body := b; r_session := None; r_status := 200 |}.

(** [return resp, code] *)
Definition with_status (resp : response) (code : Z) : response :=
  {| r_body := r_body resp; r_session := r_session resp; r_status := code |}.

Definition invalid_item_msg : string := "Invalid or missing item_id".
Definition invalid_qty_msg : string := "qty must be positive".
Definition not_in_cart_msg : string := "Item not in cart".
Definition empty_cart_msg : string := "Cart is empty".

(** ** Helpers *)

(** [get_or_create_session_id()], as the handlers call it: the header when
    it is there and not empty, a fresh uuid otherwise. *)
Definition get_or_create_session_id (rq : request) (rnd : entropy) : string :=
  match x_session_id rq with
  | Some sid =>
      if truthy (JStr sid) then sid else str_uuid (uuid4 (session_bytes rnd))
  | None => str_uuid (uuid4 (session_bytes rnd))
  end.

Definition attach_session_header (resp : response) (session_id : string) : response :=
  {| r_body := r_body resp; r_session := Some session_id; r_status := r_status resp |}.

Fixpoint cart_totals_loop (cart_items : cart) (subtotal : spec_float)
    (items_detailed : list line_item) : res (list line_item * spec_float) :=
  match cart_items with
  | [] => Ok (items_detailed, subtotal)
  | (item_id, qty) :: rest =>
      match dict_get item_id catalog with
      | None => cart_totals_loop rest subtotal items_detailed
      | Some product =>
          match float_of_int qty with
          | Raise e => Raise e
          | Ok q =>
              let line_total := round2 (fmul (p_price product) q) in
              let subtotal := round2 (fadd subtotal line_total) in
              cart_totals_loop rest subtotal
                (items_detailed ++
                 [ {| li_id := p_id product; li_name := p_name product;
                      li_unit_price := p_price product; li_qty := qty;
                      li_line_total := line_total |} ])
          end
      end
  end.

Definition cart_totals (cart_items : cart) : res (list line_item * spec_float) :=
  cart_totals_loop cart_items (S754_zero false) [].

(** [carts.get(session_id, {})] *)
Definition cart_of (carts : store) (session_id : string) : cart :=
  default [] (carts !! session_id).

(** [carts.setdefault(session_id, {})]: the cart, and the store with the
    entry in place. *)
Definition setdefault (carts : store) (session_id : string) : cart * store :=
  let c := cart_of carts session_id in (c, <[session_id := c]> carts).

Definition get_cart (session_id : string) (carts : store) : cart * store :=
  setdefault carts session_id.

(** [request.get_json(silent=True) or {}] *)
Definition payload_of (rq : request) : json :=
  if truthy (get_json rq) then get_json rq else JDict [].

(** [payload.get(k, dflt)]; only a dict has [get]. *)
Definition payload_get (payload : json) (k : string) (dflt : json) : res json :=
  match payload with
  | JDict d => Ok (default dflt (dict_get k d))
  | _ => Raise AttributeError
  end.

(** [not item_id or item_id not in catalog], on [str(...).strip()] *)
Definition bad_item (item_id : option string) : bool :=
  match item_id with
  | Some s => String.eqb s EmptyString || negb (dict_mem s catalog)
  | None => true
  end.

(** The first four lines of [add_to_cart] and [remove_from_cart]. *)
Definition read_item_qty (rq : request) : res (option string * Z) :=
  let payload := payload_of rq in
  bind (payload_get payload "item_id" (JStr EmptyString)) (fun raw_item =>
  let item_id := option_map strip (py_str raw_item) in
  bind (payload_get payload "qty" (JInt 1)) (fun raw_qty =>
  bind (py_int raw_qty) (fun qty => Ok (item_id, qty)))).

(** ** Routes

    Each handler maps the store to its outcome, a response or a raised
    exception, and the store it leaves behind. *)

Definition health (rq : request) (rnd : entropy) (carts : store) : res response * store :=
  (Ok (with_status (jsonify Health_ok) 200), carts).

Definition get_catalog (rq : request) (rnd : entropy) (carts : store) : res response * store :=
  let session_id := get_or_create_session_id rq rnd in
  let resp := jsonify (Catalog_list (map snd catalog)) in
  (Ok (with_status (attach_session_header resp session_id) 200), carts).

Definition view_cart (rq : request) (rnd : entropy) (carts : store) : res response * store :=
  let session_id := get_or_create_session_id rq rnd in
  let '(cart, carts) := get_cart session_id carts in
  match cart_totals cart with
  | Raise e => (Raise e, carts)
  | Ok (items, subtotal) =>
      let resp := jsonify (Cart_view session_id items subtotal) in
      (Ok (with_status (attach_session_header resp session_id) 200), carts)
  end.

Definition add_to_cart (rq : request) (rnd : entropy) (carts : store) : res response * store :=
  let session_id := get_or_create_session_id rq rnd in
  match read_item_qty rq with
  | Raise e => (Raise e, carts)
  | Ok (item_id, qty) =>
      if bad_item item_id then
        let resp := jsonify (Error invalid_item_msg) in
        (Ok (with_status (attach_session_header resp session_id) 400), carts)
      else if qty <=? 0 then
        let resp := jsonify (Error invalid_qty_msg) in
        (Ok (with_status (attach_session_header resp session_id) 400), carts)
      else
        let item_id := default EmptyString item_id in
        let '(cart, carts) := setdefault carts session_id in
        let cart := dict_set item_id (default 0 (dict_get item_id cart) + qty) cart in
        let carts := <[session_id := cart]> carts in
        match cart_totals cart with
        | Raise e => (Raise e, carts)
        | Ok (items, subtotal) =>
            let resp := jsonify (Added items subtotal) in
            (Ok (with_status (attach_session_header resp session_id) 200), carts)
        end
  end.

Definition remove_from_cart (rq : request) (rnd : entropy) (carts : store) : res response * store :=
  let session_id := get_or_create_session_id rq rnd in
  match read_item_qty rq with
  | Raise e => (Raise e, carts)
  | Ok (item_id, qty) =>
      if bad_item item_id then
        let resp := jsonify (Error invalid_item_msg) in
        (Ok (with_status (attach_session_header resp session_id) 400), carts)
      else if qty <=? 0 then
        let resp := jsonify (Error invalid_qty_msg) in
        (Ok (with_status (attach_session_header resp session_id) 400), carts)
      else
        let item_id := default EmptyString item_id in
        let '(cart, carts) := setdefault carts session_id in
        match dict_get item_id cart with
        | None =>
            let resp := jsonify (Error not_in_cart_msg) in
            (Ok (with_status (attach_session_header resp session_id) 400), carts)
        | Some old =>
            let cart := dict_set item_id (old - qty) cart in
            let cart := if old - qty <=? 0 then dict_del item_id cart else cart in
            let carts := <[session_id := cart]> carts in
            match cart_totals cart with
            | Raise e => (Raise e, carts)
            | Ok (items, subtotal) =>
                let resp := jsonify (Removed items subtotal) in
                (Ok (with_status (attach_session_header resp session_id) 200), carts)
            end
        end
  end.

Definition clear_cart (rq : request) (rnd : entropy) (carts : store) : res response * store :=
  let session_id := get_or_create_session_id rq rnd in
  let carts := <[session_id := []]> carts in
  let resp := jsonify Cleared in
  (Ok (with_status (attach_session_header resp session_id) 200), carts).

Definition checkout (rq : request) (rnd : entropy) (carts : store) : res response * store :=
  let session_id := get_or_create_session_id rq rnd in
  let cart := cart_of carts session_id in
  match cart_totals cart with
  | Raise e => (Raise e, carts)
  | Ok (items, subtotal) =>
      match items with
      | [] =>
          let resp := jsonify (Error empty_cart_msg) in
          (Ok (with_status (attach_session_header resp session_id) 400), carts)
      | _ :: _ =>
          let order_id := str_uuid (uuid4 (order_bytes rnd)) in
          let carts := <[session_id := []]> carts in
          let resp := jsonify (Order order_id subtotal items) in
          (Ok (with_status (attach_session_header resp session_id) 200), carts)
      end
  end.

(** The handler for unexpected exceptions. *)
Definition handle_exception (e : exn) : response :=
  with_status (jsonify (Internal_server_error e)) 500.

Inductive route :=
| Healthz | Catalog | CartView | CartAdd | CartRemove | CartClear | Checkout.

Definition handler (r : route) : request -> entropy -> store -> res response * store :=
  match r with
  | Healthz => health
  | Catalog => get_catalog
  | CartView => view_cart
  | CartAdd => add_to_cart
  | CartRemove => remove_from_cart
  | CartClear => clear_cart
  | Checkout => checkout
  end.

(** One request served: the view function runs, and an exception it lets
    escape goes to [handle_exception]. *)
Definition serve (r : route) (rq : request) (rnd : entropy) (carts : store) : response * store :=
  let '(out, carts') := handler r rq rnd carts in
  (match out with Ok resp => resp | Raise e => handle_exception e end, carts').

(** The stores the service can be in: [carts = {}] at start, then one
    request after the other. *)
Inductive reachable : store -> Prop :=
| reachable_start : reachable ∅
| reachable_serve r rq rnd carts :
    reachable carts -> reachable (serve r rq rnd carts).2.

(** ** Notions the statements below use *)

Definition catalog_keys : list string := ["1"; "2"; "3"; "4"; "5"]%string.

(** A response with the session header set. *)
Definition reply (b : body) (sid : string) (code : Z) : response :=
  {| r_body := b; r_session := Some sid; r_status := code |}.

(** [cart[item_id] = cart.get(item_id, 0) + qty] *)
Definition added (item : string) (qty : Z) (c : cart) : cart :=
  dict_set item (default 0 (dict_get item c) + qty) c.

(** [cart[item_id] -= qty], then [del cart[item_id]] when that is [<= 0];
    the cart itself when the item is not in it. *)
Definition removed (item : string) (qty : Z) (c : cart) : cart :=
  match dict_get item c with
  | None => c
  | Some old =>
      if old - qty <=? 0 then dict_del item c else dict_set item (old - qty) c
  end.

(** A well-formed cart: one entry per key, every key a catalog key, every
    quantity at least 1. *)
Definition cart_inv (c : cart) : Prop :=
  NoDup c.*1 /\ Forall (fun kq => dict_mem kq.1 catalog = true /\ 1 <= kq.2) c.

Definition store_inv (carts : store) : Prop :=
  forall sid c, carts !! sid = Some c -> cart_inv c.

(** [payload.get("qty", 1)], the value [int] is applied to. *)
Definition qty_value (rq : request) : res json :=
  payload_get (payload_of rq) "qty" (JInt 1).

Definition positive_integer (v : json) : Prop := exists z, v = JInt z /\ 0 < z.

(** The rule for quantities as the specification words it: an add or remove
    whose qty is not a positive integer answers 400 InvalidQuantity and
    leaves the cart as it was. *)
Definition invalid_quantity_rule : Prop :=
  forall r rq rnd carts v,
    r = CartAdd \/ r = CartRemove ->
    qty_value rq = Ok v -> ~ positive_integer v ->
    let sid := get_or_create_session_id rq rnd in
    (serve r rq rnd carts).1 = reply (Error invalid_qty_msg) sid 400 /\
    cart_of (serve r rq rnd carts).2 sid = cart_of carts sid.

(** The rule for the session header as the specification words it. *)
Definition session_header_rule : Prop :=
  forall r rq rnd carts,
    r_session (serve r rq rnd carts).1 = Some (get_or_create_session_id rq rnd).

Definition session (sid : string) (v : json) : request :=
  {| x_session_id := Some sid; get_json := v |}.

Definition item_qty (item : string) (qty : json) : json :=
  JDict [("item_id", JStr item); ("qty", qty)].

Definition no_entropy : entropy := {| session_bytes := 0; order_bytes := 0 |}.

(** 1.5 *)
Definition one_and_a_half : spec_float := S754_finite false 6755399441055744 (-52).

(** The store after [POST /cart/add {"item_id": "1", "qty": 2**1024}] on a
    new service. *)
Definition huge : Z := 2 ^ 1024.
Definition overflow_store : store :=
  (serve CartAdd (session "s" (item_qty "1" (JInt huge))) no_entropy ∅).2.

Definition line_ok (li : line_item) : Prop :=
  exists q, float_of_int (li_qty li) = Ok q /\
            li_line_total li = round2 (fmul (li_unit_price li) q).

Definition running_subtotal (items : list line_item) (start : spec_float) : spec_float :=
  fold_left (fun acc li => round2 (fadd acc (li_line_total li))) items start.

(** The store after [POST /cart/add {"item_id": "1", "qty": 2}]. *)
Definition two_keyboards : store :=
  (serve CartAdd (session "s" (item_qty "1" (JInt 2))) no_entropy ∅).2.

(** ** Notions for the further properties *)

(** Requests served one after the other, from the store [carts]. *)
Fixpoint serve_all (calls : list (route * request * entropy)) (carts : store) : store :=
  match calls with
  | [] => carts
  | (r, rq, rnd) :: rest => serve_all rest (serve r rq rnd carts).2
  end.

(** The first int that [float] rejects: halfway between the largest float
    and [2^1024]. *)
Definition float_limit : Z := 2 ^ 1024 - 2 ^ 970.

(** Quantities that [float] accepts. *)
Definition small (c : cart) : Prop :=
  Forall (fun kq : string * Z => Z.abs kq.2 < float_limit) c.

(** The entries [cart_totals] prices: those whose key is in the catalog. *)
Definition priced (c : cart) : cart :=
  List.filter (fun kq : string * Z => dict_mem kq.1 catalog) c.

(** The cart entry and the catalog product a line item was made from. *)
Definition entry_of (li : line_item) : string * Z := (li_id li, li_qty li).

Definition product_of (li : line_item) : product :=
  {| p_id := li_id li; p_name := li_name li; p_price := li_unit_price li |}.

(** What [cart_totals] returns, and nothing where it raises. *)
Definition totals_or_nothing (c : cart) : list line_item * spec_float :=
  match cart_totals c with
  | Ok r => r
  | Raise _ => ([], S754_zero false)
  end.

(** A cart with an entry that is not in the catalog. *)
Definition stray_cart : cart := [("9", 4); ("2", 1); ("1", 3)].

(** [{"item_id": "1", "qty": 3}] sent by session [s]. *)
Definition three_keyboards : request := session "s" (item_qty "1" (JInt 3)).

End Shop.

(* ===================================================================== *)
(** * Requests in flight: threads, the lock, interleavings *)
(* ===================================================================== *)

Module Threads.
Import Py Shop.

(** What a thread is serving. The requests that reach [with lock:] have
    passed validation: the item is a catalog key and the quantity is
    positive. *)
Inductive job :=
| Checkout_job (order_bytes : N)
| Add_job (item : string) (qty : Z)
| Remove_job (item : string) (qty : Z)
| Clear_job
| View_job.

(** Where a thread stands. A [checkout] goes through its locked region line
    by line; the locked regions of the other handlers write the cart of the
    session once. *)
Inductive pc :=
| Waiting                      (* in front of [with lock:] *)
| Locked                       (* lock acquired *)
| Read (c : cart)              (* cart = carts.get(session_id, {}) *)
| Priced (items : list line_item) (subtotal : spec_float)
                               (* items, subtotal = cart_totals(cart) *)
| Ordered (order_id : string) (items : list line_item) (subtotal : spec_float)
                               (* order_id = str(uuid.uuid4()) *)
| Cleared (order_id : string) (items : list line_item) (subtotal : spec_float)
                               (* carts[session_id] = {} *)
| Released (order_id : string) (items : list line_item) (subtotal : spec_float)
                               (* lock released *)
| Written                      (* add, remove, clear, view: cart written *)
| Left                         (* add, remove, clear, view: lock released;
                                  their response is priced afterwards *)
| Done (resp : response).      (* checkout answered *)

Record thread := { t_session : string; t_job : job; t_pc : pc }.

Record world := {
  w_carts : store;
  w_lock : option nat;         (* the thread holding [lock] *)
  w_threads : list thread
}.

(** The cart the locked region of a job leaves for its session. *)
Definition locked_write (j : job) (c : cart) : cart :=
  match j with
  | Add_job item qty => added item qty c
  | Remove_job item qty => removed item qty c
  | Clear_job => []
  | View_job => c
  | Checkout_job _ => c
  end.

(** The random bytes behind the order id of a checkout. *)
Definition entropy_of (j : job) : N :=
  match j with
  | Checkout_job order_bytes => order_bytes
  | _ => 0%N
  end.

Definition at_pc (t : thread) (p : pc) : thread :=
  {| t_session := t_session t; t_job := t_job t; t_pc := p |}.

(** One step of thread [i]: its next program point, the store and the lock
    it leaves; [None] when it cannot move (the lock is taken, or it is
    through). *)
Definition advance (i : nat) (t : thread) (carts : store) (lock : option nat)
    : option (pc * store * option nat) :=
  let sid := t_session t in
  match t_pc t with
  | Waiting =>
      match lock with
      | None => Some (Locked, carts, Some i)
      | Some _ => None
      end
  | Locked =>
      match t_job t with
      | Checkout_job _ => Some (Read (cart_of carts sid), carts, lock)
      | j => Some (Written, <[sid := locked_write j (cart_of carts sid)]> carts, lock)
      end
  | Read c =>
      match cart_totals c with
      | Raise e => Some (Done (handle_exception e), carts, None)
      | Ok (items, subtotal) => Some (Priced items subtotal, carts, lock)
      end
  | Priced [] _ => Some (Done (reply (Error empty_cart_msg) sid 400), carts, None)
  | Priced items subtotal =>
      Some (Ordered (str_uuid (uuid4 (entropy_of (t_job t)))) items subtotal,
            carts, lock)
  | Ordered o items subtotal =>
      Some (Cleared o items subtotal, <[sid := []]> carts, lock)
  | Cleared o items subtotal => Some (Released o items subtotal, carts, None)
  | Released o items subtotal =>
      Some (Done (reply (Order o subtotal items) sid 200), carts, lock)
  | Written => Some (Left, carts, None)
  | Left => None
  | Done _ => None
  end.

Definition fire (i : nat) (w : world) : option world :=
  match w_threads w !! i with
  | Some t =>
      match advance i t (w_carts w) (w_lock w) with
      | Some (p, carts, lock) =>
          Some {| w_carts := carts; w_lock := lock;
                  w_threads := <[i := at_pc t p]> (w_threads w) |}
      | None => None
      end
  | None => None
  end.

(** The interleavings: any thread that can move may move next. *)
Definition step (w w' : world) : Prop := exists i, fire i w = Some w'.

(** A schedule, run: the listed threads move in turn, one that cannot move
    is passed over. *)
Fixpoint run (schedule : list nat) (w : world) : world :=
  match schedule with
  | [] => w
  | i :: rest => run rest (default w (fire i w))
  end.

(** [jobs] launched together on the store [carts]. *)
Definition launch (carts : store) (jobs : list (string * job)) : world :=
  {| w_carts := carts; w_lock := None;
     w_threads := map (fun sj => {| t_session := sj.1; t_job := sj.2; t_pc := Waiting |}) jobs |}.

Definition through (p : pc) : bool :=
  match p with Done _ | Left => true | _ => false end.

Definition finished (w : world) : Prop :=
  Forall (fun t => through (t_pc t) = true) (w_threads w).

(** Between [with lock:] and the release. *)
Definition in_region (p : pc) : bool :=
  match p with
  | Locked | Read _ | Priced _ _ | Ordered _ _ _ | Cleared _ _ _ | Written => true
  | _ => false
  end.

(** Steps a thread has left, at most. *)
Definition remaining (p : pc) : nat :=
  match p with
  | Waiting => 7 | Locked => 6 | Read _ => 5 | Priced _ _ => 4
  | Ordered _ _ _ => 3 | Cleared _ _ _ => 2 | Released _ _ _ => 1
  | Written => 1 | Left => 0 | Done _ => 0
  end%nat.

Fixpoint fuel_of (l : list thread) : nat :=
  match l with
  | [] => 0
  | t :: r => remaining (t_pc t) + fuel_of r
  end%nat.

Definition fuel (w : world) : nat := fuel_of (w_threads w).

Definition won (t : thread) : bool :=
  match t_pc t with
  | Done {| r_body := Order _ _ _; r_status := 200 |} => true
  | _ => false
  end.

Definition lost (t : thread) : bool :=
  match t_pc t with
  | Done {| r_body := Error msg; r_status := 400 |} => String.eqb msg empty_cart_msg
  | _ => false
  end.

(** The lock is held by exactly the thread that is inside its region. *)
Definition lock_ok (w : world) : Prop :=
  (forall i t, w_threads w !! i = Some t ->
     (in_region (t_pc t) = true <-> w_lock w = Some i)) /\
  (forall i, w_lock w = Some i -> is_Some (w_threads w !! i)).

(** What a checkout inside its region has read and computed is still what
    the store holds for its session. *)
Definition region_ok (w : world) : Prop :=
  forall i t, w_threads w !! i = Some t ->
    let now := cart_of (w_carts w) (t_session t) in
    match t_pc t with
    | Read c => now = c
    | Priced items subtotal => cart_totals now = Ok (items, subtotal)
    | Ordered _ items subtotal =>
        cart_totals now = Ok (items, subtotal) /\ items <> []
    | Cleared _ _ _ => now = []
    | _ => True
    end.

(** The steps of a checkout on session [sid], read off [advance]. *)
Inductive checkout_step (sid : string) (ob : N) (carts : store)
    : pc -> pc -> store -> Prop :=
| cs_acquire : checkout_step sid ob carts Waiting Locked carts
| cs_read : checkout_step sid ob carts Locked (Read (cart_of carts sid)) carts
| cs_price c items sub :
    cart_totals c = Ok (items, sub) ->
    checkout_step sid ob carts (Read c) (Priced items sub) carts
| cs_raise c e :
    cart_totals c = Raise e ->
    checkout_step sid ob carts (Read c) (Done (handle_exception e)) carts
| cs_empty sub :
    checkout_step sid ob carts (Priced [] sub)
      (Done (reply (Error empty_cart_msg) sid 400)) carts
| cs_order li items sub :
    checkout_step sid ob carts (Priced (li :: items) sub)
      (Ordered (str_uuid (uuid4 ob)) (li :: items) sub) carts
| cs_clear o items sub :
    checkout_step sid ob carts (Ordered o items sub) (Cleared o items sub)
      (<[sid := []]> carts)
| cs_release o items sub :
    checkout_step sid ob carts (Cleared o items sub) (Released o items sub) carts
| cs_answer o items sub :
    checkout_step sid ob carts (Released o items sub)
      (Done (reply (Order o sub items) sid 200)) carts
| cs_leave : checkout_step sid ob carts Written Left carts.

(** All threads are checkouts of the session [sid]. *)
Definition checkouts_of (sid : string) (w : world) : Prop :=
  forall i t, w_threads w !! i = Some t ->
    t_session t = sid /\ exists ob, t_job t = Checkout_job ob.

(** Program points of a checkout that has not cleared the cart. *)
Definition before_clear (p : pc) : bool :=
  match p with
  | Waiting | Locked | Read _ | Priced _ _ | Ordered _ _ _ => true
  | _ => false
  end.

(** Program points of the checkout that cleared the cart. *)
Definition winner_pc (sid : string) (p : pc) : Prop :=
  exists o items sub,
    items <> [] /\
    (p = Cleared o items sub \/ p = Released o items sub \/
     p = Done (reply (Order o sub items) sid 200)).

(** Program points of a checkout that comes after it. *)
Definition loser_pc (sid : string) (p : pc) : Prop :=
  p = Waiting \/ p = Locked \/ (exists c, p = Read c) \/
  (exists items sub, p = Priced items sub) \/
  p = Done (reply (Error empty_cart_msg) sid 400).

(** Either nobody has cleared the cart [c0] yet, or one thread has and the
    cart is empty. *)
Definition race_inv (sid : string) (c0 : cart) (w : world) : Prop :=
  (cart_of (w_carts w) sid = c0 /\
   forall i t, w_threads w !! i = Some t -> before_clear (t_pc t) = true) \/
  (cart_of (w_carts w) sid = [] /\
   exists iw tw, w_threads w !! iw = Some tw /\ winner_pc sid (t_pc tw) /\
     forall j tj, j <> iw -> w_threads w !! j = Some tj -> loser_pc sid (t_pc tj)).

(** Pricing fails with [e]: every checkout waits, reads or has answered 500. *)
Definition crash_inv (sid : string) (carts0 : store) (e : exn) (w : world) : Prop :=
  w_carts w = carts0 /\
  forall i t, w_threads w !! i = Some t ->
    t_pc t = Waiting \/ t_pc t = Locked \/ (exists c, t_pc t = Read c) \/
    t_pc t = Done (handle_exception e).

(** How many threads satisfy [f]. *)
Definition tally (f : thread -> bool) (w : world) : nat :=
  length (List.filter f (w_threads w)).

(** [k] checkouts launched together on session [sid]. *)
Definition checkouts (carts : store) (sid : string) (obs : list N) : world :=
  launch carts (map (fun ob => (sid, Checkout_job ob)) obs).

Definition crashed (t : thread) : bool :=
  match t_pc t with
  | Done {| r_body := Internal_server_error _; r_status := 500 |} => true
  | _ => false
  end.

(** ** Requests one after the other

    A job run alone, to its end, on the store [carts]. *)
Definition alone (sid : string) (j : job) (carts : store) : world :=
  run [0; 0; 0; 0; 0; 0; 0]%nat (launch carts [(sid, j)]).

(** The store it leaves and the program point it ends at. *)
Definition settle (sid : string) (j : job) (carts : store) : store * pc :=
  let w := alone sid j carts in
  (w_carts w, from_option t_pc Waiting (w_threads w !! 0%nat)).

(** The jobs run alone one after the other, in the order [order]: the store
    at the end, and where each job ended. *)
Fixpoint serial (jobs : list (string * job)) (order : list nat) (carts : store)
    : store * list (nat * pc) :=
  match order with
  | [] => (carts, [])
  | i :: rest =>
      match jobs !! i with
      | Some (sid, j) =>
          let '(carts1, p) := settle sid j carts in
          let '(carts2, ps) := serial jobs rest carts1 in
          (carts2, (i, p) :: ps)
      | None => serial jobs rest carts
      end
  end.

(** A thread that has left its region stands where its job ends, or, for a
    checkout with an order, one step before. *)
Definition answered_as (sid : string) (p final : pc) : Prop :=
  p = final \/
  exists o items sub,
    p = Released o items sub /\ final = Done (reply (Order o sub items) sid 200).

(** The threads of [order] have run their regions one after the other, from
    the store [base] to the store [final]. *)
Fixpoint settled_from (ths : list thread) (order : list nat) (base final : store) : Prop :=
  match order with
  | [] => final = base
  | i :: rest =>
      exists t, ths !! i = Some t /\
        answered_as (t_session t) (t_pc t) (settle (t_session t) (t_job t) base).2 /\
        settled_from ths rest (settle (t_session t) (t_job t) base).1 final
  end.

(** The thread [t] is inside its region, which it entered on the store
    [base]; the store is now [cur]. *)
Definition inside (t : thread) (base cur : store) : Prop :=
  let sid := t_session t in
  match t_pc t with
  | Locked => cur = base
  | Read c => cur = base /\ c = cart_of base sid /\ exists ob, t_job t = Checkout_job ob
  | Priced items sub =>
      cur = base /\ cart_totals (cart_of base sid) = Ok (items, sub) /\
      exists ob, t_job t = Checkout_job ob
  | Ordered o items sub =>
      cur = base /\ cart_totals (cart_of base sid) = Ok (items, sub) /\ items <> [] /\
      exists ob, t_job t = Checkout_job ob /\ o = str_uuid (uuid4 ob)
  | Cleared o items sub =>
      cur = <[sid := []]> base /\
      cart_totals (cart_of base sid) = Ok (items, sub) /\ items <> [] /\
      exists ob, t_job t = Checkout_job ob /\ o = str_uuid (uuid4 ob)
  | Written =>
      cur = <[sid := locked_write (t_job t) (cart_of base sid)]> base /\
      forall ob, t_job t <> Checkout_job ob
  | _ => False
  end.

(** The regions run so far have run one after the other. *)
Definition linear_inv (carts0 : store) (w : world) : Prop :=
  exists pre final,
    NoDup pre /\
    settled_from (w_threads w) pre carts0 final /\
    ((w_carts w = final /\
      forall j tj, w_threads w !! j = Some tj -> t_pc tj <> Waiting -> j ∈ pre) \/
     (exists i t, w_threads w !! i = Some t /\ (i ∉ pre) /\ inside t final (w_carts w) /\
        forall j tj, w_threads w !! j = Some tj -> t_pc tj <> Waiting -> (j ∈ pre) \/ j = i)).

(** What the cart of [sid] holds of [item]: [cart.get(item, 0)]. *)
Definition held (carts : store) (sid item : string) : Z :=
  default 0 (dict_get item (cart_of carts sid)).

(** What a job adds to [item] in the cart of [sid] when it is an add. *)
Definition adds_to (sid item : string) (sj : string * job) : Z :=
  match sj.2 with
  | Add_job i q => if String.eqb sj.1 sid && String.eqb i item then q else 0
  | _ => 0
  end.

Definition added_total (sid item : string) (jobs : list (string * job)) : Z :=
  foldr (fun sj acc => adds_to sid item sj + acc) 0 jobs.

Definition only_adds (jobs : list (string * job)) : Prop :=
  Forall (fun sj : string * job => exists i q, sj.2 = Add_job i q) jobs.

End Threads.

(* ===================================================================== *)
(** * The load generator of [loadgen.py] *)
(* ===================================================================== *)

Module Loadgen.
Import Py Shop.

Definition CATALOG_ITEM_IDS : list string := ["1"; "2"; "3"; "4"; "5"].

(** ** What the script draws *)

(** [random.choice(seq)]: the element at a drawn index below [len(seq)];
    nothing ([IndexError]) when [seq] is empty. *)
Definition choice {A} (draw : nat) (seq : list A) : option A :=
  seq !! (draw mod length seq)%nat.

(** [random.randint(a, b)] *)
Definition randint (a b draw : Z) : Z := a + draw mod (b - a + 1).

(** ** Calls through [requests]

    A call reaches the service and is answered, or it does not reach it, or
    it is served and the answer is lost; in the last two cases [requests]
    raises. *)
Inductive link := Answered | Unreachable | Unanswered.

(** The state of the connection at one call, and the random bytes the
    service draws while serving it. *)
Record wire := { wire_link : link; wire_entropy : entropy }.

Definition call (w : wire) (r : route) (rq : request) (carts : store)
    : option response * store :=
  match wire_link w with
  | Answered =>
      let '(resp, carts) := serve r rq (wire_entropy w) carts in (Some resp, carts)
  | Unreachable => (None, carts)
  | Unanswered => (None, (serve r rq (wire_entropy w) carts).2)
  end.

(** The requests the script sends. *)
Definition probe_request : request := {| x_session_id := None; get_json := JNull |}.

Definition add_request (session_id item_id : string) : request :=
  {| x_session_id := Some session_id;
     get_json := JDict [("item_id", JStr item_id); ("qty", JInt 1)] |}.

Definition bare_request (session_id : string) : request :=
  {| x_session_id := Some session_id; get_json := JNull |}.

(** ** The functions of the script *)

(** [headers.get("X-Session-Id") or headers.get("x-session-id")]; header
    names are case-insensitive in [requests], so both lookups give the value
    [headers] stands for. *)
Definition get_session_id_from_headers (headers : option string) : option string :=
  match headers with
  | Some v => if truthy (JStr v) then headers else headers
  | None => headers
  end.

(** [r.ok] *)
Definition ok (resp : response) : bool := r_status resp <? 400.

Definition health_check (w : wire) (carts : store) : bool * store :=
  let '(r, carts) := call w Healthz probe_request carts in
  (match r with
   | Some resp => ok resp
   | None => false
   end, carts).

Definition ensure_session (w : wire) (fallback_bytes : N) (carts : store)
    : string * store :=
  let '(r, carts) := call w Catalog probe_request carts in
  let fallback_sid := str_uuid (uuid4 fallback_bytes) in
  (match r with
   | Some resp =>
       match get_session_id_from_headers (r_session resp) with
       | Some sid => if truthy (JStr sid) then sid else fallback_sid
       | None => fallback_sid
       end
   | None => fallback_sid
   end, carts).

Definition do_add (w : wire) (draw : nat) (session_id : string) (carts : store)
    : (bool * option string) * store :=
  let item_id := default EmptyString (choice draw CATALOG_ITEM_IDS) in
  let '(r, carts) := call w CartAdd (add_request session_id item_id) carts in
  (match r with
   | Some resp => (r_status resp =? 200, Some item_id)
   | None => (false, None)
   end, carts).

Definition do_view_cart (w : wire) (session_id : string) (carts : store) : bool * store :=
  let '(r, carts) := call w CartView (bare_request session_id) carts in
  (match r with
   | Some resp => r_status resp =? 200
   | None => false
   end, carts).

Definition do_checkout (w : wire) (session_id : string) (carts : store) : bool * store :=
  let '(r, carts) := call w Checkout (bare_request session_id) carts in
  (match r with
   | Some resp => r_status resp =? 200
   | None => false
   end, carts).

(** What one turn of the loop of [worker] draws. *)
Record turn := {
  t_item : nat;                (* random.choice *)
  t_roll : Z;                  (* random.randint *)
  t_add : wire;
  t_view : wire;
  t_checkout : wire
}.

(** One turn of [while True:] in [worker]: whether the add, the view and,
    when it was attempted, the checkout succeeded, and the store of the
    service afterwards. *)
Definition worker_turn (session_id : string) (checkout_rate : Z) (t : turn)
    (carts : store) : (bool * bool * option bool) * store :=
  let '((ok_add, _), carts) := do_add (t_add t) (t_item t) session_id carts in
  let '(ok_view, carts) := do_view_cart (t_view t) session_id carts in
  let roll := randint 1 100 (t_roll t) in
  if roll <=? checkout_rate then
    let '(ok_checkout, carts) := do_checkout (t_checkout t) session_id carts in
    ((ok_add, ok_view, Some ok_checkout), carts)
  else ((ok_add, ok_view, None), carts).

(** The first [length turns] turns of the loop. *)
Fixpoint worker_loop (session_id : string) (checkout_rate : Z) (turns : list turn)
    (carts : store) : store :=
  match turns with
  | [] => carts
  | t :: rest =>
      worker_loop session_id checkout_rate rest
        (worker_turn session_id checkout_rate t carts).2
  end.

(** [worker], as far as [turns] reaches: the session id it works under and
    the store of the service. *)
Definition worker (checkout_rate : Z) (first : wire) (fallback_bytes : N)
    (turns : list turn) (carts : store) : string * store :=
  let '(session_id, carts) := ensure_session first fallback_bytes carts in
  (session_id, worker_loop session_id checkout_rate turns carts).

(** ** [main] *)

Record args := { users : Z; checkout_rate : Z; skip_health_check : bool }.

(** [range(a, b)] *)
Definition range (a b : Z) : list Z :=
  map (fun i => a + Z.of_nat i) (seq 0 (Z.to_nat (b - a))).

Definition enforce_bounds (a : args) : args :=
  {| users := Z.max 1 (users a);
     checkout_rate := Z.min 100 (Z.max 0 (checkout_rate a));
     skip_health_check := skip_health_check a |}.

(** [main] exits with a code, or starts its workers: their ids and the
    checkout rate each is given. *)
Inductive outcome :=
| Exit (code : Z)
| Started (workers : list (Z * Z)).

Definition main (a : args) (w : wire) (carts : store) : outcome :=
  let a := enforce_bounds a in
  if negb (skip_health_check a) && negb (health_check w carts).1 then Exit 2
  else Started (map (fun wid => (wid, checkout_rate a)) (range 1 (users a + 1))).

(** Every call of the turn is answered. *)
Definition answered (t : turn) : Prop :=
  wire_link (t_add t) = Answered /\ wire_link (t_view t) = Answered /\
  wire_link (t_checkout t) = Answered.

(** Room for one more unit in every entry. *)
Definition roomy (c : cart) : Prop :=
  Forall (fun kq : string * Z => kq.2 < float_limit - 1) c.

Definition up : wire := {| wire_link := Answered; wire_entropy := no_entropy |}.

Definition quiet_turn : turn :=
  {| t_item := 7; t_roll := 41; t_add := up; t_view := up; t_checkout := up |}.

End Loadgen.

(* ===================================================================== *)
(** * Facts about dictionaries *)
(* ===================================================================== *)

Module PyFacts.
Import Py.

Section DictFacts.
Context {V : Type}.
Implicit Types (d : list (string * V)) (k : string) (v : V).

Lemma dict_get_set_eq k v d : dict_get k (dict_set k v d) = Some v.
Proof.
  induction d as [|[k' v'] r IH]; simpl.
  - by rewrite String.eqb_refl.
  - destruct (String.eqb k k') eqn:E; simpl.
    + by rewrite String.eqb_refl.
    + by rewrite E.
Qed.

Lemma dict_get_set_ne k k' v d :
  k ≠ k' -> dict_get k' (dict_set k v d) = dict_get k' d.
Proof.
  intros Hne. induction d as [|[k0 v0] r IH]; simpl.
  - destruct (String.eqb k' k) eqn:E; [|done].
    apply String.eqb_eq in E. congruence.
  - destruct (String.eqb k k0) eqn:E; simpl.
    + apply String.eqb_eq in E. subst k0.
      destruct (String.eqb k' k) eqn:E'; [|done].
      apply String.eqb_eq in E'. congruence.
    + by rewrite IH.
Qed.

Lemma dict_del_set k v d : dict_del k (dict_set k v d) = dict_del k d.
Proof.
  induction d as [|[k' v'] r IH]; simpl.
  - by rewrite String.eqb_refl.
  - destruct (String.eqb k k') eqn:E; simpl.
    + by rewrite String.eqb_refl.
    + by rewrite E, IH.
Qed.

Lemma dict_get_None_keys k d : dict_get k d = None <-> k ∉ d.*1.
Proof.
  induction d as [|[k' v'] r IH]; simpl.
  - split; [intros _; apply not_elem_of_nil | done].
  - rewrite not_elem_of_cons. destruct (String.eqb k k') eqn:E.
    + apply String.eqb_eq in E. split; [done | intros [? _]; done].
    + apply String.eqb_neq in E. rewrite IH. tauto.
Qed.

Lemma dict_get_Some_elem k v d : dict_get k d = Some v -> (k, v) ∈ d.
Proof.
  induction d as [|[k' v'] r IH]; simpl; [done|].
  destruct (String.eqb k k') eqn:E.
  - apply String.eqb_eq in E. intros [= ->]. subst. apply list_elem_of_here.
  - intros H. apply list_elem_of_further. auto.
Qed.

Lemma dict_set_keys_in k v d : k ∈ d.*1 -> (dict_set k v d).*1 = d.*1.
Proof.
  induction d as [|[k' v'] r IH]; simpl.
  - intros H. by apply elem_of_nil in H.
  - destruct (String.eqb k k') eqn:E; simpl.
    + apply String.eqb_eq in E. by subst.
    + apply String.eqb_neq in E. intros [?|?]%elem_of_cons; [done|]. f_equal. by apply IH.
Qed.

Lemma dict_set_keys_out k v d : k ∉ d.*1 -> (dict_set k v d).*1 = (d.*1 ++ [k])%list.
Proof.
  induction d as [|[k' v'] r IH]; simpl; [done|].
  rewrite not_elem_of_cons. intros [Hne Hr].
  apply String.eqb_neq in Hne. rewrite Hne. simpl. f_equal. by apply IH.
Qed.

Lemma dict_set_NoDup k v d : NoDup d.*1 -> NoDup (dict_set k v d).*1.
Proof.
  intros Hd. destruct (decide (k ∈ d.*1)) as [Hin|Hout].
  - by rewrite dict_set_keys_in.
  - rewrite dict_set_keys_out by done. apply NoDup_app. split; [done|].
    split; [|apply NoDup_singleton].
    intros x Hx ->%list_elem_of_singleton. done.
Qed.

Lemma dict_set_Forall (P : string * V -> Prop) k v d :
  Forall P d -> P (k, v) -> Forall P (dict_set k v d).
Proof.
  intros Hd Hp. induction Hd as [|[k' v'] r Hx Hr IH]; simpl.
  - by constructor.
  - destruct (String.eqb k k'); constructor; auto.
Qed.

Lemma dict_del_sublist k d : sublist (dict_del k d) d.
Proof.
  induction d as [|[k' v'] r IH]; simpl; [done|].
  destruct (String.eqb k k').
  - by apply sublist_cons.
  - by apply sublist_skip.
Qed.

Lemma dict_del_Forall (P : string * V -> Prop) k d :
  Forall P d -> Forall P (dict_del k d).
Proof.
  intros H. induction H as [|[k' v'] r Hx Hr IH]; simpl; [done|].
  destruct (String.eqb k k'); [done | by constructor].
Qed.

Lemma dict_del_NoDup k d : NoDup d.*1 -> NoDup (dict_del k d).*1.
Proof.
  intros H. eapply sublist_NoDup; [exact H|].
  apply fmap_sublist, dict_del_sublist.
Qed.

Lemma dict_get_del_eq k d : NoDup d.*1 -> dict_get k (dict_del k d) = None.
Proof.
  induction d as [|[k' v'] r IH]; simpl; [done|].
  intros [Hk' Hr]%NoDup_cons. destruct (String.eqb k k') eqn:E; simpl.
  - apply String.eqb_eq in E. subst. by apply dict_get_None_keys.
  - rewrite E. auto.
Qed.
End DictFacts.

Lemma str_uuid_nonempty u : str_uuid u <> EmptyString.
Proof.
  unfold str_uuid. destruct (take 8 (hex 32 u)); simpl; discriminate.
Qed.

End PyFacts.

(* ===================================================================== *)
(** * The handlers, one request at a time *)
(* ===================================================================== *)

Module ShopFacts.
Import Py Shop PyFacts.

(** ** The catalog and pricing *)

Lemma catalog_mem_keys k : dict_mem k catalog = true <-> k ∈ catalog_keys.
Proof.
  unfold dict_mem, catalog, catalog_keys. simpl. split.
  - repeat (destruct (String.eqb k _) eqn:?E;
      [apply String.eqb_eq in E; subst; set_solver | clear E]).
    done.
  - intros H. repeat (apply elem_of_cons in H as [->|H]; [done|]).
    by apply elem_of_nil in H.
Qed.

Lemma catalog_key_text k :
  dict_mem k catalog = true -> strip k = k /\ String.eqb k EmptyString = false.
Proof.
  intros H%catalog_mem_keys. unfold catalog_keys in H.
  repeat (apply elem_of_cons in H as [->|H]; [by vm_compute|]).
  by apply elem_of_nil in H.
Qed.

Lemma bad_item_false item :
  bad_item item = false <-> exists k, item = Some k /\ dict_mem k catalog = true.
Proof.
  unfold bad_item. destruct item as [k|]; split.
  - intros [H1 H2]%orb_false_elim. exists k. split; [done|].
    by destruct (dict_mem k catalog).
  - intros (k' & [= <-] & Hk). rewrite Hk.
    destruct (catalog_key_text k Hk) as [_ ->]. done.
  - done.
  - intros (k & ? & _). done.
Qed.

Lemma cart_totals_loop_app c : forall s acc items s',
  cart_totals_loop c s acc = Ok (items, s') ->
  exists new, items = (acc ++ new)%list /\
    (forall k q r, c = (k, q) :: r -> dict_mem k catalog = true -> new <> []).
Proof.
  induction c as [|[k q] r IH]; intros s acc items s'; cbn [cart_totals_loop].
  - intros [= <- <-]. exists []. split; [by rewrite app_nil_r | done].
  - unfold dict_mem. destruct (dict_get k catalog) as [p|] eqn:Hk.
    + destruct (float_of_int q) as [f|e]; [|done].
      intros (new & -> & _)%IH. eexists. rewrite <- app_assoc. split; [done|].
      intros ? ? ? _ _. simpl. discriminate.
    + intros (new & -> & _)%IH. exists new. split; [done|].
      intros k0 q0 r0 [= <- <- <-]. rewrite Hk. done.
Qed.

Lemma cart_totals_nil : cart_totals [] = Ok ([], S754_zero false).
Proof. done. Qed.

Lemma cart_totals_priced k q r items s :
  dict_mem k catalog = true ->
  cart_totals ((k, q) :: r) = Ok (items, s) -> items <> [].
Proof.
  intros Hk (new & -> & Hnew)%cart_totals_loop_app. simpl. eauto.
Qed.

Lemma cart_inv_nil : cart_inv [].
Proof. split; [apply NoDup_nil_2 | constructor]. Qed.

Lemma cart_inv_get c k q : cart_inv c -> dict_get k c = Some q -> 1 <= q.
Proof.
  intros [_ HF] H%dict_get_Some_elem.
  rewrite Forall_forall in HF. by destruct (HF _ H).
Qed.

Lemma cart_inv_set c k q :
  cart_inv c -> dict_mem k catalog = true -> 1 <= q -> cart_inv (dict_set k q c).
Proof.
  intros [HN HF] Hk Hq. split.
  - by apply dict_set_NoDup.
  - by apply dict_set_Forall.
Qed.

Lemma cart_inv_del c k : cart_inv c -> cart_inv (dict_del k c).
Proof.
  intros [HN HF]. split; [by apply dict_del_NoDup | by apply dict_del_Forall].
Qed.

Lemma cart_of_inv carts sid : store_inv carts -> cart_inv (cart_of carts sid).
Proof.
  intros H. unfold cart_of. destruct (carts !! sid) as [c|] eqn:E; simpl.
  - eauto.
  - apply cart_inv_nil.
Qed.

Lemma serve_store r rq rnd carts : (serve r rq rnd carts).2 = (handler r rq rnd carts).2.
Proof. unfold serve. by destruct (handler r rq rnd carts). Qed.

(** What a handler does to the store: nothing, or it writes one cart under
    the session id of the request. *)
Lemma handler_store r rq rnd carts :
  let sid := get_or_create_session_id rq rnd in
  exists c', ((handler r rq rnd carts).2 = carts \/
              (handler r rq rnd carts).2 = <[sid := c']> carts) /\
             (cart_inv (cart_of carts sid) -> cart_inv c').
Proof.
  intros sid. destruct r; cbn [handler].
  - exists []. split; [by left | intros; apply cart_inv_nil].
  - exists []. split; [by left | intros; apply cart_inv_nil].
  - exists (cart_of carts sid). split; [|done]. right.
    unfold view_cart, get_cart, setdefault. fold sid.
    by destruct (cart_totals _) as [[??]|].
  - unfold add_to_cart. fold sid.
    destruct (read_item_qty rq) as [[item qty]|e];
      [|exists []; split; [by left | intros; apply cart_inv_nil]].
    destruct (bad_item item) eqn:Hbad;
      [exists []; split; [by left | intros; apply cart_inv_nil]|].
    destruct (qty <=? 0) eqn:Hq;
      [exists []; split; [by left | intros; apply cart_inv_nil]|].
    apply bad_item_false in Hbad as (k & -> & Hk). apply Z.leb_gt in Hq.
    cbn [from_option id setdefault].
    exists (dict_set k (default 0 (dict_get k (cart_of carts sid)) + qty)
              (cart_of carts sid)). split.
    + right. destruct (cart_totals _) as [[??]|]; cbn [snd]; apply insert_insert_eq.
    + intros Hc. apply cart_inv_set; [done..|].
      destruct (dict_get k (cart_of carts sid)) as [old|] eqn:Hold;
        rewrite ?Hold; simpl; [|lia].
      pose proof (cart_inv_get _ _ _ Hc Hold). lia.
  - unfold remove_from_cart. fold sid.
    destruct (read_item_qty rq) as [[item qty]|e];
      [|exists []; split; [by left | intros; apply cart_inv_nil]].
    destruct (bad_item item) eqn:Hbad;
      [exists []; split; [by left | intros; apply cart_inv_nil]|].
    destruct (qty <=? 0) eqn:Hq;
      [exists []; split; [by left | intros; apply cart_inv_nil]|].
    apply bad_item_false in Hbad as (k & -> & Hk). apply Z.leb_gt in Hq.
    cbn [from_option id setdefault].
    destruct (dict_get k (cart_of carts sid)) as [old|] eqn:Hold.
    + exists (if old - qty <=? 0
              then dict_del k (dict_set k (old - qty) (cart_of carts sid))
              else dict_set k (old - qty) (cart_of carts sid)). split.
      * right. destruct (cart_totals _) as [[??]|]; cbn [snd]; apply insert_insert_eq.
      * intros Hc. destruct (old - qty <=? 0) eqn:Hle.
        -- rewrite dict_del_set. by apply cart_inv_del.
        -- apply Z.leb_gt in Hle. apply cart_inv_set; [done..|lia].
    + exists (cart_of carts sid). split; [by right | done].
  - exists []. split; [by right | intros; apply cart_inv_nil].
  - unfold checkout. fold sid. exists []. split; [|intros; apply cart_inv_nil].
    destruct (cart_totals _) as [[[|i items] s]|]; [by left | by right | by left].
Qed.

Lemma serve_inv r rq rnd carts : store_inv carts -> store_inv (serve r rq rnd carts).2.
Proof.
  intros Hinv. rewrite serve_store.
  destruct (handler_store r rq rnd carts) as (c' & [->| ->] & Hc'); [done|].
  intros sid c. rewrite lookup_insert. case_decide.
  - intros [= <-]. apply Hc'. by apply cart_of_inv.
  - apply Hinv.
Qed.

Lemma reachable_inv carts : reachable carts -> store_inv carts.
Proof.
  induction 1 as [|r rq rnd carts _ IH].
  - intros sid c. by rewrite lookup_empty.
  - by apply serve_inv.
Qed.

Section Requests.
Variables (rq : request) (rnd : entropy) (carts : store).
Variables (item : string) (qty : Z).
Let sid := get_or_create_session_id rq rnd.
Hypothesis Hread : read_item_qty rq = Ok (Some item, qty).
Hypothesis Hitem : dict_mem item catalog = true.

Lemma add_store : 0 < qty ->
  (serve CartAdd rq rnd carts).2 = <[sid := added item qty (cart_of carts sid)]> carts.
Proof.
  intros Hq. rewrite serve_store. cbn [handler]. unfold add_to_cart. fold sid.
  rewrite Hread. assert (bad_item (Some item) = false) as -> by (apply bad_item_false; eauto).
  apply Z.leb_gt in Hq. rewrite Hq. cbn [from_option id setdefault].
  unfold added. destruct (cart_totals _) as [[??]|]; cbn [snd]; apply insert_insert_eq.
Qed.

Lemma remove_store : 0 < qty ->
  (serve CartRemove rq rnd carts).2 = <[sid := removed item qty (cart_of carts sid)]> carts.
Proof.
  intros Hq. rewrite serve_store. cbn [handler]. unfold remove_from_cart. fold sid.
  rewrite Hread. assert (bad_item (Some item) = false) as -> by (apply bad_item_false; eauto).
  apply Z.leb_gt in Hq. rewrite Hq. cbn [from_option id setdefault].
  unfold removed. destruct (dict_get item (cart_of carts sid)) as [old|]; [|done].
  rewrite dict_del_set.
  destruct (cart_totals _) as [[??]|]; cbn [snd]; rewrite insert_insert_eq;
    by destruct (old - qty <=? 0).
Qed.

Lemma remove_not_in_cart : 0 < qty ->
  dict_get item (cart_of carts sid) = None ->
  serve CartRemove rq rnd carts =
    (reply (Error not_in_cart_msg) sid 400, <[sid := cart_of carts sid]> carts).
Proof.
  intros Hq Hnone. unfold serve. cbn [handler]. unfold remove_from_cart. fold sid.
  rewrite Hread. assert (bad_item (Some item) = false) as -> by (apply bad_item_false; eauto).
  apply Z.leb_gt in Hq. rewrite Hq. cbn [from_option id setdefault].
  by rewrite Hnone.
Qed.

Lemma nonpositive_qty r : r = CartAdd \/ r = CartRemove -> qty <= 0 ->
  serve r rq rnd carts = (reply (Error invalid_qty_msg) sid 400, carts).
Proof.
  intros Hr Hq. apply Z.leb_le in Hq.
  assert (bad_item (Some item) = false) as Hb by (apply bad_item_false; eauto).
  destruct Hr as [-> | ->]; unfold serve; cbn [handler];
    unfold add_to_cart, remove_from_cart; fold sid; by rewrite Hread, Hb, Hq.
Qed.
End Requests.

Lemma cart_of_insert_eq (carts : store) sid c : cart_of (<[sid := c]> carts) sid = c.
Proof. unfold cart_of. by rewrite lookup_insert_eq. Qed.

Lemma cart_of_insert_ne (carts : store) sid sid' c :
  sid <> sid' -> cart_of (<[sid := c]> carts) sid' = cart_of carts sid'.
Proof. intros. unfold cart_of. by rewrite lookup_insert_ne. Qed.

Lemma checkout_unfold rq rnd carts :
  let sid := get_or_create_session_id rq rnd in
  serve Checkout rq rnd carts =
    match cart_totals (cart_of carts sid) with
    | Raise e => (handle_exception e, carts)
    | Ok ([], _) => (reply (Error empty_cart_msg) sid 400, carts)
    | Ok (items, subtotal) =>
        (reply (Order (str_uuid (uuid4 (order_bytes rnd))) subtotal items) sid 200,
         <[sid := []]> carts)
    end.
Proof.
  intros sid. unfold serve. cbn [handler]. unfold checkout. fold sid.
  by destruct (cart_totals _) as [[[|??]?]|].
Qed.

Lemma removed_get item qty c old :
  cart_inv c -> dict_get item c = Some old ->
  dict_get item (removed item qty c) =
    if old - qty <=? 0 then None else Some (old - qty).
Proof.
  intros [HN _] Hold. unfold removed. rewrite Hold.
  destruct (old - qty <=? 0).
  - by apply dict_get_del_eq.
  - apply dict_get_set_eq.
Qed.

(** C5. In every store the service can reach, every entry of every cart has
    a quantity of at least 1; and a [remove] of [qty] from an entry holding
    [old] leaves no entry when [old - qty <= 0], and the entry [old - qty]
    otherwise. *)
Theorem quantity_floor carts :
  reachable carts ->
  (forall sid c k q, carts !! sid = Some c -> (k, q) ∈ c -> 1 <= q) /\
  (forall rq rnd item qty old,
     let sid := get_or_create_session_id rq rnd in
     read_item_qty rq = Ok (Some item, qty) ->
     dict_mem item catalog = true -> 0 < qty ->
     dict_get item (cart_of carts sid) = Some old ->
     dict_get item (cart_of (serve CartRemove rq rnd carts).2 sid) =
       if old - qty <=? 0 then None else Some (old - qty)).
Proof.
  intros Hr. pose proof (reachable_inv _ Hr) as Hinv. split.
  - intros sid c k q Hc Hin. destruct (Hinv _ _ Hc) as [_ HF].
    rewrite Forall_forall in HF. by destruct (HF _ Hin).
  - intros rq rnd item qty old sid Hread Hitem Hq Hold.
    rewrite (remove_store rq rnd carts item qty Hread Hitem Hq).
    rewrite cart_of_insert_eq. apply removed_get; [|done].
    by apply cart_of_inv.
Qed.

(** C6. On a session whose cart is empty or absent, [add(item, n)] followed
    by [remove(item, n)], for a catalog item and [n > 0], gives back the
    cart as it was before the add: in between the cart is [{item: n}],
    afterwards it is empty again, and the store differs from the one before
    by nothing but the session's (empty) entry. *)
Theorem add_remove_inverse carts rq1 rnd1 rq2 rnd2 sid item n :
  get_or_create_session_id rq1 rnd1 = sid ->
  get_or_create_session_id rq2 rnd2 = sid ->
  read_item_qty rq1 = Ok (Some item, n) ->
  read_item_qty rq2 = Ok (Some item, n) ->
  dict_mem item catalog = true -> 0 < n ->
  cart_of carts sid = [] ->
  let carts1 := (serve CartAdd rq1 rnd1 carts).2 in
  let carts2 := (serve CartRemove rq2 rnd2 carts1).2 in
  cart_of carts1 sid = [(item, n)] /\
  cart_of carts2 sid = cart_of carts sid /\
  carts2 = <[sid := []]> carts.
Proof.
  intros H1 H2 Hr1 Hr2 Hitem Hn Hfresh carts1 carts2.
  assert (carts1 = <[sid := [(item, n)]]> carts) as E1.
  { unfold carts1. rewrite (add_store rq1 rnd1 carts item n Hr1 Hitem Hn).
    rewrite H1, Hfresh. done. }
  assert (carts2 = <[sid := []]> carts) as E2.
  { unfold carts2. rewrite (remove_store rq2 rnd2 carts1 item n Hr2 Hitem Hn).
    rewrite H2, E1, cart_of_insert_eq, insert_insert_eq.
    unfold removed. cbn [dict_get dict_set dict_del].
    by rewrite String.eqb_refl, Z.sub_diag. }
  rewrite E1, E2, !cart_of_insert_eq, Hfresh. done.
Qed.

(** A response depends on the store through the cart of the request's own
    session only. *)
Lemma handler_local r rq rnd (carts1 carts2 : store) :
  cart_of carts1 (get_or_create_session_id rq rnd) =
    cart_of carts2 (get_or_create_session_id rq rnd) ->
  (handler r rq rnd carts1).1 = (handler r rq rnd carts2).1.
Proof.
  intros H. destruct r; cbn [handler]; try done.
  - unfold view_cart, get_cart, setdefault. rewrite H.
    by destruct (cart_totals _) as [[??]|].
  - unfold add_to_cart, setdefault. rewrite H.
    destruct (read_item_qty rq) as [[??]|]; [|done].
    destruct (bad_item _); [done|]. destruct (_ <=? 0); [done|].
    by destruct (cart_totals _) as [[??]|].
  - unfold remove_from_cart, setdefault. rewrite H.
    destruct (read_item_qty rq) as [[??]|]; [|done].
    destruct (bad_item _); [done|]. destruct (_ <=? 0); [done|].
    destruct (dict_get _ _); [|done].
    by destruct (cart_totals _) as [[??]|].
  - unfold checkout. rewrite H.
    by destruct (cart_totals _) as [[[|??]?]|].
Qed.

(** C7. A request whose session id is not [B] leaves the entry of [B]
    as it was, and its response is the same whatever cart [B] holds, or
    whether [B] has an entry at all. *)
Theorem session_isolation r rq rnd carts B :
  B <> get_or_create_session_id rq rnd ->
  (serve r rq rnd carts).2 !! B = carts !! B /\
  (forall cB, (serve r rq rnd (<[B := cB]> carts)).1 = (serve r rq rnd carts).1) /\
  (serve r rq rnd (delete B carts)).1 = (serve r rq rnd carts).1.
Proof.
  intros HB. split; [|split].
  - rewrite serve_store.
    destruct (handler_store r rq rnd carts) as (c' & [->| ->] & _); [done|].
    by rewrite lookup_insert_ne.
  - intros cB. unfold serve.
    pose proof (handler_local r rq rnd (<[B := cB]> carts) carts) as E.
    destruct (handler r rq rnd (<[B := cB]> carts)), (handler r rq rnd carts).
    simpl in *. rewrite E; [done|]. by apply cart_of_insert_ne.
  - unfold serve.
    pose proof (handler_local r rq rnd (delete B carts) carts) as E.
    destruct (handler r rq rnd (delete B carts)), (handler r rq rnd carts).
    simpl in *. rewrite E; [done|]. unfold cart_of. by rewrite lookup_delete_ne.
Qed.

Lemma cart_of_keys carts sid k :
  store_inv carts -> k ∈ (cart_of carts sid).*1 -> dict_mem k catalog = true.
Proof.
  intros Hinv Hk. destruct (cart_of_inv carts sid Hinv) as [_ HF].
  apply list_elem_of_fmap in Hk as ([k' q] & -> & Hin).
  rewrite Forall_forall in HF. by destruct (HF _ Hin).
Qed.

(** C9. In every store the service can reach, every key of every cart is a
    key of the catalog; so [checkout] answers [EmptyCart] exactly when the
    cart of the session is empty. *)
Theorem cart_keys_in_catalog carts :
  reachable carts ->
  (forall sid c k, carts !! sid = Some c -> k ∈ c.*1 -> dict_mem k catalog = true) /\
  (forall rq rnd,
     r_body (serve Checkout rq rnd carts).1 = Error empty_cart_msg <->
     cart_of carts (get_or_create_session_id rq rnd) = []).
Proof.
  intros Hr. pose proof (reachable_inv _ Hr) as Hinv. split.
  - intros sid c k Hc Hk. apply (cart_of_keys carts sid); [done|].
    unfold cart_of. by rewrite Hc.
  - intros rq rnd. rewrite checkout_unfold. cbv zeta.
    destruct (cart_of carts _) as [|[k q] rest] eqn:Hc.
    + by rewrite cart_totals_nil.
    + assert (dict_mem k catalog = true) as Hk.
      { apply (cart_of_keys carts (get_or_create_session_id rq rnd)); [done|].
        rewrite Hc. simpl. apply list_elem_of_here. }
      destruct (cart_totals _) as [[items sub]|e] eqn:Ht.
      * pose proof (cart_totals_priced _ _ _ _ _ Hk Ht).
        destruct items; [done|]. simpl. split; discriminate.
      * simpl. split; discriminate.
Qed.

(** C10. For a session id with no entry in the store, a catalog item and a
    positive quantity: [remove] answers 400 [NotInCart] and leaves the
    session mapped to an empty cart, while [checkout] answers 400
    [EmptyCart] and leaves the store without an entry for the session. *)
Theorem remove_creates_session carts rq rnd item qty :
  let sid := get_or_create_session_id rq rnd in
  carts !! sid = None ->
  read_item_qty rq = Ok (Some item, qty) ->
  dict_mem item catalog = true -> 0 < qty ->
  serve CartRemove rq rnd carts =
    (reply (Error not_in_cart_msg) sid 400, <[sid := []]> carts) /\
  (serve CartRemove rq rnd carts).2 !! sid = Some [] /\
  serve Checkout rq rnd carts = (reply (Error empty_cart_msg) sid 400, carts) /\
  (serve Checkout rq rnd carts).2 !! sid = None.
Proof.
  intros sid Hnone Hread Hitem Hq.
  assert (cart_of carts sid = []) as Hc by (unfold cart_of; by rewrite Hnone).
  assert (serve CartRemove rq rnd carts =
          (reply (Error not_in_cart_msg) sid 400, <[sid := []]> carts)) as E.
  { rewrite (remove_not_in_cart rq rnd carts item qty Hread Hitem Hq).
    - fold sid. by rewrite Hc.
    - fold sid. by rewrite Hc. }
  assert (serve Checkout rq rnd carts =
          (reply (Error empty_cart_msg) sid 400, carts)) as E'.
  { rewrite checkout_unfold. cbv zeta. fold sid. by rewrite Hc. }
  rewrite E, E'. simpl. by rewrite lookup_insert_eq.
Qed.


(** C3, as the specification states it, fails: qty 1.5 is no positive
    integer, yet [int(1.5)] is 1 and the add succeeds. *)
Lemma invalid_quantity_rule_fails : ~ invalid_quantity_rule.
Proof.
  intros H.
  destruct (H CartAdd (session "s" (item_qty "1" (JFloat one_and_a_half)))
              no_entropy ∅ (JFloat one_and_a_half)) as [Hresp _].
  - by left.
  - reflexivity.
  - intros (z & Hz & _). discriminate.
  - vm_compute in Hresp. discriminate.
Qed.

Lemma invalid_item_first :
  (serve CartAdd (session "s" (item_qty "zz" (JInt 0))) no_entropy ∅).1
  = reply (Error invalid_item_msg) "s" 400.
Proof. vm_compute. reflexivity. Qed.

Lemma qty_null_500 :
  (serve CartAdd (session "s" (item_qty "1" JNull)) no_entropy ∅).1
  = handle_exception TypeError.
Proof. vm_compute. reflexivity. Qed.

(** C3, amended. When [int(...)] turns the qty of an add or remove request
    into an integer [<= 0], the answer is a 400 with the session header and
    the store is untouched: [InvalidItem] when the item id is not a catalog
    key, [InvalidQuantity] otherwise. *)
Theorem nonpositive_qty_rejected r rq rnd carts item qty :
  r = CartAdd \/ r = CartRemove ->
  read_item_qty rq = Ok (item, qty) -> qty <= 0 ->
  let sid := get_or_create_session_id rq rnd in
  serve r rq rnd carts =
    (reply (Error (if bad_item item then invalid_item_msg else invalid_qty_msg)) sid 400,
     carts).
Proof.
  intros Hr Hread Hq sid. apply Z.leb_le in Hq.
  destruct Hr as [-> | ->]; unfold serve; cbn [handler];
    unfold add_to_cart, remove_from_cart; fold sid; rewrite Hread;
    destruct (bad_item item); [done | by rewrite Hq | done | by rewrite Hq].
Qed.

Lemma nonpositive_qty_rejected_witness :
  serve CartRemove (session "s" (item_qty "1" (JInt (-3)))) no_entropy ∅ =
    (reply (Error invalid_qty_msg) "s" 400, ∅).
Proof.
  apply (nonpositive_qty_rejected CartRemove (session "s" (item_qty "1" (JInt (-3))))
           no_entropy ∅ (Some "1") (-3)).
  - right. reflexivity.
  - reflexivity.
  - lia.
Defined.

(** C8, as the specification states it, fails: the response of [/healthz]
    has no session header. *)
Lemma session_header_rule_fails : ~ session_header_rule.
Proof.
  intros H. specialize (H Healthz (session "s" JNull) no_entropy ∅).
  vm_compute in H. discriminate.
Qed.

(** C8, amended. Every response that a handler other than [health] returns
    itself is a 200 or a 400 and carries the session id of the request in
    its header; the [/healthz] response carries none. *)
Theorem session_header_echo r rq rnd carts resp :
  r <> Healthz ->
  (handler r rq rnd carts).1 = Ok resp ->
  (serve r rq rnd carts).1 = resp /\
  r_session resp = Some (get_or_create_session_id rq rnd) /\
  (r_status resp = 200 \/ r_status resp = 400) /\
  r_session (serve Healthz rq rnd carts).1 = None.
Proof.
  intros Hr Hok. split; [|split; [|split]]; [| | |done].
  - unfold serve. destruct (handler r rq rnd carts) as [[?|?] ?]; simpl in *; congruence.
  - destruct r; [done|..]; cbn [handler] in Hok;
      unfold get_catalog, view_cart, add_to_cart, remove_from_cart, clear_cart,
        checkout, get_cart, setdefault in Hok;
      repeat case_match; cbn [fst] in *; simplify_eq; done.
  - destruct r; [done|..]; cbn [handler] in Hok;
      unfold get_catalog, view_cart, add_to_cart, remove_from_cart, clear_cart,
        checkout, get_cart, setdefault in Hok;
      repeat case_match; cbn [fst] in *; simplify_eq; cbn; auto.
Qed.

(** ** Checkout *)

Lemma overflow_store_eq : overflow_store = {[ "s" := [("1", huge)] ]}.
Proof. vm_compute. reflexivity. Qed.

(** C1, at the failing input. After one add of 2**1024 keyboards (itself
    answered 500, after the cart was written), the cart of the session is
    not empty, yet [checkout] answers 500 and leaves the cart as it is. *)
Theorem checkout_overflow :
  reachable overflow_store /\
  cart_of overflow_store "s" = [("1", huge)] /\
  serve Checkout (session "s" JNull) no_entropy overflow_store =
    (handle_exception OverflowError, overflow_store).
Proof.
  split; [|split].
  - apply reachable_serve, reachable_start.
  - vm_compute. reflexivity.
  - vm_compute. reflexivity.
Qed.

(** Where pricing returns, [checkout] does what the specification says. *)
Lemma checkout_priced carts rq rnd :
  reachable carts ->
  let sid := get_or_create_session_id rq rnd in
  (cart_of carts sid = [] ->
     serve Checkout rq rnd carts = (reply (Error empty_cart_msg) sid 400, carts)) /\
  (forall items subtotal,
     cart_of carts sid <> [] ->
     cart_totals (cart_of carts sid) = Ok (items, subtotal) ->
     let order_id := str_uuid (uuid4 (order_bytes rnd)) in
     serve Checkout rq rnd carts =
       (reply (Order order_id subtotal items) sid 200, <[sid := []]> carts) /\
     order_id <> EmptyString /\ items <> [] /\
     forall rnd',
       serve Checkout rq rnd' (<[sid := []]> carts) =
         (reply (Error empty_cart_msg) (get_or_create_session_id rq rnd') 400,
          <[sid := []]> carts) \/
       get_or_create_session_id rq rnd' <> sid).
Proof.
  intros Hr sid. pose proof (reachable_inv _ Hr) as Hinv. split.
  - intros Hc. rewrite checkout_unfold. cbv zeta. fold sid. by rewrite Hc.
  - intros items subtotal Hne Ht order_id.
    assert (items <> []) as Hitems.
    { destruct (cart_of carts sid) as [|[k q] rest] eqn:Hc; [done|].
      eapply cart_totals_priced; [|exact Ht].
      apply (cart_of_keys carts sid); [done|]. rewrite Hc. simpl. apply list_elem_of_here. }
    split; [|split; [|split]]; [| apply str_uuid_nonempty | done |].
    + rewrite checkout_unfold. cbv zeta. fold sid. rewrite Ht.
      by destruct items.
    + intros rnd'. destruct (decide (get_or_create_session_id rq rnd' = sid)) as [E|E];
        [left | by right].
      rewrite checkout_unfold. cbv zeta. rewrite E, cart_of_insert_eq. done.
Qed.

(** ** Pricing *)

(** C4, at the failing input. The cart [{"1": 2**1024}] is the cart of a
    session in a reachable store and is well-formed, and [cart_totals]
    raises [OverflowError] on it instead of returning line items. *)
Theorem pricing_overflow :
  reachable overflow_store /\
  overflow_store !! "s" = Some [("1", huge)] /\
  cart_inv [("1", huge)] /\
  cart_totals [("1", huge)] = Raise OverflowError.
Proof.
  split; [|split; [|split]].
  - apply reachable_serve, reachable_start.
  - vm_compute. reflexivity.
  - apply (reachable_inv overflow_store (reachable_serve _ _ _ _ reachable_start) "s").
    vm_compute. reflexivity.
  - vm_compute. reflexivity.
Qed.

Lemma cart_totals_loop_lines c : forall s acc items s',
  cart_totals_loop c s acc = Ok (items, s') ->
  exists new, items = (acc ++ new)%list /\ Forall line_ok new /\
              s' = running_subtotal new s.
Proof.
  induction c as [|[k q] r IH]; intros s acc items s'; cbn [cart_totals_loop].
  - intros [= <- <-]. exists []. by rewrite app_nil_r.
  - destruct (dict_get k catalog) as [p|].
    + destruct (float_of_int q) as [f|e] eqn:Hq; [|done].
      intros (new & -> & Hnew & ->)%IH. eexists (_ :: new).
      rewrite <- app_assoc. split; [done|]. split; [|done].
      constructor; [|done]. exists f. done.
    + intros (new & -> & Hnew & ->)%IH. by exists new.
Qed.

(** Where pricing returns: each line total is the rounded product, and the
    subtotal is the running sum, rounded after every line. *)
Lemma cart_totals_lines c items subtotal :
  cart_totals c = Ok (items, subtotal) ->
  Forall line_ok items /\ subtotal = running_subtotal items (S754_zero false).
Proof. intros (new & -> & H1 & H2)%cart_totals_loop_lines. done. Qed.

(** ** Instances *)

Lemma two_keyboards_reachable : reachable two_keyboards.
Proof. apply reachable_serve, reachable_start. Qed.

Lemma quantity_floor_witness :
  dict_get "1"
    (cart_of (serve CartRemove (session "s" (item_qty "1" (JInt 5))) no_entropy
                two_keyboards).2 "s") = None.
Proof.
  destruct (quantity_floor two_keyboards two_keyboards_reachable) as [_ H].
  apply (H (session "s" (item_qty "1" (JInt 5))) no_entropy "1" 5 2).
  - reflexivity.
  - reflexivity.
  - lia.
  - vm_compute. reflexivity.
Defined.

Lemma add_remove_inverse_witness :
  let rq := session "s" (item_qty "1" (JInt 3)) in
  let carts1 := (serve CartAdd rq no_entropy ∅).2 in
  let carts2 := (serve CartRemove rq no_entropy carts1).2 in
  cart_of carts1 "s" = [("1", 3)] /\
  cart_of carts2 "s" = cart_of ∅ "s" /\
  carts2 = <[ "s" := [] ]> ∅.
Proof.
  apply (add_remove_inverse ∅ (session "s" (item_qty "1" (JInt 3))) no_entropy
           (session "s" (item_qty "1" (JInt 3))) no_entropy "s" "1" 3).
  - reflexivity.
  - reflexivity.
  - reflexivity.
  - reflexivity.
  - reflexivity.
  - lia.
  - reflexivity.
Defined.

Lemma session_isolation_witness :
  let rq := session "s" (item_qty "1" (JInt 3)) in
  (serve CartAdd rq no_entropy two_keyboards).2 !! "t" = two_keyboards !! "t" /\
  (forall cB, (serve CartAdd rq no_entropy (<[ "t" := cB ]> two_keyboards)).1 =
              (serve CartAdd rq no_entropy two_keyboards).1) /\
  (serve CartAdd rq no_entropy (delete "t" two_keyboards)).1 =
    (serve CartAdd rq no_entropy two_keyboards).1.
Proof.
  apply (session_isolation CartAdd (session "s" (item_qty "1" (JInt 3))) no_entropy
           two_keyboards "t").
  vm_compute. discriminate.
Defined.

Lemma cart_keys_in_catalog_witness :
  (forall sid c k, two_keyboards !! sid = Some c -> k ∈ c.*1 ->
                   dict_mem k catalog = true) /\
  (forall rq rnd,
     r_body (serve Checkout rq rnd two_keyboards).1 = Error empty_cart_msg <->
     cart_of two_keyboards (get_or_create_session_id rq rnd) = []).
Proof. apply (cart_keys_in_catalog two_keyboards two_keyboards_reachable). Defined.

Lemma remove_creates_session_witness :
  let rq := session "s" (item_qty "1" (JInt 1)) in
  serve CartRemove rq no_entropy ∅ =
    (reply (Error not_in_cart_msg) "s" 400, <[ "s" := [] ]> ∅) /\
  (serve CartRemove rq no_entropy ∅).2 !! "s" = Some [] /\
  serve Checkout rq no_entropy ∅ = (reply (Error empty_cart_msg) "s" 400, ∅) /\
  (serve Checkout rq no_entropy ∅).2 !! "s" = None.
Proof.
  apply (remove_creates_session ∅ (session "s" (item_qty "1" (JInt 1))) no_entropy "1" 1).
  - reflexivity.
  - reflexivity.
  - reflexivity.
  - lia.
Defined.

Lemma session_header_echo_witness :
  let rq := session "s" JNull in
  let resp := with_status (attach_session_header
                (jsonify (Catalog_list (map snd catalog))) "s") 200 in
  (serve Catalog rq no_entropy ∅).1 = resp /\
  r_session resp = Some "s" /\
  (r_status resp = 200 \/ r_status resp = 400) /\
  r_session (serve Healthz rq no_entropy ∅).1 = None.
Proof.
  apply (session_header_echo Catalog (session "s" JNull) no_entropy ∅).
  - discriminate.
  - reflexivity.
Defined.

End ShopFacts.

(* ===================================================================== *)
(** * Interleaved checkouts *)
(* ===================================================================== *)

Module ThreadFacts.
Import Py Shop PyFacts ShopFacts Threads.

Lemma fire_inv i w w' :
  fire i w = Some w' ->
  exists t p carts lock,
    w_threads w !! i = Some t /\
    advance i t (w_carts w) (w_lock w) = Some (p, carts, lock) /\
    w' = {| w_carts := carts; w_lock := lock;
            w_threads := <[i := at_pc t p]> (w_threads w) |}.
Proof.
  unfold fire. destruct (w_threads w !! i) as [t|]; [|done].
  destruct (advance i t (w_carts w) (w_lock w)) as [[[p carts] lock]|] eqn:E; [|done].
  intros [= <-]. by exists t, p, carts, lock.
Qed.

(** The four kinds of step: acquire, move inside the region, release, move
    outside the region. *)
Lemma advance_kind i t carts lock p carts' lock' :
  advance i t carts lock = Some (p, carts', lock') ->
  (in_region (t_pc t) = false /\ in_region p = true /\ lock = None /\
     lock' = Some i /\ carts' = carts) \/
  (in_region (t_pc t) = true /\ in_region p = true /\ lock' = lock) \/
  (in_region (t_pc t) = true /\ in_region p = false /\ lock' = None /\
     carts' = carts) \/
  (in_region (t_pc t) = false /\ in_region p = false /\ lock' = lock /\
     carts' = carts).
Proof.
  unfold advance. cbv zeta. destruct (t_pc t) as [| |c|items sub|o items sub|o items sub|o items sub| | |r];
    cbn [in_region].
  - destruct lock; [done|]. intros [= <- <- <-]. left. done.
  - destruct (t_job t); intros [= <- <- <-]; right; left; done.
  - destruct (cart_totals c) as [[items sub]|e]; intros [= <- <- <-].
    + right; left; done.
    + right; right; left; done.
  - destruct items as [|li items].
    + intros [= <- <- <-]. right; right; left; done.
    + intros [= <- <- <-]. right; left; done.
  - intros [= <- <- <-]. right; left; done.
  - intros [= <- <- <-]. right; right; left; done.
  - intros [= <- <- <-]. right; right; right; done.
  - intros [= <- <- <-]. right; right; left; done.
  - done.
  - done.
Qed.

Lemma launch_lock_ok carts jobs : lock_ok (launch carts jobs).
Proof.
  split.
  - intros i t. unfold launch. cbn [w_threads w_lock].
    rewrite list_lookup_fmap. destruct (jobs !! i); [|done].
    intros [= <-]. cbn. split; done.
  - done.
Qed.

Lemma step_lock_ok w w' : lock_ok w -> step w w' -> lock_ok w'.
Proof.
  intros [Hreg Hex] [i (t & p & carts & lock & Ht & Hadv & ->)%fire_inv].
  pose proof (Hreg i t Ht) as Hi.
  pose proof (lookup_lt_Some _ _ _ Ht) as Hlen.
  assert (forall j tj, j <> i -> w_threads w !! j = Some tj ->
            in_region (t_pc tj) = true -> w_lock w = Some j) as Hother.
  { intros j tj _ Hj. by apply Hreg. }
  split; cbn [w_threads w_lock].
  - intros j tj. destruct (decide (j = i)) as [->|Hne].
    + rewrite list_lookup_insert_eq by done. intros [= <-]. cbn [t_pc at_pc].
      apply advance_kind in Hadv
        as [(_ & Hp & _ & Hl & _)|[(Hin & Hp & Hl)|[(_ & Hp & Hl & _)|(Hout & Hp & Hl & _)]]];
        rewrite Hp, Hl.
      * done.
      * split; [intros _; by apply Hi | done].
      * done.
      * split; [done | intros H%Hi; congruence].
    + rewrite list_lookup_insert_ne by done. intros Hj.
      pose proof (Hreg j tj Hj) as Hjr.
      apply advance_kind in Hadv
        as [(_ & _ & Hl & -> & _)|[(_ & _ & ->)|[(Hin & _ & -> & _)|(_ & _ & -> & _)]]].
      * rewrite Hl in Hjr. split; [intros H%Hjr; done | intros [= ->]; done].
      * done.
      * apply Hi in Hin. rewrite Hin in Hjr.
        split; [intros [= ->]%Hjr; done | done].
      * done.
  - intros j Hj. destruct (decide (j = i)) as [->|Hne].
    + rewrite list_lookup_insert_eq by done. eauto.
    + rewrite list_lookup_insert_ne by done. apply Hex.
      apply advance_kind in Hadv
        as [(_ & _ & _ & -> & _)|[(_ & _ & ->)|[(_ & _ & -> & _)|(_ & _ & -> & _)]]];
        congruence.
Qed.

Lemma steps_lock_ok w w' : lock_ok w -> rtc step w w' -> lock_ok w'.
Proof. intros H Hs. induction Hs; eauto using step_lock_ok. Qed.

(** Mutual exclusion: two threads inside their locked regions are one. *)
Lemma mutual_exclusion w i j ti tj :
  lock_ok w ->
  w_threads w !! i = Some ti -> w_threads w !! j = Some tj ->
  in_region (t_pc ti) = true -> in_region (t_pc tj) = true -> i = j.
Proof.
  intros [Hreg _] Hi Hj Hri Hrj.
  apply (Hreg i ti Hi) in Hri. apply (Hreg j tj Hj) in Hrj. congruence.
Qed.

Lemma advance_remaining i t carts lock p carts' lock' :
  advance i t carts lock = Some (p, carts', lock') ->
  (remaining p < remaining (t_pc t))%nat.
Proof.
  unfold advance. cbv zeta.
  destruct (t_pc t) as [| |c|items sub|o items sub|o items sub|o items sub| | |r].
  - destruct lock; [done|]. intros [= <- <- <-]. cbn. lia.
  - destruct (t_job t); intros [= <- <- <-]; cbn; lia.
  - destruct (cart_totals c) as [[items sub]|e]; intros [= <- <- <-]; cbn; lia.
  - destruct items; intros [= <- <- <-]; cbn; lia.
  - intros [= <- <- <-]. cbn. lia.
  - intros [= <- <- <-]. cbn. lia.
  - intros [= <- <- <-]. cbn. lia.
  - intros [= <- <- <-]. cbn. lia.
  - done.
  - done.
Qed.

Lemma fuel_insert (l : list thread) i t t' :
  l !! i = Some t ->
  (fuel_of (<[i := t']> l) + remaining (t_pc t)
   = fuel_of l + remaining (t_pc t'))%nat.
Proof.
  revert i. induction l as [|x l IH]; intros [|i] H; try done.
  - injection H as ->. change (<[0%nat := t']> (t :: l)) with (t' :: l).
    cbn [fuel_of]. lia.
  - change (<[S i := t']> (x :: l)) with (x :: <[i := t']> l).
    change ((x :: l) !! S i) with (l !! i) in H.
    cbn [fuel_of]. specialize (IH i H). lia.
Qed.

(** Every step uses up fuel: no run goes on for ever. *)
Lemma step_fuel w w' : step w w' -> (fuel w' < fuel w)%nat.
Proof.
  intros [i (t & p & carts & lock & Ht & Hadv & ->)%fire_inv].
  apply advance_remaining in Hadv. unfold fuel. cbn [w_threads].
  pose proof (fuel_insert (w_threads w) i t (at_pc t p) Ht) as E.
  cbn [t_pc at_pc] in E. lia.
Qed.

Lemma steps_bounded w w' n :
  nsteps step n w w' -> (n + fuel w' <= fuel w)%nat.
Proof.
  induction 1 as [|n x y z Hxy _ IH]; [lia|].
  apply step_fuel in Hxy. lia.
Qed.

(** A thread outside the region that is not through can move once the lock
    is free; a thread inside the region can always move. *)
Lemma advance_enabled i t carts lock :
  through (t_pc t) = false ->
  (in_region (t_pc t) = true \/ lock = None) ->
  is_Some (advance i t carts lock).
Proof.
  unfold advance. cbv zeta.
  destruct (t_pc t) as [| |c|items sub|o items sub|o items sub|o items sub| | |r];
    cbn; intros Hth Hr; try done.
  - destruct Hr as [?| ->]; done.
  - destruct (t_job t); done.
  - destruct (cart_totals c) as [[??]|]; done.
  - destruct items; done.
Qed.

(** No deadlock: a world that is not finished can step. *)
Lemma progress w : lock_ok w -> finished w \/ exists w', step w w'.
Proof.
  intros [Hreg Hex].
  assert (forall i t, w_threads w !! i = Some t ->
            through (t_pc t) = false ->
            (in_region (t_pc t) = true \/ w_lock w = None) ->
            exists w', step w w') as Hgo.
  { intros i t Ht Hth Hr.
    destruct (advance_enabled i t (w_carts w) (w_lock w) Hth Hr) as [[[p c] l] Hadv].
    eexists. exists i. unfold fire. rewrite Ht, Hadv. done. }
  destruct (w_lock w) as [i|] eqn:Hl.
  - right. destruct (Hex i eq_refl) as [t Ht].
    assert (in_region (t_pc t) = true) as Hin by (by apply (Hreg i t Ht)).
    apply (Hgo i t Ht); [|by left].
    by destruct (t_pc t).
  - destruct (decide (finished w)) as [?|Hnot]; [by left|right].
    apply not_Forall_Exists in Hnot; [|apply _].
    apply Exists_exists in Hnot as (t & [i Ht]%list_elem_of_lookup & Hth).
    apply (Hgo i t Ht); [|by right].
    cbn in Hth. by destruct (through (t_pc t)).
Qed.

Lemma advance_checkout i t carts lock p carts' lock' ob :
  t_job t = Checkout_job ob ->
  advance i t carts lock = Some (p, carts', lock') ->
  checkout_step (t_session t) ob carts (t_pc t) p carts'.
Proof.
  intros Hjob. unfold advance. cbv zeta. rewrite Hjob. cbn [entropy_of].
  destruct (t_pc t) as [| |c|items sub|o items sub|o items sub|o items sub| | |r].
  - destruct lock; [done|]. intros [= <- <- <-]. constructor.
  - intros [= <- <- <-]. constructor.
  - destruct (cart_totals c) as [[items sub]|e] eqn:E; intros [= <- <- <-];
      by constructor.
  - destruct items; intros [= <- <- <-]; constructor.
  - intros [= <- <- <-]. constructor.
  - intros [= <- <- <-]. constructor.
  - intros [= <- <- <-]. constructor.
  - intros [= <- <- <-]. constructor.
  - done.
  - done.
Qed.

Lemma launch_region_ok carts jobs : region_ok (launch carts jobs).
Proof.
  intros i t. unfold launch. cbn [w_threads w_carts].
  rewrite list_lookup_fmap. destruct (jobs !! i); [|done].
  intros [= <-]. done.
Qed.

(** While a thread is inside its region, a step of another thread leaves
    the store alone. *)
Lemma other_step_keeps_store w i j t tj p carts lock :
  lock_ok w ->
  w_threads w !! i = Some t -> w_threads w !! j = Some tj -> j <> i ->
  in_region (t_pc tj) = true ->
  advance i t (w_carts w) (w_lock w) = Some (p, carts, lock) ->
  carts = w_carts w.
Proof.
  intros [Hreg _] Ht Hj Hne Hrj Hadv.
  apply (Hreg j tj Hj) in Hrj.
  apply advance_kind in Hadv
    as [(_ & _ & Hl & _)|[(Hin & _)|[(Hin & _)|(_ & _ & _ & ->)]]].
  - congruence.
  - apply (Hreg i t Ht) in Hin. congruence.
  - apply (Hreg i t Ht) in Hin. congruence.
  - done.
Qed.

Lemma step_region_ok w w' : lock_ok w -> region_ok w -> step w w' -> region_ok w'.
Proof.
  intros Hlock Hreg [i (t & p & carts & lock & Ht & Hadv & ->)%fire_inv].
  pose proof (lookup_lt_Some _ _ _ Ht) as Hlen.
  intros j tj. cbn [w_threads w_carts].
  destruct (decide (j = i)) as [->|Hne].
  - rewrite list_lookup_insert_eq by done. intros [= <-]. cbn [t_pc t_session at_pc].
    pose proof (Hreg i t Ht) as Hi. cbv zeta in Hi.
    unfold advance in Hadv. cbv zeta in Hadv.
    destruct (t_pc t) as [| |c|items sub|o items sub|o items sub|o items sub| | |r].
    + destruct (w_lock w); [done|]. by injection Hadv as <- <- <-.
    + destruct (t_job t); by injection Hadv as <- <- <-.
    + destruct (cart_totals c) as [[items sub]|e] eqn:E;
        injection Hadv as <- <- <-; [|done]. by rewrite Hi.
    + destruct items; injection Hadv as <- <- <-; [done|]. split; [done|discriminate].
    + injection Hadv as <- <- <-. apply cart_of_insert_eq.
    + by injection Hadv as <- <- <-.
    + by injection Hadv as <- <- <-.
    + by injection Hadv as <- <- <-.
    + done.
    + done.
  - rewrite list_lookup_insert_ne by done. intros Hj.
    pose proof (Hreg j tj Hj) as Hold. cbv zeta in Hold |- *.
    destruct (in_region (t_pc tj)) eqn:Hrj.
    + by rewrite (other_step_keeps_store w i j t tj p carts lock).
    + by destruct (t_pc tj).
Qed.

(** The two invariants together, on every world a launch can reach. *)
Lemma steps_sane w w' :
  lock_ok w -> region_ok w -> rtc step w w' -> lock_ok w' /\ region_ok w'.
Proof.
  intros Hl Hr Hs. induction Hs as [|x y z Hxy _ IH]; [done|].
  apply IH; [by eapply step_lock_ok | by eapply step_region_ok].
Qed.

Lemma launch_checkouts carts sid obs :
  checkouts_of sid (checkouts carts sid obs).
Proof.
  intros i t. unfold checkouts, launch. cbn [w_threads].
  rewrite !list_lookup_fmap. destruct (obs !! i); [|done].
  intros [= <-]. cbn. eauto.
Qed.

Lemma step_checkouts sid w w' : checkouts_of sid w -> step w w' -> checkouts_of sid w'.
Proof.
  intros Hc [i (t & p & carts & lock & Ht & Hadv & ->)%fire_inv] j tj.
  pose proof (lookup_lt_Some _ _ _ Ht) as Hlen. cbn [w_threads].
  destruct (decide (j = i)) as [->|Hne].
  - rewrite list_lookup_insert_eq by done. intros [= <-]. exact (Hc i t Ht).
  - rewrite list_lookup_insert_ne by done. apply Hc.
Qed.

(** ** A race of checkouts on one session *)

Section Race.
Variables (sid : string) (c0 : cart) (items0 : list line_item) (sub0 : spec_float).
Hypothesis Hpriced : cart_totals c0 = Ok (items0, sub0).
Hypothesis Hitems : items0 <> [].

Lemma step_race w w' :
  lock_ok w -> region_ok w -> checkouts_of sid w ->
  race_inv sid c0 w -> step w w' -> race_inv sid c0 w'.
Proof.
  intros Hlock Hreg Hpool Hrace [i (t & p & carts & lock & Ht & Hadv & ->)%fire_inv].
  pose proof (lookup_lt_Some _ _ _ Ht) as Hlen.
  destruct (Hpool i t Ht) as [Hsid [ob Hjob]].
  pose proof (advance_checkout _ _ _ _ _ _ _ ob Hjob Hadv) as Hstep.
  pose proof (Hreg i t Ht) as Hi. cbv zeta in Hi. rewrite Hsid in Hi, Hstep.
  clear Hsid Hjob Hadv.
  unfold race_inv. cbn [w_threads w_carts].
  destruct Hrace as [[Hc Hall]|[Hc (iw & tw & Hw & Hwin & Hlose)]].
  - (* nobody has cleared the cart yet *)
    pose proof (Hall i t Ht) as Hb.
    assert (carts = w_carts w -> before_clear p = true ->
              cart_of carts sid = c0 /\
              (forall j tj, <[i := at_pc t p]> (w_threads w) !! j = Some tj ->
                 before_clear (t_pc tj) = true)) as Hstay.
    { intros -> Hq. split; [done|]. intros j tj.
      destruct (decide (j = i)) as [->|Hne].
      - rewrite list_lookup_insert_eq by done. by intros [= <-].
      - rewrite list_lookup_insert_ne by done. apply Hall. }
    change (id (cart_of (w_carts w) sid = c0)) in Hc.
    destruct (t_pc t) as [| |c|items sub|o items sub|o items sub|o items sub| | |r]
      eqn:Epc; try done; inversion Hstep; subst; unfold id in Hc.
    + left. by apply Hstay.
    + left. by apply Hstay.
    + left. by apply Hstay.
    + rewrite Hc in *. congruence.
    + rewrite Hc, Hpriced in Hi. congruence.
    + left. by apply Hstay.
    + right. rewrite cart_of_insert_eq. split; [done|].
      exists i, (at_pc t (Cleared o items sub)).
      rewrite list_lookup_insert_eq by done. split; [done|]. split.
      * exists o, items, sub. destruct Hi as [_ Hne]. split; [done | by left].
      * intros j tj Hne. rewrite list_lookup_insert_ne by done. intros Hj.
        pose proof (Hall j tj Hj) as Hbj.
        destruct (t_pc tj) eqn:Epj; try done; unfold loser_pc; eauto 10.
        exfalso. apply Hne. symmetry.
        eapply (mutual_exclusion w i j t tj); [done..| |].
        -- by rewrite Epc.
        -- by rewrite Epj.
  - (* thread [iw] has cleared the cart *)
    right.
    assert (carts = w_carts w ->
              (i = iw -> winner_pc sid p) -> (i <> iw -> loser_pc sid p) ->
              cart_of carts sid = [] /\
              exists iw' tw', <[i := at_pc t p]> (w_threads w) !! iw' = Some tw' /\
                winner_pc sid (t_pc tw') /\
                forall j tj, j <> iw' ->
                  <[i := at_pc t p]> (w_threads w) !! j = Some tj ->
                  loser_pc sid (t_pc tj)) as Hstay.
    { intros -> Hqw Hql. split; [done|].
      destruct (decide (i = iw)) as [->|Hne].
      - exists iw, (at_pc t p). rewrite list_lookup_insert_eq by done.
        split; [done|]. split; [by apply Hqw|].
        intros j tj Hj. rewrite list_lookup_insert_ne by done. by apply Hlose.
      - exists iw, tw. rewrite list_lookup_insert_ne by done.
        split; [done|]. split; [done|].
        intros j tj Hj. destruct (decide (j = i)) as [->|Hji].
        + rewrite list_lookup_insert_eq by done. intros [= <-]. by apply Hql.
        + rewrite list_lookup_insert_ne by done. by apply Hlose. }
    assert (i = iw -> winner_pc sid (t_pc t)) as Hiw.
    { intros ->. rewrite Hw in Ht. by injection Ht as <-. }
    assert (i <> iw -> loser_pc sid (t_pc t)) as Hil.
    { intros Hne. by apply (Hlose i t). }
    unfold winner_pc in Hiw. unfold loser_pc in Hil.
    destruct (t_pc t) as [| |c|items sub|o items sub|o items sub|o items sub| | |r]
      eqn:Epc; inversion Hstep; subst.
    + apply Hstay; [done| |].
      * intros E. destruct (Hiw E) as (?&?&?&_&[?|[?|?]]); congruence.
      * intros _. unfold loser_pc. auto.
    + apply Hstay; [done| |].
      * intros E. destruct (Hiw E) as (?&?&?&_&[?|[?|?]]); congruence.
      * intros _. unfold loser_pc. eauto.
    + apply Hstay; [done| |].
      * intros E. destruct (Hiw E) as (?&?&?&_&[?|[?|?]]); congruence.
      * intros _. unfold loser_pc. eauto 10.
    + rewrite Hc, cart_totals_nil in *. congruence.
    + apply Hstay; [done| |].
      * intros E. destruct (Hiw E) as (?&?&?&_&[?|[?|?]]); congruence.
      * intros _. unfold loser_pc. auto 10.
    + rewrite Hc, cart_totals_nil in Hi. congruence.
    + destruct (decide (i = iw)) as [E|E].
      * destruct (Hiw E) as (?&?&?&_&[?|[?|?]]); congruence.
      * destruct (Hil E) as [?|[?|[[??]|[(?&?&?)|?]]]]; congruence.
    + apply Hstay; [done| |].
      * intros E. destruct (Hiw E) as (o'&items'&sub'&Hne&[?|[?|?]]); try congruence.
        exists o, items, sub. split; [congruence | auto].
      * intros E. destruct (Hil E) as [?|[?|[[??]|[(?&?&?)|?]]]]; congruence.
    + apply Hstay; [done| |].
      * intros E. destruct (Hiw E) as (o'&items'&sub'&Hne&[?|[?|?]]); try congruence.
        exists o, items, sub. split; [congruence | auto].
      * intros E. destruct (Hil E) as [?|[?|[[??]|[(?&?&?)|?]]]]; congruence.
    + destruct (decide (i = iw)) as [E|E].
      * destruct (Hiw E) as (?&?&?&_&[?|[?|?]]); congruence.
      * destruct (Hil E) as [?|[?|[[??]|[(?&?&?)|?]]]]; congruence.
Qed.

End Race.

(** ** Counting threads *)

Lemma filter_none (f : thread -> bool) l :
  (forall j y, l !! j = Some y -> f y = false) -> List.filter f l = [].
Proof.
  induction l as [|x l IH]; intros H; [done|]. cbn [List.filter].
  rewrite (H 0%nat x eq_refl). apply IH. intros j y Hj. by apply (H (S j)).
Qed.

Lemma filter_all (f : thread -> bool) l :
  (forall j y, l !! j = Some y -> f y = true) -> List.filter f l = l.
Proof.
  induction l as [|x l IH]; intros H; [done|]. cbn [List.filter].
  rewrite (H 0%nat x eq_refl). f_equal. apply IH. intros j y Hj. by apply (H (S j)).
Qed.

Lemma filter_one (f : thread -> bool) l i x :
  l !! i = Some x -> f x = true ->
  (forall j y, j <> i -> l !! j = Some y -> f y = false) ->
  length (List.filter f l) = 1%nat.
Proof.
  revert i. induction l as [|y l IH]; intros [|i] Hi Hx Hrest; try done.
  - injection Hi as ->. cbn [List.filter]. rewrite Hx. cbn [length]. f_equal.
    rewrite filter_none; [done|]. intros j z Hj. by apply (Hrest (S j)).
  - cbn [List.filter]. rewrite (Hrest 0%nat y); [|done|done].
    apply (IH i); [done..|]. intros j z Hne Hj. apply (Hrest (S j)); [lia|done].
Qed.

Lemma filter_but_one (f : thread -> bool) l i x :
  l !! i = Some x -> f x = false ->
  (forall j y, j <> i -> l !! j = Some y -> f y = true) ->
  length (List.filter f l) = (length l - 1)%nat.
Proof.
  revert i. induction l as [|y l IH]; intros [|i] Hi Hx Hrest; try done.
  - injection Hi as ->. cbn [List.filter]. rewrite Hx. cbv iota.
    rewrite filter_all; [simpl; lia|]. intros j z Hj. by apply (Hrest (S j)).
  - cbn [List.filter]. rewrite (Hrest 0%nat y); [|done|done]. simpl.
    rewrite (IH i); [|done..|].
    + apply lookup_lt_Some in Hi. simpl in *. lia.
    + intros j z Hne Hj. apply (Hrest (S j)); [lia|done].
Qed.

Lemma steps_checkouts sid w w' :
  checkouts_of sid w -> rtc step w w' -> checkouts_of sid w'.
Proof. intros H Hs. induction Hs; eauto using step_checkouts. Qed.

Lemma length_checkouts carts sid obs :
  length (w_threads (checkouts carts sid obs)) = length obs.
Proof. unfold checkouts, launch. cbn [w_threads]. by rewrite !length_map. Qed.

Lemma step_length w w' : step w w' -> length (w_threads w') = length (w_threads w).
Proof.
  intros [i (t & p & carts & lock & Ht & Hadv & ->)%fire_inv].
  cbn [w_threads]. apply length_insert.
Qed.

Lemma steps_length w w' : rtc step w w' -> length (w_threads w') = length (w_threads w).
Proof.
  induction 1 as [|x y z Hxy _ IH]; [done|]. rewrite IH. by apply step_length.
Qed.

(** A schedule, run, is one of the interleavings. *)
Lemma run_steps schedule w : rtc step w (run schedule w).
Proof.
  revert w. induction schedule as [|i rest IH]; intros w; cbn [run]; [done|].
  destruct (fire i w) as [w'|] eqn:E; cbn.
  - eapply rtc_l; [by exists i | apply IH].
  - apply IH.
Qed.

(** ** The outcome of a race *)

Lemma launch_race carts sid obs :
  race_inv sid (cart_of carts sid) (checkouts carts sid obs).
Proof.
  left. split; [done|]. intros i t. unfold checkouts, launch. cbn [w_threads].
  rewrite !list_lookup_fmap. destruct (obs !! i); [|done]. by intros [= <-].
Qed.

Lemma steps_race sid c0 items0 sub0 w w' :
  cart_totals c0 = Ok (items0, sub0) -> items0 <> [] ->
  lock_ok w -> region_ok w -> checkouts_of sid w -> race_inv sid c0 w ->
  rtc step w w' -> race_inv sid c0 w'.
Proof.
  intros Hp Hi Hl Hr Hc Hrace Hs.
  induction Hs as [|x y z Hxy _ IH]; [done|]. apply IH.
  - by eapply step_lock_ok.
  - by eapply step_region_ok.
  - by eapply step_checkouts.
  - by eapply step_race.
Qed.

(** Where the cart of the session is priced and has line items: however
    [k >= 1] checkouts on it interleave, the race never blocks, and when
    all have answered, one has an order, [k - 1] have [EmptyCart], the cart
    is empty and the lock is free. *)
Lemma checkout_race carts sid obs items sub w :
  cart_totals (cart_of carts sid) = Ok (items, sub) -> items <> [] ->
  obs <> [] ->
  rtc step (checkouts carts sid obs) w ->
  (finished w \/ exists w', step w w') /\
  (finished w ->
     tally won w = 1%nat /\
     tally lost w = (length obs - 1)%nat /\
     cart_of (w_carts w) sid = [] /\
     w_lock w = None).
Proof.
  intros Hp Hitems Hobs Hs.
  destruct (steps_sane _ _ (launch_lock_ok _ _) (launch_region_ok _ _) Hs)
    as [Hlock Hreg].
  pose proof (steps_checkouts sid _ _ (launch_checkouts carts sid obs) Hs) as Hpool.
  pose proof (steps_race sid _ _ _ _ _ Hp Hitems (launch_lock_ok _ _)
                (launch_region_ok _ _) (launch_checkouts carts sid obs)
                (launch_race carts sid obs) Hs) as Hrace.
  pose proof (steps_length _ _ Hs) as Hlen. rewrite length_checkouts in Hlen.
  split; [by apply progress|]. intros Hfin.
  unfold finished in Hfin. rewrite Forall_lookup in Hfin.
  destruct Hrace as [[_ Hall]|[Hc (iw & tw & Hw & Hwin & Hlose)]].
  - exfalso. destruct (w_threads w) as [|t l] eqn:E.
    + destruct obs; [done|]. simpl in Hlen. lia.
    + specialize (Hall 0%nat t eq_refl). specialize (Hfin 0%nat t eq_refl).
      by destruct (t_pc t).
  - assert (t_pc tw = t_pc tw -> won tw = true /\ lost tw = false) as Hwon.
    { intros _. pose proof (Hfin iw tw Hw) as Hth.
      destruct Hwin as (o & its & sb & _ & [E|[E|E]]); rewrite E in Hth; try done.
      unfold won, lost. rewrite E. done. }
    assert (forall j tj, j <> iw -> w_threads w !! j = Some tj ->
              won tj = false /\ lost tj = true) as Hlost.
    { intros j tj Hne Hj. pose proof (Hfin j tj Hj) as Hth.
      destruct (Hlose j tj Hne Hj) as [E|[E|[[? E]|[(?&?&E)|E]]]];
        rewrite E in Hth; try done.
      unfold won, lost. rewrite E. done. }
    destruct (Hwon eq_refl) as [Hw1 Hw2]. split; [|split; [|split]].
    + unfold tally. apply (filter_one won _ iw tw); [done..|].
      intros j y Hne Hj. by destruct (Hlost j y Hne Hj).
    + unfold tally. rewrite (filter_but_one lost _ iw tw); [by rewrite Hlen|done..|].
      intros j y Hne Hj. by destruct (Hlost j y Hne Hj).
    + done.
    + destruct (w_lock w) as [i|] eqn:El; [|done]. exfalso.
      destruct Hlock as [Hin Hex]. destruct (Hex i El) as [t Ht].
      pose proof (Hfin i t Ht) as Hth. apply (Hin i t Ht) in El.
      by destruct (t_pc t).
Qed.

Lemma step_crash sid carts0 e w w' :
  cart_totals (cart_of carts0 sid) = Raise e ->
  region_ok w -> checkouts_of sid w ->
  crash_inv sid carts0 e w -> step w w' -> crash_inv sid carts0 e w'.
Proof.
  intros He Hreg Hpool [Hc Hall] [i (t & p & carts & lock & Ht & Hadv & ->)%fire_inv].
  pose proof (lookup_lt_Some _ _ _ Ht) as Hlen.
  destruct (Hpool i t Ht) as [Hsid [ob Hjob]].
  pose proof (advance_checkout _ _ _ _ _ _ _ ob Hjob Hadv) as Hstep.
  pose proof (Hreg i t Ht) as Hi. cbv zeta in Hi. rewrite Hsid, Hc in Hi.
  pose proof (Hall i t Ht) as Hpc.
  assert (carts = w_carts w /\
          (p = Waiting \/ p = Locked \/ (exists c, p = Read c) \/
           p = Done (handle_exception e))) as [-> Hp].
  { destruct Hpc as [E|[E|[[c E]|E]]]; rewrite E in Hstep, Hi;
      inversion Hstep as [| |c' its sb Hp'|c' e' Hp'| | | | | |]; subst.
    - auto.
    - eauto 10.
    - congruence.
    - assert (e' = e) as -> by congruence. auto 10. }
  split; [done|]. cbn [w_threads]. intros j tj.
  destruct (decide (j = i)) as [->|Hne].
  - rewrite list_lookup_insert_eq by done. by intros [= <-].
  - rewrite list_lookup_insert_ne by done. apply Hall.
Qed.

(** Where pricing the cart of the session raises [e]: however the
    checkouts interleave, the race never blocks, and when all have answered,
    all have a 500, none has an order, and the store is as it was. *)
Lemma checkout_race_crash carts sid obs e w :
  cart_totals (cart_of carts sid) = Raise e ->
  rtc step (checkouts carts sid obs) w ->
  (finished w \/ exists w', step w w') /\
  (finished w ->
     tally won w = 0%nat /\ tally crashed w = length obs /\ w_carts w = carts).
Proof.
  intros He Hs.
  destruct (steps_sane _ _ (launch_lock_ok _ _) (launch_region_ok _ _) Hs)
    as [Hlock Hreg].
  split; [by apply progress|]. intros Hfin.
  assert (crash_inv sid carts e w) as [Hc Hall].
  { pose proof (launch_lock_ok carts (map (fun ob => (sid, Checkout_job ob)) obs)) as Hl0.
    pose proof (launch_region_ok carts (map (fun ob => (sid, Checkout_job ob)) obs)) as Hr0.
    pose proof (launch_checkouts carts sid obs) as Hp0.
    assert (crash_inv sid carts e (checkouts carts sid obs)) as Hc0.
    { split; [done|]. intros i t. unfold checkouts, launch. cbn [w_threads].
      rewrite !list_lookup_fmap. destruct (obs !! i); [|done]. intros [= <-]. by left. }
    fold (checkouts carts sid obs) in Hl0, Hr0.
    clear Hlock Hreg Hfin.
    induction Hs as [|x y z Hxy _ IH]; [done|]. apply IH.
    - by eapply step_lock_ok.
    - by eapply step_region_ok.
    - by eapply step_checkouts.
    - by eapply step_crash. }
  pose proof (steps_length _ _ Hs) as Hlen. rewrite length_checkouts in Hlen.
  unfold finished in Hfin. rewrite Forall_lookup in Hfin.
  assert (forall j tj, w_threads w !! j = Some tj ->
            won tj = false /\ crashed tj = true) as Hcr.
  { intros j tj Hj. pose proof (Hfin j tj Hj) as Hth.
    destruct (Hall j tj Hj) as [E|[E|[[? E]|E]]]; rewrite E in Hth; try done.
    unfold won, crashed. rewrite E. done. }
  split; [|split; [|done]]; unfold tally.
  - rewrite filter_none; [done|]. intros j y Hj. by destruct (Hcr j y Hj).
  - rewrite filter_all; [done|]. intros j y Hj. by destruct (Hcr j y Hj).
Qed.

Lemma fuel_checkouts carts sid obs :
  fuel (checkouts carts sid obs) = (7 * length obs)%nat.
Proof.
  unfold fuel, checkouts, launch. cbn [w_threads].
  induction obs as [|ob obs IH]; [done|].
  cbn [map fuel_of t_pc remaining length]. rewrite IH. lia.
Qed.

(** A race of [k] checkouts is over after at most [7 * k] steps. *)
Lemma race_terminates carts sid obs n w :
  nsteps step n (checkouts carts sid obs) w -> (n <= 7 * length obs)%nat.
Proof. intros H%steps_bounded. rewrite fuel_checkouts in H. lia. Qed.

(** The locked region of [checkout] is indivisible: in every world a launch
    of any jobs can reach, a thread inside its region is the only one
    there, and what a checkout has read and priced is what the store still
    holds for its session, up to its own clearing of the cart. *)
Lemma region_atomic carts jobs w i t :
  rtc step (launch carts jobs) w ->
  w_threads w !! i = Some t -> in_region (t_pc t) = true ->
  w_lock w = Some i /\
  (forall j tj, j <> i -> w_threads w !! j = Some tj -> in_region (t_pc tj) = false) /\
  match t_pc t with
  | Read c => cart_of (w_carts w) (t_session t) = c
  | Priced items subtotal =>
      cart_totals (cart_of (w_carts w) (t_session t)) = Ok (items, subtotal)
  | Ordered _ items subtotal =>
      cart_totals (cart_of (w_carts w) (t_session t)) = Ok (items, subtotal)
  | Cleared _ _ _ => cart_of (w_carts w) (t_session t) = []
  | _ => True
  end.
Proof.
  intros Hs Ht Hin.
  destruct (steps_sane _ _ (launch_lock_ok _ _) (launch_region_ok _ _) Hs)
    as [Hlock Hreg].
  split; [|split].
  - by apply (proj1 Hlock i t Ht).
  - intros j tj Hne Hj. destruct (in_region (t_pc tj)) eqn:E; [|done].
    exfalso. apply Hne. by eapply (mutual_exclusion w j i tj t).
  - pose proof (Hreg i t Ht) as H. cbv zeta in H.
    destruct (t_pc t); try done. by destruct H.
Qed.

(** C2, at the failing input. On the store left by one add of 2**1024
    keyboards the cart of session [s] is not empty; yet however [k]
    checkouts on it interleave, the race never blocks, and when all have
    answered, every one has a 500, none has an order, and the store still
    holds the cart. *)
Theorem race_overflow obs w :
  rtc step (checkouts overflow_store "s" obs) w ->
  reachable overflow_store /\
  cart_of overflow_store "s" <> [] /\
  (finished w \/ exists w', step w w') /\
  (finished w ->
     tally won w = 0%nat /\ tally crashed w = length obs /\
     w_carts w = overflow_store).
Proof.
  intros Hs. split; [|split].
  - apply reachable_serve, reachable_start.
  - vm_compute. discriminate.
  - apply (checkout_race_crash overflow_store "s" obs OverflowError); [|done].
    vm_compute. reflexivity.
Qed.

Lemma race_overflow_witness :
  let w := run [1; 0; 1; 1; 0; 0; 0]%nat (checkouts overflow_store "s" [1; 2]%N) in
  finished w /\ tally won w = 0%nat /\ tally crashed w = 2%nat /\
  w_carts w = overflow_store.
Proof.
  intros w.
  destruct (race_overflow [1; 2]%N w (run_steps _ _)) as (_ & _ & _ & H).
  assert (finished w) as Hfin.
  { vm_compute. repeat (apply List.Forall_cons; [reflexivity|]). apply List.Forall_nil. }
  split; [exact Hfin | exact (H Hfin)].
Defined.

End ThreadFacts.

(* ===================================================================== *)
(** * Facts about floats *)
(* ===================================================================== *)

Module FloatFacts.
Import Py.

Lemma digits2_iter_xO d p :
  digits2_pos (Pos.iter xO p d) = (digits2_pos p + d)%positive.
Proof.
  induction d as [|d IH] using Pos.peano_ind.
  - simpl. lia.
  - rewrite Pos.iter_succ. simpl. rewrite IH. lia.
Qed.

Lemma digits2_bounds p :
  2 ^ (Zpos (digits2_pos p) - 1) <= Zpos p < 2 ^ Zpos (digits2_pos p).
Proof.
  induction p as [p IH|p IH|]; simpl digits2_pos.
  - rewrite Pos2Z.inj_succ.
    replace (Z.succ (Z.pos (digits2_pos p)) - 1) with (Z.succ (Z.pos (digits2_pos p) - 1)) by lia.
    rewrite !Z.pow_succ_r by lia. lia.
  - rewrite Pos2Z.inj_succ.
    replace (Z.succ (Z.pos (digits2_pos p)) - 1) with (Z.succ (Z.pos (digits2_pos p) - 1)) by lia.
    rewrite !Z.pow_succ_r by lia. lia.
  - simpl. lia.
Qed.

Lemma digits2_small p : Zpos p < 2 ^ 53 -> Zpos (digits2_pos p) <= 53.
Proof.
  intros H. destruct (Z_le_gt_dec (Zpos (digits2_pos p)) 53) as [|Hgt]; [done|].
  pose proof (digits2_bounds p) as [Hlo _].
  assert (2 ^ 53 <= 2 ^ (Z.pos (digits2_pos p) - 1)) by (apply Z.pow_le_mono_r; lia).
  lia.
Qed.

(** A mantissa of 53 bits with an exponent in range is a float as it is. *)
Lemma round_aux_canonical s m e :
  Zpos (digits2_pos m) = 53 -> -1074 <= e <= 971 ->
  binary_round_aux prec emax s (Zpos m) e loc_Exact = S754_finite s m e.
Proof.
  intros Hd He.
  unfold binary_round_aux, shr_fexp, Zdigits2.
  rewrite Hd.
  assert (Hf : fexp prec emax (53 + e) - e = 0)
    by (unfold fexp, SpecFloat.emin, prec, emax; lia).
  rewrite Hf. cbn [shr shr_record_of_loc shr_m loc_of_shr_record round_nearest_even Zdigits2].
  rewrite Hd, Hf. cbn [shr shr_record_of_loc shr_m].
  replace (e <=? emax - prec) with true; [done|].
  symmetry. apply Z.leb_le. unfold emax, prec. lia.
Qed.

Lemma binary_round_small s m :
  Zpos m < 2 ^ 53 ->
  exists m' e, binary_round prec emax s m 0 = S754_finite s m' e /\
               Zpos m' = Zpos m * 2 ^ (- e) /\ -52 <= e <= 0.
Proof.
  intros Hm. pose proof (digits2_small m Hm) as HD.
  unfold binary_round, shl_align.
  destruct (Z.eq_dec (Zpos (digits2_pos m)) 53) as [E|NE].
  - assert (Hf : fexp prec emax (Zpos (digits2_pos m) + 0) - 0 = 0)
      by (unfold fexp, SpecFloat.emin, prec, emax; lia).
    rewrite Hf. cbv beta iota zeta. exists m, 0. rewrite round_aux_canonical by lia.
    split; [done|]. simpl. lia.
  - set (d := Z.to_pos (53 - Zpos (digits2_pos m))).
    assert (Hd : Zpos d = 53 - Zpos (digits2_pos m)) by (unfold d; lia).
    assert (Hf : fexp prec emax (Zpos (digits2_pos m) + 0) = Zneg d)
      by (unfold fexp, SpecFloat.emin, prec, emax; lia).
    rewrite Hf. clearbody d. change (Z.neg d - 0) with (Z.neg d). cbv beta iota zeta.
    exists (Pos.iter xO m d), (Zneg d).
    rewrite round_aux_canonical.
    + split; [done|]. split; [|lia].
      change (- Zneg d) with (Zpos d). clear.
      induction d as [|d IH] using Pos.peano_ind.
      * simpl. lia.
      * rewrite Pos.iter_succ, Pos2Z.inj_succ, Z.pow_succ_r by lia.
        rewrite Pos2Z.inj_xO, IH. lia.
    + rewrite digits2_iter_xO. lia.
    + lia.
Qed.

Lemma float_of_int_raise z e : float_of_int z = Raise e -> e = OverflowError.
Proof.
  unfold float_of_int.
  destruct (binary_normalize prec emax z 0 false); intros H; by inversion H.
Qed.

Lemma shr_1_spec rec :
  0 <= shr_m rec ->
  shr_m (shr_1 rec) = shr_m rec / 2 /\ shr_r (shr_1 rec) = Z.odd (shr_m rec).
Proof.
  destruct rec as [m r s]. cbn [shr_m].
  destruct m as [|[p|p|]|p]; cbn [shr_1 shr_m shr_r]; intros H; try lia;
    rewrite <- Z.div2_div; split; reflexivity.
Qed.

Lemma iter_shr n : forall rec,
  0 <= shr_m rec ->
  shr_m (SpecFloat.iter_pos shr_1 n rec) = shr_m rec / 2 ^ Zpos n /\
  shr_r (SpecFloat.iter_pos shr_1 n rec) = Z.testbit (shr_m rec) (Zpos n - 1).
Proof.
  induction n as [n IH|n IH|]; intros rec Hm; cbn [SpecFloat.iter_pos].
  - destruct (shr_1_spec rec Hm) as [E1 _].
    assert (H1 : 0 <= shr_m (shr_1 rec)) by (rewrite E1; apply Z.div_pos; lia).
    destruct (IH _ H1) as [E2 _].
    assert (H2 : 0 <= shr_m (SpecFloat.iter_pos shr_1 n (shr_1 rec)))
      by (rewrite E2; apply Z.div_pos; [lia|apply Z.pow_pos_nonneg; lia]).
    destruct (IH _ H2) as [E3 R3]. rewrite E3, R3, E2, E1. split.
    + rewrite !Z.div_div by (try apply Z.pow_pos_nonneg; lia).
      f_equal. replace (Z.pos n~1) with (1 + Z.pos n + Z.pos n) by lia.
      rewrite !Z.pow_add_r by lia. lia.
    + rewrite Z.div_pow2_bits by lia.
      replace (shr_m rec / 2) with (shr_m rec / 2 ^ 1) by (by rewrite Z.pow_1_r).
      rewrite Z.div_pow2_bits by lia. f_equal. lia.
  - destruct (IH _ Hm) as [E2 _].
    assert (H2 : 0 <= shr_m (SpecFloat.iter_pos shr_1 n rec))
      by (rewrite E2; apply Z.div_pos; [lia|apply Z.pow_pos_nonneg; lia]).
    destruct (IH _ H2) as [E3 R3]. rewrite E3, R3, E2. split.
    + rewrite !Z.div_div by (try apply Z.pow_pos_nonneg; lia).
      f_equal. replace (Z.pos n~0) with (Z.pos n + Z.pos n) by lia.
      rewrite !Z.pow_add_r by lia. lia.
    + rewrite Z.div_pow2_bits by lia. f_equal. lia.
  - destruct (shr_1_spec rec Hm) as [E1 R1]. rewrite E1, R1. split.
    + by rewrite Z.pow_1_r.
    + symmetry. apply Z.bit0_odd.
Qed.


Lemma digits2_unique p k :
  2 ^ (k - 1) <= Zpos p < 2 ^ k -> Zpos (digits2_pos p) = k.
Proof.
  intros [Hlo Hhi]. pose proof (digits2_bounds p) as [Dlo Dhi].
  assert (0 < k).
  { destruct (Z_lt_le_dec 0 k); [done|].
    assert (2 ^ k <= 2 ^ 0) by (apply Z.pow_le_mono_r; lia). simpl in *. lia. }
  destruct (Z.lt_trichotomy (Zpos (digits2_pos p)) k) as [Hlt|[?|Hgt]]; [|done|].
  - assert (2 ^ Zpos (digits2_pos p) <= 2 ^ (k - 1)) by (apply Z.pow_le_mono_r; lia). lia.
  - assert (2 ^ k <= 2 ^ (Zpos (digits2_pos p) - 1)) by (apply Z.pow_le_mono_r; lia). lia.
Qed.

Lemma round_cases rec :
  let m2 := round_nearest_even (shr_m rec) (loc_of_shr_record rec) in
  (m2 = shr_m rec \/ m2 = shr_m rec + 1) /\
  (shr_r rec = false -> m2 = shr_m rec) /\
  (shr_r rec = true -> Z.odd (shr_m rec) = true -> m2 = shr_m rec + 1).
Proof.
  destruct rec as [m [] []]; cbv zeta;
    cbn [shr_m shr_r loc_of_shr_record round_nearest_even];
    rewrite <- ?Z.negb_odd; destruct (Z.odd m); cbn [negb];
    (split; [auto|split]); intros; try done; try discriminate.
Qed.

(** The mantissa and the carry of an int of more than 53 bits, rounded to
    53 bits. *)
Lemma round_big m :
  53 < Zpos (digits2_pos m) ->
  let n := Zpos (digits2_pos m) - 53 in
  let rec1 := SpecFloat.iter_pos shr_1 (Z.to_pos n)
                {| shr_m := Zpos m; shr_r := false; shr_s := false |} in
  let m2 := round_nearest_even (shr_m rec1) (loc_of_shr_record rec1) in
  let m1 := Zpos m / 2 ^ n in
  2 ^ 52 <= m1 < 2 ^ 53 /\
  (m2 = m1 \/ m2 = m1 + 1) /\
  (Z.testbit (Zpos m) (n - 1) = false -> m2 = m1) /\
  (Z.testbit (Zpos m) (n - 1) = true -> Z.odd m1 = true -> m2 = m1 + 1).
Proof.
  intros HD n rec1 m2 m1.
  assert (Hn : Zpos (Z.to_pos n) = n) by (unfold n; lia).
  destruct (iter_shr (Z.to_pos n) {| shr_m := Zpos m; shr_r := false; shr_s := false |})
    as [E R]; [cbn; lia|].
  cbn [shr_m] in E, R. rewrite Hn in E, R. fold rec1 in E, R.
  pose proof (round_cases rec1) as H. cbv zeta in H. fold m2 in H.
  rewrite E, R in H. fold m1 in H.
  split; [|exact H].
  pose proof (digits2_bounds m) as [Dlo Dhi].
  assert (Hp : 0 < 2 ^ n) by (apply Z.pow_pos_nonneg; unfold n; lia).
  assert (E52 : 2 ^ (Zpos (digits2_pos m) - 1) = 2 ^ 52 * 2 ^ n).
  { rewrite <- Z.pow_add_r by (unfold n; lia). f_equal. unfold n. lia. }
  assert (E53 : 2 ^ Zpos (digits2_pos m) = 2 ^ 53 * 2 ^ n).
  { rewrite <- Z.pow_add_r by (unfold n; lia). f_equal. unfold n. lia. }
  unfold m1. split.
  - apply Z.div_le_lower_bound; [done|]. lia.
  - apply Z.div_lt_upper_bound; [done|]. lia.
Qed.


Lemma binary_round_big s m :
  53 < Zpos (digits2_pos m) ->
  let n := Zpos (digits2_pos m) - 53 in
  let rec1 := SpecFloat.iter_pos shr_1 (Z.to_pos n)
                {| shr_m := Zpos m; shr_r := false; shr_s := false |} in
  let m2 := round_nearest_even (shr_m rec1) (loc_of_shr_record rec1) in
  binary_round prec emax s m 0 =
    if m2 <? 2 ^ 53
    then (if n <=? 971 then S754_finite s (Z.to_pos m2) n else S754_infinity s)
    else (if n + 1 <=? 971 then S754_finite s 4503599627370496 (n + 1)
          else S754_infinity s).
Proof.
  intros HD n rec1 m2.
  destruct (round_big m HD) as ((Hlo & Hhi) & Hm2 & _). cbv zeta in Hm2.
  fold n rec1 m2 in Hm2. fold n in Hlo, Hhi.
  assert (Hn : Zpos (Z.to_pos n) = n) by (unfold n; lia).
  assert (Hf : fexp prec emax (Zpos (digits2_pos m) + 0) - 0 = Zpos (Z.to_pos n))
    by (unfold fexp, SpecFloat.emin, prec, emax, n; lia).
  unfold binary_round, shl_align. rewrite Hf. cbv beta iota zeta.
  unfold binary_round_aux, shr_fexp. cbn [Zdigits2]. rewrite Hf.
  cbn [shr shr_record_of_loc]. fold rec1. cbv beta iota zeta. fold m2.
  change (0 + Z.pos (Z.to_pos n)) with (Z.pos (Z.to_pos n)). rewrite Hn.
  clearbody m2. clear rec1.
  destruct m2 as [|p2|p2]; [lia| |lia]. cbn [Zdigits2].
  destruct (Z.ltb_spec (Z.pos p2) (2 ^ 53)) as [Hlt|Hge].
  - rewrite (digits2_unique p2 53) by lia.
    assert (fexp prec emax (53 + n) - n = 0) as ->
      by (unfold fexp, SpecFloat.emin, prec, emax; lia).
    cbn [shr shr_m Z.to_pos]. done.
  - assert (p2 = 9007199254740992%positive) as -> by lia.
    change (Z.pos (digits2_pos 9007199254740992)) with 54.
    assert (fexp prec emax (54 + n) - n = 1) as ->
      by (unfold fexp, SpecFloat.emin, prec, emax; lia).
    cbn [shr SpecFloat.iter_pos shr_1 shr_m]. done.
Qed.


(** Rounding an int to a float overflows exactly from [2^1024 - 2^970] on,
    the midpoint between the largest float and [2^1024]. *)
Lemma binary_round_limit s m :
  (Zpos m < 2 ^ 1024 - 2 ^ 970 /\
   exists m' e, binary_round prec emax s m 0 = S754_finite s m' e) \/
  (2 ^ 1024 - 2 ^ 970 <= Zpos m /\ binary_round prec emax s m 0 = S754_infinity s).
Proof.
  destruct (Z_le_gt_dec (Zpos (digits2_pos m)) 53) as [HD|HD].
  - left. pose proof (digits2_bounds m) as [_ Dhi].
    assert (2 ^ Zpos (digits2_pos m) <= 2 ^ 53) by (apply Z.pow_le_mono_r; lia).
    split; [lia|].
    destruct (binary_round_small s m) as (m' & e & -> & _); [lia|]. eauto.
  - apply Z.gt_lt in HD. rewrite (binary_round_big s m HD).
    destruct (round_big m HD) as ((Hlo & Hhi) & Hm2 & Hdown & Hup).
    cbv zeta in *.
    set (n := Zpos (digits2_pos m) - 53) in *.
    set (m2 := round_nearest_even _ _) in *.
    set (m1 := Zpos m / 2 ^ n) in *.
    assert (Hm1d : m1 = Zpos m / 2 ^ n) by done.
    assert (Hnd : Zpos (digits2_pos m) = n + 53) by (unfold n; lia).
    clearbody m1 m2 n.
    pose proof (digits2_bounds m) as [Dlo Dhi].
    destruct (Z.lt_trichotomy n 971) as [Hn|[Hn|Hn]].
    + (* at most 1023 bits *)
      left.
      assert (2 ^ Zpos (digits2_pos m) <= 2 ^ 1023) by (apply Z.pow_le_mono_r; lia).
      split; [lia|].
      destruct (m2 <? 2 ^ 53); [destruct (Z.leb_spec n 971)|destruct (Z.leb_spec (n + 1) 971)];
        try lia; eauto.
    + (* 1024 bits: the carry decides *)
      assert (HD' : Zpos (digits2_pos m) = 1024) by lia.
      rewrite HD' in Dlo, Dhi. subst n.
      change (971 <=? 971) with true. change (971 + 1 <=? 971) with false.
      set (q := Zpos m / 2 ^ 970).
      assert (Hm1 : m1 = q / 2).
      { rewrite Hm1d. unfold q. rewrite Z.div_div by lia. f_equal. }
      assert (Hbit : Z.testbit (Zpos m) (971 - 1) = Z.odd q).
      { unfold q. rewrite Z.testbit_odd, Z.shiftr_div_pow2 by lia. done. }
      assert (Hq : 2 ^ 970 * q <= Zpos m < 2 ^ 970 * q + 2 ^ 970).
      { unfold q. pose proof (Z.mul_div_le (Zpos m) (2 ^ 970) ltac:(lia)).
        pose proof (Z.mul_succ_div_gt (Zpos m) (2 ^ 970) ltac:(lia)). lia. }
      pose proof (Zmod_odd q) as Hodd.
      pose proof (Z.div_mod q 2 ltac:(lia)) as Hdm.
      pose proof (Z.mod_pos_bound q 2 ltac:(lia)) as Hmb.
      rewrite Hbit in Hdown, Hup. rewrite Hm1 in *.
      destruct (Z.odd q) eqn:Eo.
      * destruct (Z.odd (q / 2)) eqn:Eo2.
        -- rewrite (Hup eq_refl eq_refl) in *.
           destruct (Z.ltb_spec (q / 2 + 1) (2 ^ 53)).
           ++ left. split; [lia|eauto].
           ++ right. split; [lia|done].
        -- pose proof (Zmod_odd (q / 2)) as Hodd2. rewrite Eo2 in Hodd2.
           pose proof (Z.div_mod (q / 2) 2 ltac:(lia)).
           assert (q / 2 + 1 < 2 ^ 53) by lia.
           left. split; [lia|].
           destruct (m2 <? 2 ^ 53) eqn:E2; [eauto|].
           apply Z.ltb_ge in E2. lia.
      * rewrite (Hdown eq_refl) in *.
        destruct (Z.ltb_spec (q / 2) (2 ^ 53)); [|lia].
        left. split; [lia|eauto].
    + (* more than 1024 bits *)
      right.
      assert (2 ^ 1024 <= 2 ^ (Zpos (digits2_pos m) - 1)) by (apply Z.pow_le_mono_r; lia).
      split; [lia|].
      destruct (m2 <? 2 ^ 53); [destruct (Z.leb_spec n 971)|destruct (Z.leb_spec (n + 1) 971)];
        try lia; eauto.
Qed.

(** [float(z)] raises exactly on the ints of absolute value
    [2^1024 - 2^970] and more. *)
Lemma float_of_int_limit z :
  (Z.abs z < 2 ^ 1024 - 2 ^ 970 /\ exists f, float_of_int z = Ok f) \/
  (2 ^ 1024 - 2 ^ 970 <= Z.abs z /\ float_of_int z = Raise OverflowError).
Proof.
  unfold float_of_int, binary_normalize. destruct z as [|m|m].
  - left. split; [done|]. by eexists.
  - destruct (binary_round_limit false m) as [[H (m' & e & ->)]|[H ->]].
    + left. split; [done|]. by eexists.
    + by right.
  - destruct (binary_round_limit true m) as [[H (m' & e & ->)]|[H ->]].
    + left. split; [done|]. by eexists.
    + by right.
Qed.

End FloatFacts.

(* ===================================================================== *)
(** * Pricing, line by line *)
(* ===================================================================== *)

Module PricingFacts.
Import Py Shop PyFacts ShopFacts FloatFacts.

Lemma catalog_get_id k p : dict_get k catalog = Some p -> p_id p = k.
Proof.
  unfold catalog. cbn [dict_get].
  repeat (destruct (String.eqb k _) eqn:?E;
    [apply String.eqb_eq in E; subst; by intros [= <-] | clear E]).
  done.
Qed.

Lemma priced_cons k q r :
  priced ((k, q) :: r) = if dict_mem k catalog then (k, q) :: priced r else priced r.
Proof. done. Qed.

Lemma cart_totals_loop_returns c :
  small (priced c) ->
  forall s acc, exists items s', cart_totals_loop c s acc = Ok (items, s').
Proof.
  induction c as [|[k q] r IH]; intros Hc s acc; cbn [cart_totals_loop].
  - eauto.
  - rewrite priced_cons in Hc. unfold dict_mem in Hc.
    destruct (dict_get k catalog); [|by apply IH].
    apply Forall_cons in Hc as [Hq Hr]. cbn [snd] in Hq.
    destruct (float_of_int_limit q) as [[_ [f ->]]|[Hge _]]; [|unfold float_limit in Hq; lia].
    by apply IH.
Qed.

Lemma cart_totals_loop_small c : forall s acc items s',
  cart_totals_loop c s acc = Ok (items, s') -> small (priced c).
Proof.
  induction c as [|[k q] r IH]; intros s acc items s'; cbn [cart_totals_loop].
  - intros _. constructor.
  - rewrite priced_cons. unfold dict_mem.
    destruct (dict_get k catalog); [|apply IH].
    destruct (float_of_int q) as [f|e] eqn:Hf; [|done].
    intros Hr%IH. constructor; [|done]. cbn [snd].
    destruct (float_of_int_limit q) as [[Hlt _]|[_ Hraise]]; [done|congruence].
Qed.

Lemma small_priced c : small c -> small (priced c).
Proof.
  unfold small, priced. induction 1 as [|kq r Hq _ IH]; cbn [List.filter]; [constructor|].
  destruct (dict_mem kq.1 catalog); [by constructor|done].
Qed.

Lemma cart_totals_loop_raises c : forall s acc e,
  cart_totals_loop c s acc = Raise e ->
  exists k q, (k, q) ∈ c /\ dict_mem k catalog = true /\ float_of_int q = Raise e.
Proof.
  induction c as [|[k q] r IH]; intros s acc e; cbn [cart_totals_loop]; [done|].
  destruct (dict_get k catalog) as [p|] eqn:Hk.
  - destruct (float_of_int q) as [f|e'] eqn:Hf.
    + intros (k' & q' & ? & ?)%IH. exists k', q'. split; [by right|done].
    + intros [= ->]. exists k, q. split; [by left|]. unfold dict_mem. by rewrite Hk.
  - intros (k' & q' & ? & ?)%IH. exists k', q'. split; [by right|done].
Qed.

Lemma cart_totals_loop_entries c : forall s acc items s',
  cart_totals_loop c s acc = Ok (items, s') ->
  exists new, items = (acc ++ new)%list /\ map entry_of new = priced c /\
    Forall (fun li => dict_get (li_id li) catalog = Some (product_of li)) new.
Proof.
  induction c as [|[k q] r IH]; intros s acc items s'; cbn [cart_totals_loop].
  - intros [= <- <-]. exists []. by rewrite app_nil_r.
  - unfold priced. cbn [List.filter fst]. unfold dict_mem.
    destruct (dict_get k catalog) as [p|] eqn:Hk.
    + destruct (float_of_int q) as [f|e]; [|done].
      intros (new & -> & Hnew & HF)%IH. eexists (_ :: new).
      rewrite <- app_assoc. split; [done|].
      pose proof (catalog_get_id _ _ Hk) as Hid. split.
      * cbn [map]. unfold entry_of at 1. cbn [li_id li_qty]. rewrite Hid. rewrite Hnew. reflexivity.
      * constructor; [|done]. cbn [li_id]. rewrite Hid, Hk. destruct p; simpl in Hid; subst; reflexivity.
    + apply IH.
Qed.

Lemma priced_all c :
  Forall (fun kq : string * Z => dict_mem kq.1 catalog = true) c -> priced c = c.
Proof.
  unfold priced. induction 1 as [|[k q] r Hk _ IH]; [done|].
  cbn [List.filter fst]. simpl in Hk. rewrite Hk. by rewrite IH.
Qed.

Lemma cart_inv_priced c : cart_inv c -> priced c = c.
Proof.
  intros [_ HF]. apply priced_all. eapply Forall_impl; [exact HF|]. by intros ? [? _].
Qed.

End PricingFacts.

(* ===================================================================== *)
(** * More about dictionaries *)
(* ===================================================================== *)

Module DictMore.
Import Py PyFacts.

Section DictMoreFacts.
Context {V : Type}.
Implicit Types (d : list (string * V)) (k : string) (v : V).

Lemma dict_set_set k v1 v2 d : dict_set k v2 (dict_set k v1 d) = dict_set k v2 d.
Proof.
  induction d as [|[k' v'] r IH]; cbn [dict_set].
  - by rewrite String.eqb_refl.
  - destruct (String.eqb k k') eqn:E; cbn [dict_set]; rewrite ?String.eqb_refl, ?E; [done|].
    by rewrite IH.
Qed.

Lemma dict_set_same k v d : dict_get k d = Some v -> dict_set k v d = d.
Proof.
  induction d as [|[k' v'] r IH]; cbn [dict_get dict_set]; [done|].
  destruct (String.eqb k k') eqn:E.
  - apply String.eqb_eq in E as ->. by intros [= ->].
  - intros H. by rewrite IH.
Qed.

Lemma dict_del_absent k d : dict_get k d = None -> dict_del k d = d.
Proof.
  induction d as [|[k' v'] r IH]; cbn [dict_get dict_del]; [done|].
  destruct (String.eqb k k'); [done|]. intros H. by rewrite IH.
Qed.

End DictMoreFacts.

End DictMore.

(* ===================================================================== *)
(** * More about the handlers *)
(* ===================================================================== *)

Module ShopMore.
Import Py Shop PyFacts ShopFacts FloatFacts PricingFacts DictMore.

(** ** Sessions *)

Lemma session_id_nonempty rq rnd : get_or_create_session_id rq rnd <> EmptyString.
Proof.
  unfold get_or_create_session_id.
  destruct (x_session_id rq) as [sid|]; [|apply str_uuid_nonempty].
  cbn [truthy]. destruct (String.eqb sid EmptyString) eqn:E; cbn [negb].
  - apply str_uuid_nonempty.
  - by apply String.eqb_neq.
Qed.

Lemma session_id_header sid v rnd :
  sid <> EmptyString ->
  get_or_create_session_id {| x_session_id := Some sid; get_json := v |} rnd = sid.
Proof.
  intros H. unfold get_or_create_session_id. cbn [x_session_id truthy].
  apply String.eqb_neq in H. by rewrite H.
Qed.

Lemma serve_session r rq rnd carts sid :
  r_session (serve r rq rnd carts).1 = Some sid -> sid = get_or_create_session_id rq rnd.
Proof.
  unfold serve. destruct r; cbn [handler];
    unfold health, get_catalog, view_cart, add_to_cart, remove_from_cart, clear_cart,
      checkout, get_cart, setdefault;
    repeat case_match; intros Hs; simplify_eq;
    cbv [fst with_status attach_session_header jsonify handle_exception] in Hs;
    cbn [r_session] in Hs; simplify_eq; done.
Qed.


Lemma serve_keeps r rq rnd (carts : store) s :
  is_Some (carts !! s) -> is_Some ((serve r rq rnd carts).2 !! s).
Proof.
  intros Hs. rewrite serve_store.
  destruct (handler_store r rq rnd carts) as (c' & [->| ->] & _); [done|].
  rewrite lookup_insert. by case_decide.
Qed.

Lemma reachable_serve_all calls : forall carts,
  reachable carts -> reachable (serve_all calls carts).
Proof.
  induction calls as [|[[r rq] rnd] rest IH]; intros carts Hr; cbn [serve_all]; [done|].
  apply IH. by constructor.
Qed.

Lemma serve_all_app calls1 calls2 carts :
  serve_all (calls1 ++ calls2) carts = serve_all calls2 (serve_all calls1 carts).
Proof.
  revert carts. induction calls1 as [|[[r rq] rnd] rest IH]; intros carts; [done|].
  cbn [serve_all app]. apply IH.
Qed.

Lemma reachable_calls carts : reachable carts <-> exists calls, carts = serve_all calls ∅.
Proof.
  split.
  - induction 1 as [|r rq rnd carts _ [calls ->]].
    + by exists [].
    + exists (calls ++ [(r, rq, rnd)])%list. by rewrite serve_all_app.
  - intros [calls ->]. apply reachable_serve_all. constructor.
Qed.

(** X1. The service never drops a session: a session id that has a cart in
    the store still has one after any sequence of requests, whatever their
    routes, bodies and session ids. *)
Theorem sessions_persist calls (carts : store) s :
  is_Some (carts !! s) -> is_Some (serve_all calls carts !! s).
Proof.
  revert carts. induction calls as [|[[r rq] rnd] rest IH]; intros carts Hs; [done|].
  cbn [serve_all]. apply IH. by apply serve_keeps.
Qed.

(** ** Viewing and clearing *)

Lemma view_unfold rq rnd carts :
  let sid := get_or_create_session_id rq rnd in
  serve CartView rq rnd carts =
    (match cart_totals (cart_of carts sid) with
     | Ok (items, subtotal) => reply (Cart_view sid items subtotal) sid 200
     | Raise e => handle_exception e
     end, <[sid := cart_of carts sid]> carts).
Proof.
  intros sid. unfold serve. cbn [handler]. unfold view_cart, get_cart, setdefault. fold sid.
  by destruct (cart_totals _) as [[??]|].
Qed.

(** X2. [GET /cart] registers the session with the cart it already has (the
    empty one for a new session) and changes the contents of no cart; a
    session that is in the store leaves the store as it is. The response is
    the pricing of that cart, or a 500 when pricing raises. *)
Theorem view_cart_reads rq rnd carts :
  let sid := get_or_create_session_id rq rnd in
  let out := serve CartView rq rnd carts in
  out.2 = <[sid := cart_of carts sid]> carts /\
  (forall s, cart_of out.2 s = cart_of carts s) /\
  (is_Some (carts !! sid) -> out.2 = carts) /\
  out.1 = match cart_totals (cart_of carts sid) with
          | Ok (items, subtotal) => reply (Cart_view sid items subtotal) sid 200
          | Raise e => handle_exception e
          end.
Proof.
  intros sid out.
  assert (Hout : out = (match cart_totals (cart_of carts sid) with
                        | Ok (items, subtotal) => reply (Cart_view sid items subtotal) sid 200
                        | Raise e => handle_exception e
                        end, <[sid := cart_of carts sid]> carts)).
  { apply view_unfold. }
  rewrite Hout. cbn [fst snd]. split; [done|]. split; [|split; [|done]].
  - intros s. destruct (decide (sid = s)) as [<-|].
    + by rewrite cart_of_insert_eq.
    + by rewrite cart_of_insert_ne.
  - intros [c Hc]. apply insert_id. unfold cart_of. by rewrite Hc.
Qed.

(** X3. [DELETE /cart] always answers 200 and leaves the session with an
    empty cart; clearing a second time changes nothing more, a checkout
    that follows is refused with the empty-cart error, and a view that
    follows shows no items and a subtotal of 0.0. *)
Theorem clear_idempotent rq1 rnd1 rq2 rnd2 carts :
  get_or_create_session_id rq2 rnd2 = get_or_create_session_id rq1 rnd1 ->
  let sid := get_or_create_session_id rq1 rnd1 in
  let once := serve CartClear rq1 rnd1 carts in
  once = (reply Cleared sid 200, <[sid := []]> carts) /\
  cart_of once.2 sid = [] /\
  serve CartClear rq2 rnd2 once.2 = once /\
  serve Checkout rq2 rnd2 once.2 = (reply (Error empty_cart_msg) sid 400, once.2) /\
  serve CartView rq2 rnd2 once.2 =
    (reply (Cart_view sid [] (S754_zero false)) sid 200, once.2).
Proof.
  intros Hsid sid once.
  assert (Honce : once = (reply Cleared sid 200, <[sid := []]> carts)) by done.
  rewrite Honce. cbn [snd]. split; [done|]. split; [apply cart_of_insert_eq|].
  split; [|split].
  - unfold serve. cbn [handler]. unfold clear_cart. rewrite Hsid. fold sid.
    by rewrite insert_insert_eq.
  - rewrite checkout_unfold. cbv zeta. rewrite Hsid. fold sid.
    by rewrite cart_of_insert_eq.
  - unfold serve. cbn [handler]. unfold view_cart, get_cart, setdefault.
    rewrite Hsid. fold sid. rewrite cart_of_insert_eq, insert_insert_eq. done.
Qed.


(** ** Adding and removing *)

Lemma added_added item q1 q2 c :
  added item q2 (added item q1 c) = added item (q1 + q2) c.
Proof.
  unfold added. rewrite dict_get_set_eq, dict_set_set. cbn [from_option id].
  f_equal. lia.
Qed.

Lemma added_get item q c :
  dict_get item (added item q c) = Some (default 0 (dict_get item c) + q).
Proof. unfold added. apply dict_get_set_eq. Qed.

Lemma added_get_ne item k q c : item <> k -> dict_get k (added item q c) = dict_get k c.
Proof. intros. unfold added. by apply dict_get_set_ne. Qed.

Lemma removed_added item n c :
  cart_inv c -> 0 < n -> removed item n (added item n c) = c.
Proof.
  intros Hc Hn. unfold removed. rewrite added_get. unfold added.
  destruct (dict_get item c) as [old|] eqn:Hold; cbn [from_option id].
  - pose proof (cart_inv_get _ _ _ Hc Hold) as Hge.
    replace (old + n - n) with old by lia.
    destruct (old <=? 0) eqn:E; [apply Z.leb_le in E; lia|].
    rewrite dict_set_set. by apply dict_set_same.
  - replace (0 + n - n) with 0 by lia. cbn [Z.leb Z.compare].
    rewrite dict_del_set. by apply dict_del_absent.
Qed.

(** X4. Two adds of the same item to the same session leave the store that
    one add of the summed quantity leaves: the entry holds the old quantity
    plus both, and every other entry of the cart is as it was. *)
Theorem add_accumulates rq1 rnd1 rq2 rnd2 carts item q1 q2 :
  get_or_create_session_id rq2 rnd2 = get_or_create_session_id rq1 rnd1 ->
  read_item_qty rq1 = Ok (Some item, q1) ->
  read_item_qty rq2 = Ok (Some item, q2) ->
  dict_mem item catalog = true -> 0 < q1 -> 0 < q2 ->
  let sid := get_or_create_session_id rq1 rnd1 in
  let carts2 := (serve CartAdd rq2 rnd2 (serve CartAdd rq1 rnd1 carts).2).2 in
  carts2 = <[sid := added item (q1 + q2) (cart_of carts sid)]> carts /\
  dict_get item (cart_of carts2 sid) =
    Some (default 0 (dict_get item (cart_of carts sid)) + (q1 + q2)) /\
  forall k, k <> item -> dict_get k (cart_of carts2 sid) = dict_get k (cart_of carts sid).
Proof.
  intros Hsid H1 H2 Hi Hq1 Hq2 sid carts2.
  assert (E : carts2 = <[sid := added item (q1 + q2) (cart_of carts sid)]> carts).
  { unfold carts2.
    pose proof (add_store rq1 rnd1 carts item q1 H1 Hi Hq1) as E1. cbv zeta in E1.
    rewrite E1.
    pose proof (add_store rq2 rnd2 (<[sid := added item q1 (cart_of carts sid)]> carts)
                  item q2 H2 Hi Hq2) as E2. cbv zeta in E2.
    fold sid. rewrite E2, Hsid. fold sid.
    by rewrite cart_of_insert_eq, insert_insert_eq, added_added. }
  rewrite E, cart_of_insert_eq. split; [done|]. split.
  - apply added_get.
  - intros k Hk. by apply added_get_ne.
Qed.

(** X5. In every store the service can reach, adding [n] of a catalog item
    to a session and then removing [n] of it gives back the cart the session
    had, entry for entry and in the same order, whether or not the item was
    in the cart before. *)
Theorem add_then_remove carts rq1 rnd1 rq2 rnd2 item n :
  reachable carts ->
  get_or_create_session_id rq2 rnd2 = get_or_create_session_id rq1 rnd1 ->
  read_item_qty rq1 = Ok (Some item, n) ->
  read_item_qty rq2 = Ok (Some item, n) ->
  dict_mem item catalog = true -> 0 < n ->
  let sid := get_or_create_session_id rq1 rnd1 in
  let carts2 := (serve CartRemove rq2 rnd2 (serve CartAdd rq1 rnd1 carts).2).2 in
  cart_of carts2 sid = cart_of carts sid /\
  carts2 = <[sid := cart_of carts sid]> carts.
Proof.
  intros Hr Hsid H1 H2 Hi Hn sid carts2.
  assert (E : carts2 = <[sid := cart_of carts sid]> carts).
  { unfold carts2.
    pose proof (add_store rq1 rnd1 carts item n H1 Hi Hn) as E1. cbv zeta in E1.
    rewrite E1.
    pose proof (remove_store rq2 rnd2 (<[sid := added item n (cart_of carts sid)]> carts)
                  item n H2 Hi Hn) as E2. cbv zeta in E2.
    fold sid. rewrite E2, Hsid. fold sid.
    rewrite cart_of_insert_eq, insert_insert_eq, removed_added; [done| |done].
    apply cart_of_inv. by apply reachable_inv. }
  rewrite E. split; [apply cart_of_insert_eq | done].
Qed.


(** ** Refusals and failures *)

Ltac handlers :=
  unfold health, get_catalog, view_cart, add_to_cart, remove_from_cart, clear_cart,
    checkout, get_cart, setdefault.

(** X6. A request answered 400 changes the contents of no cart (a refused
    remove may register the session with the cart it had); its body is one of
    the four error messages, and it carries the session header. *)
Theorem rejected_leaves_carts r rq rnd carts :
  r_status (serve r rq rnd carts).1 = 400 ->
  (forall s, cart_of (serve r rq rnd carts).2 s = cart_of carts s) /\
  r_session (serve r rq rnd carts).1 = Some (get_or_create_session_id rq rnd) /\
  exists msg, r_body (serve r rq rnd carts).1 = Error msg /\
    msg ∈ [invalid_item_msg; invalid_qty_msg; not_in_cart_msg; empty_cart_msg].
Proof.
  set (sid := get_or_create_session_id rq rnd).
  assert (Hsame : forall s, cart_of (<[sid := cart_of carts sid]> carts) s = cart_of carts s).
  { intros s. destruct (decide (sid = s)) as [<-|].
    - by rewrite cart_of_insert_eq.
    - by rewrite cart_of_insert_ne. }
  unfold serve. destruct r; cbn [handler]; handlers; fold sid;
    repeat case_match; simplify_eq; cbn; intros Hst; try discriminate Hst;
    (split; [done|split; [done|]]); eexists; (split; [done|]); set_solver.
Qed.


Lemma cart_totals_raise c e :
  cart_totals c = Raise e ->
  e = OverflowError /\
  exists k q, (k, q) ∈ c /\ dict_mem k catalog = true /\
              float_of_int q = Raise OverflowError.
Proof.
  intros (k & q & Hin & Hk & Hf)%cart_totals_loop_raises.
  pose proof (float_of_int_raise _ _ Hf) as ->. split; [done|]. by exists k, q.
Qed.


(** X8. An add or remove without a JSON body, or with one that is falsy
    ([null], [false], [0], an empty text, list or object), is refused with
    400 and the invalid-item error, whatever the store holds; nothing is
    written. *)
Theorem empty_body_invalid_item r rq rnd carts :
  r = CartAdd \/ r = CartRemove ->
  truthy (get_json rq) = false ->
  serve r rq rnd carts =
    (reply (Error invalid_item_msg) (get_or_create_session_id rq rnd) 400, carts).
Proof.
  intros Hr Hb.
  assert (Hread : read_item_qty rq = Ok (Some EmptyString, 1)).
  { unfold read_item_qty, payload_of. by rewrite Hb. }
  destruct Hr as [-> | ->]; unfold serve; cbn [handler]; handlers; by rewrite Hread.
Qed.

(** X9. An add or remove whose JSON body is truthy but not an object (a
    number, a text, a list, [true]) is answered 500: [payload.get] raises
    [AttributeError]. The store is left as it was. *)
Theorem non_object_body r rq rnd carts :
  r = CartAdd \/ r = CartRemove ->
  truthy (get_json rq) = true ->
  (forall d, get_json rq <> JDict d) ->
  serve r rq rnd carts = (handle_exception AttributeError, carts).
Proof.
  intros Hr Hb Hd.
  assert (Hread : read_item_qty rq = Raise AttributeError).
  { unfold read_item_qty, payload_of. rewrite Hb.
    destruct (get_json rq); try done. by destruct (Hd d). }
  destruct Hr as [-> | ->]; unfold serve; cbn [handler]; handlers; by rewrite Hread.
Qed.

(** X10. An add whose body names a catalog item and has no [qty] adds one
    unit of it. *)
Theorem default_quantity rq rnd carts d item :
  get_json rq = JDict d ->
  dict_get "item_id" d = Some (JStr item) ->
  dict_get "qty" d = None ->
  dict_mem item catalog = true ->
  let sid := get_or_create_session_id rq rnd in
  (serve CartAdd rq rnd carts).2 = <[sid := added item 1 (cart_of carts sid)]> carts /\
  dict_get item (cart_of (serve CartAdd rq rnd carts).2 sid) =
    Some (default 0 (dict_get item (cart_of carts sid)) + 1).
Proof.
  intros Hj Hi Hq Hk sid.
  assert (Hread : read_item_qty rq = Ok (Some item, 1)).
  { unfold read_item_qty, payload_of. rewrite Hj.
    assert (truthy (JDict d) = true) as -> by (by destruct d).
    cbn [payload_get bind]. rewrite Hi, Hq. cbn [from_option id py_str option_map py_int bind].
    by destruct (catalog_key_text item Hk) as [-> _]. }
  pose proof (add_store rq rnd carts item 1 Hread Hk ltac:(lia)) as E. cbv zeta in E.
  fold sid in E. rewrite E. split; [done|].
  rewrite cart_of_insert_eq. apply added_get.
Qed.

(** X11. The session id a response carries is the effective id of its
    request, it is never empty, and a later request that sends it back in
    its [X-Session-Id] header is served under that same id, whatever uuid
    the service would have drawn. *)
Theorem session_replay r rq rnd carts sid :
  r_session (serve r rq rnd carts).1 = Some sid ->
  sid = get_or_create_session_id rq rnd /\
  sid <> EmptyString /\
  forall v rnd',
    get_or_create_session_id {| x_session_id := Some sid; get_json := v |} rnd' = sid.
Proof.
  intros ->%serve_session. split; [done|].
  pose proof (session_id_nonempty rq rnd) as Hne. split; [done|].
  intros v rnd'. by apply session_id_header.
Qed.


(** ** Pricing *)

Lemma cart_totals_small c :
  small (priced c) ->
  exists items subtotal,
    cart_totals c = Ok (items, subtotal) /\ map entry_of items = priced c.
Proof.
  intros Hc.
  destruct (cart_totals_loop_returns c Hc (S754_zero false) []) as (items & sub & Ht).
  exists items, sub. split; [done|].
  destruct (cart_totals_loop_entries _ _ _ _ _ Ht) as (new & -> & Hnew & _). done.
Qed.

(** X12. [cart_totals] returns exactly on the carts whose quantities under
    catalog keys are below [2^1024 - 2^970] in absolute value. It then lists
    those entries in cart order with the quantities of the cart, each line
    total the rounded product of unit price and quantity and the subtotal
    the sum of the line totals, rounded after every line. On every other
    cart it raises [OverflowError]: [float] rejects a quantity. *)
Theorem pricing_total c :
  (small (priced c) /\
   exists items subtotal,
     cart_totals c = Ok (items, subtotal) /\
     map entry_of items = priced c /\
     Forall line_ok items /\
     subtotal = running_subtotal items (S754_zero false)) \/
  (~ small (priced c) /\
   cart_totals c = Raise OverflowError /\
   exists k q, (k, q) ∈ c /\ dict_mem k catalog = true /\ float_limit <= Z.abs q).
Proof.
  destruct (cart_totals c) as [[items sub]|e] eqn:Ht.
  - left. pose proof (cart_totals_loop_small _ _ _ _ _ Ht) as Hs. split; [done|].
    exists items, sub. split; [done|].
    destruct (cart_totals_small c Hs) as (items' & sub' & Ht' & He).
    rewrite Ht in Ht'. injection Ht' as <- <-.
    destruct (cart_totals_lines _ _ _ Ht) as [Hl Hsub]. done.
  - right. destruct (cart_totals_raise _ _ Ht) as [-> (k & q & Hin & Hk & Hf)].
    assert (Hq : float_limit <= Z.abs q).
    { destruct (float_of_int_limit q) as [[_ [f Hf']]|[Hge _]]; [congruence|done]. }
    split; [|split; [done|by exists k, q]].
    intros Hs. unfold small in Hs. rewrite Forall_forall in Hs.
    assert (Hp : (k, q) ∈ priced c).
    { unfold priced. apply list_elem_of_In, List.filter_In. split; [by apply list_elem_of_In|done]. }
    specialize (Hs _ Hp). cbn [snd] in Hs. lia.
Qed.

(** X13. Where [cart_totals] returns, it skips the entries whose key is not
    in the catalog and lists the others once each, in cart order; every line
    carries the id, name and unit price of the catalog product under that
    key and the quantity of the cart. *)
Theorem pricing_lines c items subtotal :
  cart_totals c = Ok (items, subtotal) ->
  map entry_of items = priced c /\
  Forall (fun li => dict_get (li_id li) catalog = Some (product_of li)) items /\
  (length items <= length c)%nat.
Proof.
  intros (new & -> & Hnew & HF)%cart_totals_loop_entries. cbn [app].
  split; [done|]. split; [done|].
  rewrite <- (length_map entry_of), Hnew. unfold priced. apply List.filter_length_le.
Qed.

(** X14. In a store the service can reach, a checkout of a session whose
    quantities are below [2^1024 - 2^970] never fails: an empty cart is refused
    with 400 and left alone, a cart with entries yields an order that lists
    every entry of the cart with its quantity, and the cart is emptied. *)
Theorem checkout_bounded carts rq rnd :
  reachable carts ->
  let sid := get_or_create_session_id rq rnd in
  small (cart_of carts sid) ->
  (cart_of carts sid = [] /\
   serve Checkout rq rnd carts = (reply (Error empty_cart_msg) sid 400, carts)) \/
  (cart_of carts sid <> [] /\
   exists items total,
     serve Checkout rq rnd carts =
       (reply (Order (str_uuid (uuid4 (order_bytes rnd))) total items) sid 200,
        <[sid := []]> carts) /\
     map entry_of items = cart_of carts sid /\
     cart_totals (cart_of carts sid) = Ok (items, total)).
Proof.
  intros Hr sid Hsmall.
  destruct (cart_totals_small _ (small_priced _ Hsmall)) as (items & total & Ht & He).
  rewrite cart_inv_priced in He by (apply cart_of_inv; by apply reachable_inv).
  rewrite checkout_unfold. cbv zeta. fold sid. rewrite Ht.
  destruct (cart_of carts sid) as [|kq rest] eqn:Hc.
  - left. destruct items; [done|discriminate He].
  - right. split; [done|]. exists items, total.
    destruct items; [discriminate He|done].
Qed.

Lemma reported_totals r rq rnd carts items subtotal :
  r_body (serve r rq rnd carts).1 = Added items subtotal \/
  r_body (serve r rq rnd carts).1 = Removed items subtotal ->
  exists c, (serve r rq rnd carts).2 = <[get_or_create_session_id rq rnd := c]> carts /\
            cart_totals c = Ok (items, subtotal).
Proof.
  set (sid := get_or_create_session_id rq rnd).
  unfold serve. destruct r; cbn [handler]; handlers; fold sid.
  - cbn. by intros [|].
  - cbn. by intros [|].
  - destruct (cart_totals _) as [[its sub]|e]; cbn; by intros [|].
  - destruct (read_item_qty rq) as [[item qty]|e]; [|cbn; by intros [|]].
    destruct (bad_item item); [cbn; by intros [|]|].
    destruct (qty <=? 0); [cbn; by intros [|]|]. cbn [from_option id].
    rewrite insert_insert_eq.
    destruct (cart_totals _) as [[its sub]|e] eqn:Ht; [|cbn; by intros [|]].
    cbn [fst snd]. intros [Hb|Hb]; cbn in Hb; simplify_eq. eauto.
  - destruct (read_item_qty rq) as [[item qty]|e]; [|cbn; by intros [|]].
    destruct (bad_item item); [cbn; by intros [|]|].
    destruct (qty <=? 0); [cbn; by intros [|]|]. cbn [from_option id].
    destruct (dict_get _ (cart_of carts sid)) as [old|]; [|cbn; by intros [|]].
    rewrite insert_insert_eq.
    destruct (cart_totals _) as [[its sub]|e] eqn:Ht; [|cbn; by intros [|]].
    cbn [fst snd]. intros [Hb|Hb]; cbn in Hb; simplify_eq. eauto.
  - cbn. by intros [|].
  - destruct (cart_totals _) as [[[|li its] sub]|e]; cbn; by intros [|].
Qed.

(** X15. The totals an add or remove reports are those of the cart it
    stored: a view of the same session that follows reports the same items
    and the same subtotal, and changes nothing. *)
Theorem totals_agree r rq rnd carts rq' rnd' items subtotal :
  get_or_create_session_id rq' rnd' = get_or_create_session_id rq rnd ->
  r_body (serve r rq rnd carts).1 = Added items subtotal \/
  r_body (serve r rq rnd carts).1 = Removed items subtotal ->
  serve CartView rq' rnd' (serve r rq rnd carts).2 =
    (reply (Cart_view (get_or_create_session_id rq rnd) items subtotal)
       (get_or_create_session_id rq rnd) 200,
     (serve r rq rnd carts).2).
Proof.
  intros Hsid (c & -> & Ht)%reported_totals.
  unfold serve. cbn [handler]. handlers. rewrite Hsid.
  by rewrite cart_of_insert_eq, insert_insert_eq, Ht.
Qed.

(** ** Instances *)

Lemma two_keyboards_cart : cart_of two_keyboards "s" = [("1", 2)].
Proof. vm_compute. reflexivity. Qed.

Lemma sessions_persist_witness :
  is_Some (serve_all [(CartClear, session "t" JNull, no_entropy);
                      (Checkout, session "u" JNull, no_entropy)] two_keyboards !! "s").
Proof.
  apply (sessions_persist [(CartClear, session "t" JNull, no_entropy);
                           (Checkout, session "u" JNull, no_entropy)] two_keyboards "s").
  vm_compute. eexists. reflexivity.
Defined.

Lemma clear_idempotent_witness :
  let sid := get_or_create_session_id (session "s" JNull) no_entropy in
  let once := serve CartClear (session "s" JNull) no_entropy two_keyboards in
  once = (reply Cleared sid 200, <[sid := []]> two_keyboards) /\
  cart_of once.2 sid = [] /\
  serve CartClear three_keyboards no_entropy once.2 = once /\
  serve Checkout three_keyboards no_entropy once.2 =
    (reply (Error empty_cart_msg) sid 400, once.2) /\
  serve CartView three_keyboards no_entropy once.2 =
    (reply (Cart_view sid [] (S754_zero false)) sid 200, once.2).
Proof.
  apply (clear_idempotent (session "s" JNull) no_entropy three_keyboards no_entropy
           two_keyboards).
  reflexivity.
Defined.

Lemma add_accumulates_witness :
  let rq2 := session "s" (item_qty "1" (JInt 4)) in
  let sid := get_or_create_session_id three_keyboards no_entropy in
  let carts2 :=
    (serve CartAdd rq2 no_entropy (serve CartAdd three_keyboards no_entropy two_keyboards).2).2 in
  carts2 = <[sid := added "1" (3 + 4) (cart_of two_keyboards sid)]> two_keyboards /\
  dict_get "1" (cart_of carts2 sid) =
    Some (default 0 (dict_get "1" (cart_of two_keyboards sid)) + (3 + 4)) /\
  forall k, k <> "1" -> dict_get k (cart_of carts2 sid) = dict_get k (cart_of two_keyboards sid).
Proof.
  apply (add_accumulates three_keyboards no_entropy (session "s" (item_qty "1" (JInt 4)))
           no_entropy two_keyboards "1" 3 4).
  - reflexivity.
  - reflexivity.
  - reflexivity.
  - reflexivity.
  - lia.
  - lia.
Defined.

Lemma add_then_remove_witness :
  let sid := get_or_create_session_id three_keyboards no_entropy in
  let carts2 :=
    (serve CartRemove three_keyboards no_entropy
       (serve CartAdd three_keyboards no_entropy two_keyboards).2).2 in
  cart_of carts2 sid = cart_of two_keyboards sid /\
  carts2 = <[sid := cart_of two_keyboards sid]> two_keyboards.
Proof.
  apply (add_then_remove two_keyboards three_keyboards no_entropy three_keyboards
           no_entropy "1" 3).
  - apply two_keyboards_reachable.
  - reflexivity.
  - reflexivity.
  - reflexivity.
  - reflexivity.
  - lia.
Defined.

Lemma rejected_leaves_carts_witness :
  let rq := session "s" (item_qty "3" (JInt 1)) in
  (forall s, cart_of (serve CartRemove rq no_entropy two_keyboards).2 s =
             cart_of two_keyboards s) /\
  r_session (serve CartRemove rq no_entropy two_keyboards).1 =
    Some (get_or_create_session_id rq no_entropy) /\
  exists msg, r_body (serve CartRemove rq no_entropy two_keyboards).1 = Error msg /\
    msg ∈ [invalid_item_msg; invalid_qty_msg; not_in_cart_msg; empty_cart_msg].
Proof.
  apply (rejected_leaves_carts CartRemove (session "s" (item_qty "3" (JInt 1))) no_entropy
           two_keyboards).
  vm_compute. reflexivity.
Defined.


Lemma empty_body_invalid_item_witness :
  serve CartAdd (session "s" (JList [])) no_entropy two_keyboards =
    (reply (Error invalid_item_msg)
       (get_or_create_session_id (session "s" (JList [])) no_entropy) 400,
     two_keyboards).
Proof.
  apply (empty_body_invalid_item CartAdd (session "s" (JList [])) no_entropy two_keyboards).
  - left. reflexivity.
  - reflexivity.
Defined.

Lemma non_object_body_witness :
  serve CartRemove (session "s" (JList [JInt 1])) no_entropy two_keyboards =
    (handle_exception AttributeError, two_keyboards).
Proof.
  apply (non_object_body CartRemove (session "s" (JList [JInt 1])) no_entropy two_keyboards).
  - right. reflexivity.
  - reflexivity.
  - intros d. discriminate.
Defined.

Lemma default_quantity_witness :
  let rq := session "s" (JDict [("item_id", JStr "2")]) in
  let sid := get_or_create_session_id rq no_entropy in
  (serve CartAdd rq no_entropy two_keyboards).2 =
    <[sid := added "2" 1 (cart_of two_keyboards sid)]> two_keyboards /\
  dict_get "2" (cart_of (serve CartAdd rq no_entropy two_keyboards).2 sid) =
    Some (default 0 (dict_get "2" (cart_of two_keyboards sid)) + 1).
Proof.
  apply (default_quantity (session "s" (JDict [("item_id", JStr "2")])) no_entropy
           two_keyboards [("item_id", JStr "2")] "2").
  - reflexivity.
  - reflexivity.
  - reflexivity.
  - reflexivity.
Defined.

Lemma session_replay_witness :
  let rq := {| x_session_id := None; get_json := JNull |} in
  let sid := str_uuid (uuid4 7) in
  sid = get_or_create_session_id rq {| session_bytes := 7; order_bytes := 0 |} /\
  sid <> EmptyString /\
  forall v rnd',
    get_or_create_session_id {| x_session_id := Some sid; get_json := v |} rnd' = sid.
Proof.
  apply (session_replay Catalog {| x_session_id := None; get_json := JNull |}
           {| session_bytes := 7; order_bytes := 0 |} ∅ (str_uuid (uuid4 7))).
  reflexivity.
Defined.

Lemma pricing_lines_witness :
  let items := (totals_or_nothing stray_cart).1 in
  map entry_of items = priced stray_cart /\
  Forall (fun li => dict_get (li_id li) catalog = Some (product_of li)) items /\
  (length items <= length stray_cart)%nat.
Proof.
  apply (pricing_lines stray_cart (totals_or_nothing stray_cart).1
           (totals_or_nothing stray_cart).2).
  vm_compute. reflexivity.
Defined.

Lemma checkout_bounded_witness :
  let rq := session "s" JNull in
  let sid := get_or_create_session_id rq no_entropy in
  (cart_of two_keyboards sid = [] /\
   serve Checkout rq no_entropy two_keyboards =
     (reply (Error empty_cart_msg) sid 400, two_keyboards)) \/
  (cart_of two_keyboards sid <> [] /\
   exists items total,
     serve Checkout rq no_entropy two_keyboards =
       (reply (Order (str_uuid (uuid4 (order_bytes no_entropy))) total items) sid 200,
        <[sid := []]> two_keyboards) /\
     map entry_of items = cart_of two_keyboards sid /\
     cart_totals (cart_of two_keyboards sid) = Ok (items, total)).
Proof.
  intros rq sid.
  apply (checkout_bounded two_keyboards (session "s" JNull) no_entropy).
  - apply two_keyboards_reachable.
  - replace (cart_of two_keyboards (get_or_create_session_id (session "s" JNull) no_entropy))
      with [("1", 2)] by (vm_compute; reflexivity).
    repeat (constructor; [by vm_compute|]). constructor.
Defined.

Lemma totals_agree_witness :
  let items := (totals_or_nothing [("1", 3)]).1 in
  let subtotal := (totals_or_nothing [("1", 3)]).2 in
  serve CartView (session "s" JNull) no_entropy
    (serve CartAdd three_keyboards no_entropy ∅).2 =
    (reply (Cart_view (get_or_create_session_id three_keyboards no_entropy) items subtotal)
       (get_or_create_session_id three_keyboards no_entropy) 200,
     (serve CartAdd three_keyboards no_entropy ∅).2).
Proof.
  apply (totals_agree CartAdd three_keyboards no_entropy ∅ (session "s" JNull) no_entropy
           (totals_or_nothing [("1", 3)]).1 (totals_or_nothing [("1", 3)]).2).
  - reflexivity.
  - left. vm_compute. reflexivity.
Defined.

End ShopMore.

(* ===================================================================== *)
(** * The load generator against the service *)
(* ===================================================================== *)

Module LoadgenFacts.
Import Py Shop Loadgen PyFacts ShopFacts FloatFacts PricingFacts DictMore ShopMore.

(** ** Calls *)

Lemma call_answered w r rq carts :
  wire_link w = Answered ->
  call w r rq carts =
    (Some (serve r rq (wire_entropy w) carts).1, (serve r rq (wire_entropy w) carts).2).
Proof. intros H. unfold call. rewrite H. by destruct (serve _ _ _ _). Qed.

Lemma call_store w r rq carts :
  (call w r rq carts).2 = carts \/
  (call w r rq carts).2 = (serve r rq (wire_entropy w) carts).2.
Proof.
  unfold call. destruct (wire_link w); [right|left|right]; try done.
  by destruct (serve _ _ _ _).
Qed.

Lemma serve_other r rq rnd (carts : store) B :
  B <> get_or_create_session_id rq rnd -> (serve r rq rnd carts).2 !! B = carts !! B.
Proof.
  intros HB. rewrite serve_store.
  destruct (handler_store r rq rnd carts) as (c' & [->| ->] & _); [done|].
  by rewrite lookup_insert_ne.
Qed.

Lemma add_request_id sid item rnd :
  sid <> EmptyString -> get_or_create_session_id (add_request sid item) rnd = sid.
Proof. apply session_id_header. Qed.

Lemma bare_request_id sid rnd :
  sid <> EmptyString -> get_or_create_session_id (bare_request sid) rnd = sid.
Proof. apply session_id_header. Qed.

(** ** The items the script picks *)

Lemma choice_catalog draw :
  exists item, choice draw CATALOG_ITEM_IDS = Some item /\ dict_mem item catalog = true.
Proof.
  unfold choice, CATALOG_ITEM_IDS. cbn [length].
  pose proof (Nat.mod_upper_bound draw 5 ltac:(lia)) as Hlt.
  destruct (draw mod 5)%nat as [|[|[|[|[|n]]]]]; [by eexists..|lia].
Qed.

Lemma add_request_read sid item :
  dict_mem item catalog = true -> read_item_qty (add_request sid item) = Ok (Some item, 1).
Proof.
  intros Hk. unfold read_item_qty, payload_of, add_request. cbn.
  by destruct (catalog_key_text item Hk) as [-> _].
Qed.

Lemma randint_range a b draw : a <= b -> a <= randint a b draw <= b.
Proof.
  intros Hab. unfold randint.
  pose proof (Z.mod_pos_bound draw (b - a + 1) ltac:(lia)). lia.
Qed.


Lemma truthy_text s : s <> EmptyString -> truthy (JStr s) = true.
Proof. intros H. cbn [truthy]. apply String.eqb_neq in H. by rewrite H. Qed.

Lemma range_length a b : length (range a b) = Z.to_nat (b - a).
Proof. unfold range. by rewrite length_map, length_seq. Qed.

(** X16. The item ids the load generator draws from are exactly the keys of
    the catalog of the service, in the same order, so every item [do_add]
    picks is a catalog item and the body it posts is read as one unit of
    that item. *)
Theorem picks_are_catalog_keys :
  CATALOG_ITEM_IDS = catalog.*1 /\
  forall draw sid,
    exists item, choice draw CATALOG_ITEM_IDS = Some item /\
      dict_mem item catalog = true /\
      read_item_qty (add_request sid item) = Ok (Some item, 1).
Proof.
  split; [done|]. intros draw sid.
  destruct (choice_catalog draw) as (item & Hc & Hk). exists item.
  split; [done|]. split; [done|]. by apply add_request_read.
Qed.

(** X17. [main] exits with code 2 exactly when the health check is not
    skipped and [/healthz] gives no answer; otherwise it starts
    [max(1, users)] workers, numbered from 1, at least one whatever [users]
    is, each with a checkout rate clamped into 0..100 (the given rate when
    that lies in 0..100). *)
Theorem main_bounds a w carts :
  (main a w carts = Exit 2 /\ skip_health_check a = false /\ wire_link w <> Answered) \/
  (exists workers,
     main a w carts = Started workers /\
     (skip_health_check a = true \/ wire_link w = Answered) /\
     workers.*1 = range 1 (Z.max 1 (users a) + 1) /\
     length workers = Z.to_nat (Z.max 1 (users a)) /\
     (1 <= length workers)%nat /\
     Forall (fun wr : Z * Z =>
               0 <= wr.2 <= 100 /\
               (0 <= checkout_rate a <= 100 -> wr.2 = checkout_rate a)) workers).
Proof.
  unfold main. cbn [enforce_bounds skip_health_check users checkout_rate].
  set (workers := map _ (range 1 (Z.max 1 (users a) + 1))).
  assert (Hw : workers.*1 = range 1 (Z.max 1 (users a) + 1) /\
               length workers = Z.to_nat (Z.max 1 (users a)) /\
               (1 <= length workers)%nat /\
               Forall (fun wr : Z * Z =>
                 0 <= wr.2 <= 100 /\
                 (0 <= checkout_rate a <= 100 -> wr.2 = checkout_rate a)) workers).
  { unfold workers. split; [|split; [|split]].
    - rewrite <- list_fmap_compose. apply list_fmap_id.
    - rewrite length_map, range_length. f_equal. lia.
    - rewrite length_map, range_length. lia.
    - apply Forall_fmap, Forall_forall. intros x _. cbn. lia. }
  assert (Hh : (health_check w carts).1 = true <-> wire_link w = Answered).
  { unfold health_check, call. destruct (wire_link w); cbn; split; done. }
  destruct (skip_health_check a); cbn [negb andb].
  - right. exists workers. split; [done|]. split; [by left|]. done.
  - destruct (health_check w carts).1 eqn:E; cbn [negb].
    + right. exists workers. split; [done|]. split; [right; by apply Hh|]. done.
    + left. split; [done|]. split; [done|]. intros H%Hh. congruence.
Qed.

(** X18. With the rate [main] hands to its workers, a worker attempts a
    checkout in a turn exactly when the number it draws in 1..100 is at most
    the rate: never when the rate given on the command line is 0 or less,
    always when it is 100 or more. *)
Theorem checkout_rate_extremes a sid t carts :
  let rate := checkout_rate (enforce_bounds a) in
  let attempted := (worker_turn sid rate t carts).1.2 in
  (is_Some attempted <-> randint 1 100 (t_roll t) <= rate) /\
  (checkout_rate a <= 0 -> attempted = None) /\
  (100 <= checkout_rate a -> is_Some attempted).
Proof.
  intros rate attempted.
  pose proof (randint_range 1 100 (t_roll t) ltac:(lia)) as Hroll.
  assert (Hrate : rate = Z.min 100 (Z.max 0 (checkout_rate a))) by done.
  assert (Ha : attempted = None /\ rate < randint 1 100 (t_roll t) \/
               is_Some attempted /\ randint 1 100 (t_roll t) <= rate).
  { unfold attempted, worker_turn.
    destruct (do_add _ _ _ _) as [[ok_add item] carts1].
    destruct (do_view_cart _ _ _) as [ok_view carts2].
    destruct (randint 1 100 (t_roll t) <=? rate) eqn:E.
    - right. destruct (do_checkout _ _ _) as [ok_checkout carts3]. cbn.
      split; [by eexists|]. by apply Z.leb_le.
    - left. cbn. split; [done|]. by apply Z.leb_gt. }
  split; [|split].
  - destruct Ha as [[Hn ?]|[? ?]]; split; try done.
    + rewrite Hn. intros H'. by apply is_Some_None in H'.
    + lia.
  - intros Hle. destruct Ha as [[? ?]|[_ ?]]; [done|lia].
  - intros Hge. destruct Ha as [[_ ?]|[? _]]; [lia|done].
Qed.

Lemma ensure_session_store w fallback_bytes carts :
  (ensure_session w fallback_bytes carts).2 = carts.
Proof. unfold ensure_session, call. by destruct (wire_link w). Qed.

Lemma ensure_session_id w fallback_bytes carts :
  (ensure_session w fallback_bytes carts).1 =
    match wire_link w with
    | Answered => str_uuid (uuid4 (session_bytes (wire_entropy w)))
    | _ => str_uuid (uuid4 fallback_bytes)
    end.
Proof.
  unfold ensure_session, call. destruct (wire_link w); [|done..].
  cbn [serve handler get_catalog get_or_create_session_id probe_request x_session_id
       fst snd r_session with_status attach_session_header jsonify
       get_session_id_from_headers].
  rewrite !truthy_text by apply str_uuid_nonempty. done.
Qed.

Lemma ensure_session_nonempty w fallback_bytes carts :
  (ensure_session w fallback_bytes carts).1 <> EmptyString.
Proof. rewrite ensure_session_id. destruct (wire_link w); apply str_uuid_nonempty. Qed.

(** X19. Whatever happens to its [/catalog] call, [ensure_session] yields a
    session id that is not empty, so the service serves every later request
    carrying it under exactly that id; it is the id the service minted when
    the call was answered and the locally drawn uuid otherwise. The call
    itself leaves the store of the service as it was. *)
Theorem ensure_session_usable w fallback_bytes carts :
  let sid := (ensure_session w fallback_bytes carts).1 in
  sid <> EmptyString /\
  (forall v rnd,
     get_or_create_session_id {| x_session_id := Some sid; get_json := v |} rnd = sid) /\
  (ensure_session w fallback_bytes carts).2 = carts /\
  sid = match wire_link w with
        | Answered => str_uuid (uuid4 (session_bytes (wire_entropy w)))
        | _ => str_uuid (uuid4 fallback_bytes)
        end.
Proof.
  intros sid. split; [apply ensure_session_nonempty|]. split; [|split].
  - intros v rnd. apply session_id_header, ensure_session_nonempty.
  - apply ensure_session_store.
  - apply ensure_session_id.
Qed.


(** ** A turn of the worker *)

Lemma add_ok rq rnd carts item q items subtotal :
  let sid := get_or_create_session_id rq rnd in
  read_item_qty rq = Ok (Some item, q) ->
  dict_mem item catalog = true -> 0 < q ->
  cart_totals (added item q (cart_of carts sid)) = Ok (items, subtotal) ->
  serve CartAdd rq rnd carts =
    (reply (Added items subtotal) sid 200, <[sid := added item q (cart_of carts sid)]> carts).
Proof.
  intros sid Hread Hk Hq Ht. unfold serve. cbn [handler]. unfold add_to_cart. fold sid.
  rewrite Hread. assert (bad_item (Some item) = false) as -> by (apply bad_item_false; eauto).
  apply Z.leb_gt in Hq. rewrite Hq. cbn [from_option id setdefault].
  unfold added in Ht. rewrite Ht. by rewrite insert_insert_eq.
Qed.

Lemma added_nonempty item q c : added item q c <> [].
Proof. unfold added. destruct c as [|[k v] r]; cbn [dict_set]; [done|]. by destruct (String.eqb _ _). Qed.

Lemma added_inv item c :
  cart_inv c -> dict_mem item catalog = true -> cart_inv (added item 1 c).
Proof.
  intros Hc Hk. unfold added. apply cart_inv_set; [done..|].
  destruct (dict_get item c) as [old|] eqn:Hold; cbn [from_option id]; [|lia].
  pose proof (cart_inv_get _ _ _ Hc Hold). lia.
Qed.

Lemma added_Forall (P : Z -> Prop) item c :
  Forall (fun kq : string * Z => P kq.2) c ->
  (forall old, dict_get item c = Some old -> P (old + 1)) ->
  (dict_get item c = None -> P 1) ->
  Forall (fun kq : string * Z => P kq.2) (added item 1 c).
Proof.
  intros Hc Hs Hn. unfold added. apply dict_set_Forall; [done|]. cbn [snd].
  destruct (dict_get item c) as [old|]; cbn [from_option id]; auto.
Qed.

Lemma added_small item c : cart_inv c -> roomy c -> small (added item 1 c).
Proof.
  intros Hc Hr. unfold small.
  apply (added_Forall (fun q => Z.abs q < float_limit)).
  - destruct Hc as [_ HF]. unfold roomy in Hr.
    rewrite Forall_forall in HF, Hr. apply Forall_forall. intros kq Hin.
    destruct (HF _ Hin) as [_ H1]. specialize (Hr _ Hin). cbn in *. lia.
  - intros old Hold. pose proof (cart_inv_get _ _ _ Hc Hold).
    unfold roomy in Hr. rewrite Forall_forall in Hr.
    specialize (Hr _ (dict_get_Some_elem _ _ _ Hold)). cbn in Hr. lia.
  - intros _. unfold float_limit. lia.
Qed.

(** X20. A turn of the worker against a service that answers, in a store
    the service can reach and with room for one more unit in the cart of
    the worker: the add and the view succeed, and the cart then holds one
    more unit of the drawn item; a checkout, when the turn attempts one,
    succeeds too (the cart is never empty after the add) and empties the
    cart. No other session is touched. *)
Theorem turn_on_live_service sid rate t carts :
  sid <> EmptyString -> reachable carts -> roomy (cart_of carts sid) -> answered t ->
  exists item,
    choice (t_item t) CATALOG_ITEM_IDS = Some item /\
    dict_mem item catalog = true /\
    worker_turn sid rate t carts =
      if randint 1 100 (t_roll t) <=? rate
      then ((true, true, Some true), <[sid := []]> carts)
      else ((true, true, None), <[sid := added item 1 (cart_of carts sid)]> carts).
Proof.
  intros Hsid Hr Hroom (Ha & Hv & Hc).
  destruct (choice_catalog (t_item t)) as (item & Hitem & Hk). exists item.
  split; [done|]. split; [done|].
  set (c1 := added item 1 (cart_of carts sid)).
  assert (Hinv : cart_inv (cart_of carts sid)) by (apply cart_of_inv; by apply reachable_inv).
  assert (Hinv1 : cart_inv c1) by (by apply added_inv).
  destruct (cart_totals_small c1) as (items & sub & Ht & He);
    [by apply small_priced, added_small|].
  rewrite cart_inv_priced in He by done.
  assert (Hitems : items <> []).
  { intros ->. symmetry in He. by apply added_nonempty in He. }
  assert (Hadd : serve CartAdd (add_request sid item) (wire_entropy (t_add t)) carts =
                 (reply (Added items sub) sid 200, <[sid := c1]> carts)).
  { pose proof (add_ok (add_request sid item) (wire_entropy (t_add t)) carts item 1
                  items sub) as H.
    cbv zeta in H. rewrite add_request_id in H by done.
    apply H; [by apply add_request_read | done | lia | done]. }
  assert (Hview : serve CartView (bare_request sid) (wire_entropy (t_view t))
                    (<[sid := c1]> carts) =
                  (reply (Cart_view sid items sub) sid 200, <[sid := c1]> carts)).
  { rewrite view_unfold. cbv zeta. rewrite bare_request_id by done.
    by rewrite cart_of_insert_eq, Ht, insert_insert_eq. }
  assert (Hco : serve Checkout (bare_request sid) (wire_entropy (t_checkout t))
                  (<[sid := c1]> carts) =
                (reply (Order (str_uuid (uuid4 (order_bytes (wire_entropy (t_checkout t)))))
                          sub items) sid 200, <[sid := []]> carts)).
  { rewrite checkout_unfold. cbv zeta. rewrite bare_request_id by done.
    rewrite cart_of_insert_eq, Ht, insert_insert_eq. by destruct items. }
  unfold worker_turn, do_add, do_view_cart, do_checkout.
  rewrite Hitem. cbn [from_option id].
  rewrite (call_answered _ _ _ _ Ha), Hadd. cbn [fst snd r_status reply].
  rewrite (call_answered _ _ _ _ Hv), Hview. cbn [fst snd r_status reply].
  destruct (randint 1 100 (t_roll t) <=? rate); [|done].
  by rewrite (call_answered _ _ _ _ Hc), Hco.
Qed.

Lemma call_other w r rq carts B :
  B <> get_or_create_session_id rq (wire_entropy w) ->
  (call w r rq carts).2 !! B = carts !! B.
Proof.
  intros HB. destruct (call_store w r rq carts) as [-> | ->]; [done|].
  by apply serve_other.
Qed.

Lemma turn_other sid rate t carts B :
  sid <> EmptyString -> B <> sid ->
  (worker_turn sid rate t carts).2 !! B = carts !! B.
Proof.
  intros Hsid HB. unfold worker_turn, do_add, do_view_cart, do_checkout.
  destruct (call (t_add t) CartAdd _ carts) as [r1 carts1] eqn:E1.
  assert (H1 : carts1 !! B = carts !! B).
  { change carts1 with (r1, carts1).2. rewrite <- E1. apply call_other.
    by rewrite add_request_id. }
  destruct (call (t_view t) CartView _ carts1) as [r2 carts2] eqn:E2.
  assert (H2 : carts2 !! B = carts1 !! B).
  { change carts2 with (r2, carts2).2. rewrite <- E2. apply call_other.
    by rewrite bare_request_id. }
  destruct (call (t_checkout t) Checkout _ carts2) as [r3 carts3] eqn:E3.
  assert (H3 : carts3 !! B = carts2 !! B).
  { change carts3 with (r3, carts3).2. rewrite <- E3. apply call_other.
    by rewrite bare_request_id. }
  destruct r1 as [resp1|]; cbn [fst snd];
    destruct (randint 1 100 (t_roll t) <=? rate); cbn [snd]; congruence.
Qed.

(** X21. A worker touches no cart but its own: whatever the connection
    does and however many turns it runs, every other session of the store
    is after the run what it was before. *)
Theorem worker_isolated rate first fallback_bytes turns carts B :
  B <> (worker rate first fallback_bytes turns carts).1 ->
  (worker rate first fallback_bytes turns carts).2 !! B = carts !! B.
Proof.
  unfold worker.
  pose proof (ensure_session_nonempty first fallback_bytes carts) as Hne.
  pose proof (ensure_session_store first fallback_bytes carts) as Hst.
  destruct (ensure_session first fallback_bytes carts) as [sid carts0].
  cbn [fst snd] in *. subst carts0. intros HB.
  revert carts. induction turns as [|t rest IH]; intros carts; cbn [worker_loop]; [done|].
  rewrite IH. by apply turn_other.
Qed.


Lemma do_add_cart w draw sid carts :
  sid <> EmptyString ->
  exists item, dict_mem item catalog = true /\
    (cart_of (do_add w draw sid carts).2 sid = cart_of carts sid \/
     cart_of (do_add w draw sid carts).2 sid = added item 1 (cart_of carts sid)).
Proof.
  intros Hsid. destruct (choice_catalog draw) as (item & Hitem & Hk). exists item.
  split; [done|]. unfold do_add. rewrite Hitem. cbn [from_option id].
  destruct (call w CartAdd (add_request sid item) carts) as [r carts1] eqn:E.
  assert (Hc : carts1 = (call w CartAdd (add_request sid item) carts).2) by (by rewrite E).
  assert (H : cart_of carts1 sid = cart_of carts sid \/
              cart_of carts1 sid = added item 1 (cart_of carts sid)).
  { rewrite Hc. destruct (call_store w CartAdd (add_request sid item) carts) as [-> | ->].
    - by left.
    - right.
      pose proof (add_store (add_request sid item) (wire_entropy w) carts item 1
                    (add_request_read sid item Hk) Hk ltac:(lia)) as Hs.
      cbv zeta in Hs. rewrite add_request_id in Hs by done.
      by rewrite Hs, cart_of_insert_eq. }
  by destruct r.
Qed.

Lemma do_view_cart_cart w sid carts :
  sid <> EmptyString -> cart_of (do_view_cart w sid carts).2 sid = cart_of carts sid.
Proof.
  intros Hsid. unfold do_view_cart.
  destruct (call w CartView (bare_request sid) carts) as [r carts1] eqn:E.
  assert (Hc : carts1 = (call w CartView (bare_request sid) carts).2) by (by rewrite E).
  cbn [snd]. rewrite Hc.
  destruct (call_store w CartView (bare_request sid) carts) as [-> | ->]; [done|].
  rewrite view_unfold. cbv zeta. rewrite bare_request_id by done.
  apply cart_of_insert_eq.
Qed.

Lemma do_checkout_cart w sid carts :
  sid <> EmptyString ->
  cart_of (do_checkout w sid carts).2 sid = cart_of carts sid \/
  cart_of (do_checkout w sid carts).2 sid = [].
Proof.
  intros Hsid. unfold do_checkout.
  destruct (call w Checkout (bare_request sid) carts) as [r carts1] eqn:E.
  assert (Hc : carts1 = (call w Checkout (bare_request sid) carts).2) by (by rewrite E).
  cbn [snd]. rewrite Hc.
  destruct (call_store w Checkout (bare_request sid) carts) as [-> | ->]; [by left|].
  rewrite checkout_unfold. cbv zeta. rewrite bare_request_id by done.
  destruct (cart_totals _) as [[[|li items] sub]|e]; cbn [snd]; [by left| |by left].
  right. apply cart_of_insert_eq.
Qed.

Lemma turn_cart sid rate t carts :
  sid <> EmptyString ->
  exists item, dict_mem item catalog = true /\
    let after := cart_of (worker_turn sid rate t carts).2 sid in
    after = cart_of carts sid \/ after = added item 1 (cart_of carts sid) \/ after = [].
Proof.
  intros Hsid. unfold worker_turn.
  destruct (do_add_cart (t_add t) (t_item t) sid carts Hsid) as (item & Hk & Ha).
  exists item. split; [done|]. cbv zeta.
  destruct (do_add (t_add t) (t_item t) sid carts) as [[ok_add it] carts1]. cbn [snd] in Ha.
  pose proof (do_view_cart_cart (t_view t) sid carts1 Hsid) as Hv.
  destruct (do_view_cart (t_view t) sid carts1) as [ok_view carts2]. cbn [snd] in Hv.
  pose proof (do_checkout_cart (t_checkout t) sid carts2 Hsid) as Hc.
  destruct (do_checkout (t_checkout t) sid carts2) as [ok_checkout carts3]. cbn [snd] in Hc.
  destruct (randint 1 100 (t_roll t) <=? rate); cbn [snd].
  - destruct Hc as [-> | ->]; [|auto]. rewrite Hv. destruct Ha as [-> | ->]; auto.
  - rewrite Hv. destruct Ha as [-> | ->]; auto.
Qed.

(** X22. However the connection behaves, a turn of the worker raises no
    quantity of its cart by more than one: after [n] turns on a cart whose
    quantities are at most [m], they are at most [m + n]. The load
    generator therefore stays below the quantities on which pricing fails
    for as long as it can run. *)
Theorem worker_loop_growth sid rate turns carts m :
  sid <> EmptyString -> 0 <= m ->
  Forall (fun kq : string * Z => kq.2 <= m) (cart_of carts sid) ->
  Forall (fun kq : string * Z => kq.2 <= m + Z.of_nat (length turns))
    (cart_of (worker_loop sid rate turns carts) sid).
Proof.
  intros Hsid. revert carts m.
  induction turns as [|t rest IH]; intros carts m Hm Hc; cbn [worker_loop length].
  - eapply Forall_impl; [exact Hc|]. intros kq ?. cbn in *. lia.
  - replace (m + Z.of_nat (S (length rest))) with ((m + 1) + Z.of_nat (length rest)) by lia.
    apply IH; [lia|].
    destruct (turn_cart sid rate t carts Hsid) as (item & Hk & Hafter). cbv zeta in Hafter.
    destruct Hafter as [-> | [-> | ->]].
    + eapply Forall_impl; [exact Hc|]. intros kq ?. cbn in *. lia.
    + apply (added_Forall (fun q => q <= m + 1)).
      * eapply Forall_impl; [exact Hc|]. intros kq ?. cbn in *. lia.
      * intros old Hold. rewrite Forall_forall in Hc.
        specialize (Hc _ (dict_get_Some_elem _ _ _ Hold)). cbn in Hc. lia.
      * intros _. lia.
    + constructor.
Qed.

(** ** Instances *)

Lemma turn_on_live_service_witness :
  exists item,
    choice (t_item quiet_turn) CATALOG_ITEM_IDS = Some item /\
    dict_mem item catalog = true /\
    worker_turn "s" 50 quiet_turn two_keyboards =
      if randint 1 100 (t_roll quiet_turn) <=? 50
      then ((true, true, Some true), <[ "s" := [] ]> two_keyboards)
      else ((true, true, None),
            <[ "s" := added item 1 (cart_of two_keyboards "s") ]> two_keyboards).
Proof.
  apply (turn_on_live_service "s" 50 quiet_turn two_keyboards).
  - discriminate.
  - apply two_keyboards_reachable.
  - rewrite two_keyboards_cart. repeat (constructor; [by vm_compute|]). constructor.
  - repeat split; reflexivity.
Defined.

Lemma worker_isolated_witness :
  (worker 50 up 9 [quiet_turn] two_keyboards).2 !! "s" = two_keyboards !! "s".
Proof.
  apply (worker_isolated 50 up 9 [quiet_turn] two_keyboards "s").
  vm_compute. discriminate.
Defined.

Lemma worker_loop_growth_witness :
  Forall (fun kq : string * Z => kq.2 <= 2 + Z.of_nat (length [quiet_turn; quiet_turn]))
    (cart_of (worker_loop "s" 50 [quiet_turn; quiet_turn] two_keyboards) "s").
Proof.
  apply (worker_loop_growth "s" 50 [quiet_turn; quiet_turn] two_keyboards 2).
  - discriminate.
  - lia.
  - rewrite two_keyboards_cart. repeat (constructor; [by vm_compute|]). constructor.
Defined.

End LoadgenFacts.

(* ===================================================================== *)
(** * More about requests in flight *)
(* ===================================================================== *)

Module ThreadMore.
Import Py Shop Threads PyFacts ShopFacts ThreadFacts FloatFacts PricingFacts DictMore ShopMore.

Lemma fuel_launch carts jobs : fuel (launch carts jobs) = (7 * length jobs)%nat.
Proof.
  unfold fuel, launch. cbn [w_threads].
  induction jobs as [|j rest IH]; [done|]. cbn [map fuel_of length t_pc remaining].
  rewrite IH. lia.
Qed.

Lemma completes n : forall w,
  (fuel w <= n)%nat -> lock_ok w -> exists w', rtc step w w' /\ finished w'.
Proof.
  induction n as [|n IH]; intros w Hf Hl;
    (destruct (progress w Hl) as [Hfin|[w' Hs]]; [exists w; split; [constructor|done]|]);
    pose proof (step_fuel _ _ Hs) as Hlt.
  - lia.
  - destruct (IH w') as (w'' & Hrtc & Hfin); [lia|by eapply step_lock_ok|].
    exists w''. split; [|done]. by eapply rtc_l.
Qed.

Lemma fire_alone t carts lock :
  fire 0 {| w_carts := carts; w_lock := lock; w_threads := [t] |} =
    match advance 0 t carts lock with
    | Some (p, carts', lock') =>
        Some {| w_carts := carts'; w_lock := lock'; w_threads := [at_pc t p] |}
    | None => None
    end.
Proof. reflexivity. Qed.


Lemma run_alone_checkout carts sid ob :
  run [0; 0; 0; 0; 0; 0; 0]%nat (launch carts [(sid, Checkout_job ob)]) =
    match cart_totals (cart_of carts sid) with
    | Raise e =>
        {| w_carts := carts; w_lock := None;
           w_threads := [ {| t_session := sid; t_job := Checkout_job ob;
                             t_pc := Done (handle_exception e) |} ] |}
    | Ok ([], _) =>
        {| w_carts := carts; w_lock := None;
           w_threads := [ {| t_session := sid; t_job := Checkout_job ob;
                             t_pc := Done (reply (Error empty_cart_msg) sid 400) |} ] |}
    | Ok (items, subtotal) =>
        {| w_carts := <[sid := []]> carts; w_lock := None;
           w_threads := [ {| t_session := sid; t_job := Checkout_job ob;
                             t_pc := Done (reply (Order (str_uuid (uuid4 ob)) subtotal items)
                                             sid 200) |} ] |}
    end.
Proof.
  unfold launch. cbn [map fst snd].
  cbn [run]. rewrite fire_alone. cbn [advance t_pc t_job t_session at_pc from_option id].
  rewrite fire_alone. cbn [advance t_pc t_job t_session at_pc from_option id].
  rewrite fire_alone. cbn [advance t_pc t_job t_session at_pc from_option id].
  destruct (cart_totals (cart_of carts sid)) as [[[|li items] sub]|e];
    cbn [from_option id];
    repeat (rewrite fire_alone;
            cbn [advance t_pc t_job t_session at_pc from_option id entropy_of]);
    reflexivity.
Qed.


Lemma run_alone_write carts sid j :
  (forall ob, j <> Checkout_job ob) ->
  run [0; 0; 0]%nat (launch carts [(sid, j)]) =
    {| w_carts := <[sid := locked_write j (cart_of carts sid)]> carts; w_lock := None;
       w_threads := [ {| t_session := sid; t_job := j; t_pc := Left |} ] |}.
Proof.
  intros Hj. unfold launch. cbn [map fst snd run].
  rewrite fire_alone. cbn [advance t_pc t_job t_session at_pc from_option id].
  rewrite fire_alone. cbn [advance t_pc t_job t_session at_pc from_option id].
  destruct j as [ob| | | |]; [by destruct (Hj ob)|..];
    cbn [from_option id]; rewrite fire_alone;
    cbn [advance t_pc t_job t_session at_pc from_option id]; reflexivity.
Qed.

Lemma finished_unlocked w : lock_ok w -> finished w -> w_lock w = None.
Proof.
  intros [Hin Hsome] Hfin. destruct (w_lock w) as [i|] eqn:Hl; [|done].
  destruct (Hsome i eq_refl) as [t Ht].
  pose proof (proj2 (Hin i t Ht) eq_refl) as Hr.
  unfold finished in Hfin. rewrite Forall_forall in Hfin.
  assert (through (t_pc t) = true) as Hth by (apply Hfin; by eapply list_elem_of_lookup_2).
  destruct (t_pc t); done.
Qed.


(** ** Any mix of requests in flight *)

(** X23. However requests of any kind interleave, at most one thread is
    inside a locked region, and it is the thread that holds the lock; what a
    checkout inside its region has read and priced is still what the store
    holds for its session, until the checkout itself clears the cart. *)
Theorem regions_exclusive carts jobs w :
  rtc step (launch carts jobs) w ->
  (forall i j ti tj,
     w_threads w !! i = Some ti -> w_threads w !! j = Some tj ->
     in_region (t_pc ti) = true -> in_region (t_pc tj) = true -> i = j) /\
  (forall i t, w_threads w !! i = Some t ->
     (in_region (t_pc t) = true <-> w_lock w = Some i)) /\
  (forall i t, w_threads w !! i = Some t ->
     match t_pc t with
     | Read c => cart_of (w_carts w) (t_session t) = c
     | Priced items subtotal | Ordered _ items subtotal =>
         cart_totals (cart_of (w_carts w) (t_session t)) = Ok (items, subtotal)
     | Cleared _ _ _ => cart_of (w_carts w) (t_session t) = []
     | _ => True
     end).
Proof.
  intros Hs.
  destruct (steps_sane _ _ (launch_lock_ok _ _) (launch_region_ok _ _) Hs)
    as [Hlock Hreg].
  split; [|split].
  - intros i j ti tj Hi Hj Hini Hinj. by eapply (mutual_exclusion w i j ti tj).
  - apply Hlock.
  - intros i t Ht. pose proof (Hreg i t Ht) as H. cbv zeta in H.
    destruct (t_pc t); try done. by destruct H.
Qed.

(** X24. Requests in flight never block one another for good and never run
    on for ever: a launch of [k] requests takes at most [7 * k] steps
    whatever the interleaving, a world that is not finished can always take
    a step, and from every world it reaches the launch can be run to the end,
    where the lock is free. *)
Theorem pool_terminates carts jobs :
  (forall n w, nsteps step n (launch carts jobs) w -> (n <= 7 * length jobs)%nat) /\
  (forall w, rtc step (launch carts jobs) w ->
     (finished w \/ exists w', step w w') /\
     exists w', rtc step w w' /\ finished w' /\ w_lock w' = None).
Proof.
  split.
  - intros n w H%steps_bounded. rewrite fuel_launch in H. lia.
  - intros w Hs.
    pose proof (steps_lock_ok _ _ (launch_lock_ok carts jobs) Hs) as Hlock.
    split; [by apply progress|].
    destruct (completes (fuel w) w (le_n _) Hlock) as (w' & Hrtc & Hfin).
    exists w'. split; [done|]. split; [done|].
    apply finished_unlocked; [|done]. by eapply steps_lock_ok.
Qed.

(** X25. Concurrent checkouts of one session, on a store the service can
    reach and a cart that is not empty and whose quantities are below
    [2^1024 - 2^970]: however they interleave, when all have answered exactly one holds
    an order, every other was refused with the empty-cart error, the cart
    is empty and the lock is free. *)
Theorem checkout_race_bounded carts sid obs w :
  reachable carts -> small (cart_of carts sid) -> cart_of carts sid <> [] ->
  obs <> [] ->
  rtc step (checkouts carts sid obs) w -> finished w ->
  tally won w = 1%nat /\
  tally lost w = (length obs - 1)%nat /\
  cart_of (w_carts w) sid = [] /\
  w_lock w = None.
Proof.
  intros Hr Hsmall Hne Hobs Hs Hfin.
  destruct (cart_totals_small _ (small_priced _ Hsmall)) as (items & sub & Ht & He).
  rewrite cart_inv_priced in He by (apply cart_of_inv; by apply reachable_inv).
  assert (items <> []) as Hitems by (intros ->; by symmetry in He).
  destruct (checkout_race carts sid obs items sub w Ht Hitems Hobs Hs) as [_ H].
  by apply H.
Qed.


(** ** Instances *)

Lemma regions_exclusive_witness :
  let w := run [0; 1; 0]%nat
             (launch two_keyboards [("s", Add_job "1" 1); ("s", Checkout_job 5)]) in
  (forall i j ti tj,
     w_threads w !! i = Some ti -> w_threads w !! j = Some tj ->
     in_region (t_pc ti) = true -> in_region (t_pc tj) = true -> i = j) /\
  (forall i t, w_threads w !! i = Some t ->
     (in_region (t_pc t) = true <-> w_lock w = Some i)) /\
  (forall i t, w_threads w !! i = Some t ->
     match t_pc t with
     | Read c => cart_of (w_carts w) (t_session t) = c
     | Priced items subtotal | Ordered _ items subtotal =>
         cart_totals (cart_of (w_carts w) (t_session t)) = Ok (items, subtotal)
     | Cleared _ _ _ => cart_of (w_carts w) (t_session t) = []
     | _ => True
     end).
Proof.
  intros w.
  apply (regions_exclusive two_keyboards
           [("s", Add_job "1" 1); ("s", Checkout_job 5)] w).
  apply run_steps.
Defined.

Lemma checkout_race_bounded_witness :
  let w := run [0; 1; 0; 0; 0; 0; 0; 0; 1; 1; 1; 1]%nat
             (checkouts two_keyboards "s" [1; 2]%N) in
  tally won w = 1%nat /\
  tally lost w = (length [1; 2]%N - 1)%nat /\
  cart_of (w_carts w) "s" = [] /\
  w_lock w = None.
Proof.
  intros w.
  apply (checkout_race_bounded two_keyboards "s" [1; 2]%N w).
  - apply two_keyboards_reachable.
  - rewrite two_keyboards_cart.
    repeat (constructor; [by vm_compute|]). constructor.
  - rewrite two_keyboards_cart. discriminate.
  - discriminate.
  - apply run_steps.
  - vm_compute. repeat (apply List.Forall_cons; [reflexivity|]). apply List.Forall_nil.
Defined.


End ThreadMore.

(* ===================================================================== *)
(** * Requests in flight, one after the other *)
(* ===================================================================== *)

Module SerialFacts.
Import Py Shop Threads PyFacts ShopFacts ThreadFacts ShopMore ThreadMore.

Lemma run_nil_more t carts schedule :
  through (t_pc t) = true ->
  run schedule {| w_carts := carts; w_lock := None; w_threads := [t] |} =
    {| w_carts := carts; w_lock := None; w_threads := [t] |}.
Proof.
  intros Ht. induction schedule as [|i rest IH]; [done|]. cbn [run].
  assert (fire i {| w_carts := carts; w_lock := None; w_threads := [t] |} = None) as ->.
  { unfold fire. cbn [w_threads w_carts w_lock].
    destruct i as [|i]; cbn [lookup list_lookup]; [|done].
    unfold advance. by destruct (t_pc t). }
  exact IH.
Qed.

Lemma settle_checkout sid ob carts :
  settle sid (Checkout_job ob) carts =
    match cart_totals (cart_of carts sid) with
    | Raise e => (carts, Done (handle_exception e))
    | Ok ([], _) => (carts, Done (reply (Error empty_cart_msg) sid 400))
    | Ok (items, subtotal) =>
        (<[sid := []]> carts,
         Done (reply (Order (str_uuid (uuid4 ob)) subtotal items) sid 200))
    end.
Proof.
  unfold settle, alone. rewrite run_alone_checkout.
  by destruct (cart_totals (cart_of carts sid)) as [[[|li items] sub]|e].
Qed.

Lemma settle_write sid j carts :
  (forall ob, j <> Checkout_job ob) ->
  settle sid j carts = (<[sid := locked_write j (cart_of carts sid)]> carts, Left).
Proof.
  intros Hj. unfold settle, alone.
  change [0; 0; 0; 0; 0; 0; 0]%nat with ([0; 0; 0]%nat ++ [0; 0; 0; 0]%nat)%list.
  assert (Happ : forall s1 s2 w, run (s1 ++ s2)%list w = run s2 (run s1 w)).
  { induction s1 as [|i s1 IH]; intros s2 w; [done|]. cbn [run app]. apply IH. }
  rewrite Happ, run_alone_write by done. by rewrite run_nil_more.
Qed.

Lemma settle_pc sid j carts :
  (settle sid j carts).2 = Left \/ exists r, (settle sid j carts).2 = Done r.
Proof.
  destruct j as [ob| | | |]; [right|left; by rewrite settle_write..].
  rewrite settle_checkout.
  destruct (cart_totals (cart_of carts sid)) as [[[|li items] sub]|e]; by eexists.
Qed.


Lemma answered_not_region sid p final :
  (final = Left \/ exists r, final = Done r) -> answered_as sid p final ->
  in_region p = false /\ p <> Waiting.
Proof.
  intros Hf [->|(o & items & sub & -> & _)]; [|done].
  by destruct Hf as [->|[r ->]].
Qed.

Lemma settled_member ths pre base final i :
  settled_from ths pre base final -> i ∈ pre ->
  exists t, ths !! i = Some t /\ in_region (t_pc t) = false /\ t_pc t <> Waiting.
Proof.
  revert base. induction pre as [|k rest IH]; intros base; cbn [settled_from].
  - intros _ H. by apply elem_of_nil in H.
  - intros (t & Ht & Ha & Hrest) [->|Hin]%elem_of_cons.
    + exists t. split; [done|]. eapply answered_not_region; [apply settle_pc|exact Ha].
    + eapply IH; eauto.
Qed.

Lemma settled_from_insert ths pre base final i t' :
  (i < length ths)%nat ->
  (i ∈ pre -> exists t, ths !! i = Some t /\
     t_session t' = t_session t /\ t_job t' = t_job t /\
     forall b, answered_as (t_session t) (t_pc t) (settle (t_session t) (t_job t) b).2 ->
               answered_as (t_session t) (t_pc t') (settle (t_session t) (t_job t) b).2) ->
  settled_from ths pre base final -> settled_from (<[i := t']> ths) pre base final.
Proof.
  intros Hlen. revert base. induction pre as [|k rest IH]; intros base Hi; cbn [settled_from];
    [done|].
  intros (t & Ht & Ha & Hrest). destruct (decide (k = i)) as [->|Hne].
  - destruct (Hi ltac:(by left)) as (t0 & Ht0 & Hs & Hj & Himp).
    rewrite Ht in Ht0. injection Ht0 as <-.
    exists t'. rewrite list_lookup_insert_eq by done. rewrite Hs, Hj.
    split; [done|]. split; [by apply Himp|].
    apply IH; [|done]. intros Hin. apply Hi. by right.
  - exists t. rewrite list_lookup_insert_ne by done.
    split; [done|]. split; [done|].
    apply IH; [|done]. intros Hin. apply Hi. by right.
Qed.

Lemma settled_from_snoc ths pre base final i t :
  settled_from ths pre base final -> ths !! i = Some t ->
  answered_as (t_session t) (t_pc t) (settle (t_session t) (t_job t) final).2 ->
  settled_from ths (pre ++ [i])%list base (settle (t_session t) (t_job t) final).1.
Proof.
  revert base. induction pre as [|k rest IH]; intros base; cbn [settled_from app].
  - intros -> Ht Ha. exists t. done.
  - intros (tk & Htk & Hak & Hrest) Ht Ha. exists tk. split; [done|]. split; [done|].
    by apply IH.
Qed.

Lemma inside_region t base cur : inside t base cur -> in_region (t_pc t) = true.
Proof. unfold inside. by destruct (t_pc t). Qed.

Section Linear.
Variables (carts0 : store) (ths : list thread) (pre : list nat) (final : store).
Variables (k : nat) (t : thread).
Hypothesis Hnd : NoDup pre.
Hypothesis Hset : settled_from ths pre carts0 final.
Hypothesis Ht : ths !! k = Some t.

Lemma member_settled : k ∈ pre -> in_region (t_pc t) = false /\ t_pc t <> Waiting.
Proof.
  intros Hin. destruct (settled_member _ _ _ _ _ Hset Hin) as (t' & Ht' & H).
  rewrite Ht in Ht'. by injection Ht' as <-.
Qed.

(** The thread that moves stays inside its region. *)
Lemma stay_busy p cur lock :
  k ∉ pre ->
  (forall j tj, ths !! j = Some tj -> t_pc tj <> Waiting -> j ∈ pre \/ j = k) ->
  inside (at_pc t p) final cur ->
  linear_inv carts0 {| w_carts := cur; w_lock := lock; w_threads := <[k := at_pc t p]> ths |}.
Proof.
  intros Hk Hall Hin.
  assert (Hlen : (k < length ths)%nat) by (eapply lookup_lt_Some; eauto).
  exists pre, final. split; [done|]. cbn [w_threads w_carts]. split.
  - apply settled_from_insert; [done| |done]. intros Hin'. by destruct Hk.
  - right. exists k, (at_pc t p). rewrite list_lookup_insert_eq by done.
    split; [done|]. split; [done|]. split; [done|].
    intros j tj Hj Hw. destruct (decide (j = k)) as [->|Hne]; [by right|].
    rewrite list_lookup_insert_ne in Hj by done. eauto.
Qed.

(** The thread that moves leaves its region. *)
Lemma leave_region p lock :
  k ∉ pre ->
  (forall j tj, ths !! j = Some tj -> t_pc tj <> Waiting -> j ∈ pre \/ j = k) ->
  answered_as (t_session t) p (settle (t_session t) (t_job t) final).2 ->
  linear_inv carts0 {| w_carts := (settle (t_session t) (t_job t) final).1; w_lock := lock;
                       w_threads := <[k := at_pc t p]> ths |}.
Proof.
  intros Hk Hall Ha.
  assert (Hlen : (k < length ths)%nat) by (eapply lookup_lt_Some; eauto).
  exists (pre ++ [k])%list, (settle (t_session t) (t_job t) final).1.
  cbn [w_threads w_carts]. split; [|split].
  - apply NoDup_app. split; [done|]. split; [|apply NoDup_singleton].
    intros x Hx ->%list_elem_of_singleton. done.
  - apply (settled_from_snoc _ _ _ _ k (at_pc t p)).
    + apply settled_from_insert; [done| |done]. intros Hin'. by destruct Hk.
    + by rewrite list_lookup_insert_eq.
    + done.
  - left. split; [done|]. intros j tj Hj Hw. apply elem_of_app.
    destruct (decide (j = k)) as [->|Hne]; [right; by apply list_elem_of_singleton|].
    rewrite list_lookup_insert_ne in Hj by done.
    destruct (Hall j tj Hj Hw) as [?|?]; [by left|done].
Qed.
End Linear.


Lemma launch_linear carts jobs : linear_inv carts (launch carts jobs).
Proof.
  exists [], carts. split; [apply NoDup_nil_2|]. split; [done|]. left. split; [done|].
  intros j tj Hj Hw. unfold launch in Hj. cbn [w_threads] in Hj.
  apply list_lookup_fmap_Some in Hj as (sj & -> & _). done.
Qed.

Lemma step_linear carts0 w w' :
  lock_ok w -> linear_inv carts0 w -> step w w' -> linear_inv carts0 w'.
Proof.
  intros Hlock (pre & final & Hnd & Hset & Hcase) [k Hfire].
  destruct (fire_inv _ _ _ Hfire) as (t & p & carts' & lock' & Ht & Hadv & ->).
  assert (Hlen : (k < length (w_threads w))%nat) by (eapply lookup_lt_Some; eauto).
  pose proof (member_settled _ _ _ _ _ _ Hset Ht) as Hmem.
  (* a thread inside its region is the one the invariant follows *)
  assert (Hbusy : in_region (t_pc t) = true ->
            (k ∉ pre) /\ inside t final (w_carts w) /\
            forall j tj, w_threads w !! j = Some tj -> t_pc tj <> Waiting ->
                         j ∈ pre \/ j = k).
  { intros Hreg.
    assert (Hk : k ∉ pre) by (intros [? _]%Hmem; congruence).
    assert (Hw : t_pc t <> Waiting) by (intros E; by rewrite E in Hreg).
    destruct Hcase as [[_ Hall]|(i & ti & Hi & _ & Hin & Hall)].
    - destruct Hk. by apply (Hall k t).
    - destruct (Hall k t Ht Hw) as [?| ->]; [done|].
      rewrite Ht in Hi. injection Hi as <-. done. }
  unfold advance in Hadv. cbv zeta in Hadv.
  destruct (t_pc t) as [| |c|items sub|o items sub|o items sub|o items sub| | |r] eqn:Epc.
  - (* Waiting: the lock is free, so nobody is inside *)
    destruct (w_lock w) as [h|] eqn:El; [done|]. injection Hadv as <- <- <-.
    assert (Hk : k ∉ pre) by (intros [_ ?]%Hmem; done).
    destruct Hcase as [[Hcur Hall]|(i & ti & Hi & _ & Hin & _)].
    + rewrite Hcur.
      apply (stay_busy carts0 (w_threads w) pre final k t Hnd Hset Ht Locked final (Some k));
        [done| |done].
      intros j tj Hj Hw. left. eauto.
    + apply inside_region in Hin.
      apply (proj1 Hlock i ti Hi) in Hin. congruence.
  - (* Locked *)
    destruct (Hbusy eq_refl) as (Hk & Hin & Hall).
    unfold inside in Hin. rewrite Epc in Hin. rewrite Hin in Hadv.
    destruct (t_job t) as [ob|item q|item q| |] eqn:Ej; injection Hadv as <- <- <-;
      apply (stay_busy carts0 (w_threads w) pre final k t Hnd Hset Ht); try done;
      unfold inside; cbn [at_pc t_pc t_session t_job]; rewrite ?Ej; eauto.
  - (* Read *)
    destruct (Hbusy eq_refl) as (Hk & Hin & Hall).
    unfold inside in Hin. rewrite Epc in Hin. destruct Hin as (Hcur & -> & ob & Ej).
    destruct (cart_totals (cart_of final (t_session t))) as [[items sub]|e] eqn:Hp;
      injection Hadv as <- <- <-.
    + apply (stay_busy carts0 (w_threads w) pre final k t Hnd Hset Ht); try done.
      unfold inside. cbn [at_pc t_pc t_session t_job]. rewrite Hcur. eauto.
    + pose proof (leave_region carts0 (w_threads w) pre final k t Hnd Hset Ht
                    (Done (handle_exception e)) None Hk Hall) as H.
      rewrite Ej, settle_checkout, Hp in H. cbn [fst snd] in H. rewrite Hcur.
      apply H. by left.
  - (* Priced *)
    destruct (Hbusy eq_refl) as (Hk & Hin & Hall).
    unfold inside in Hin. rewrite Epc in Hin. destruct Hin as (Hcur & Hp & ob & Ej).
    destruct items as [|li items]; injection Hadv as <- <- <-.
    + pose proof (leave_region carts0 (w_threads w) pre final k t Hnd Hset Ht
                    (Done (reply (Error empty_cart_msg) (t_session t) 400)) None Hk Hall)
        as H.
      rewrite Ej, settle_checkout, Hp in H. cbn [fst snd] in H. rewrite Hcur.
      apply H. by left.
    + apply (stay_busy carts0 (w_threads w) pre final k t Hnd Hset Ht); try done.
      unfold inside. cbn [at_pc t_pc t_session t_job]. rewrite Hcur, Ej.
      cbn [entropy_of]. eauto 10.
  - (* Ordered *)
    destruct (Hbusy eq_refl) as (Hk & Hin & Hall).
    unfold inside in Hin. rewrite Epc in Hin.
    destruct Hin as (Hcur & Hp & Hne & ob & Ej & Ho).
    injection Hadv as <- <- <-.
    apply (stay_busy carts0 (w_threads w) pre final k t Hnd Hset Ht); try done.
    unfold inside. cbn [at_pc t_pc t_session t_job]. rewrite Hcur. eauto 10.
  - (* Cleared *)
    destruct (Hbusy eq_refl) as (Hk & Hin & Hall).
    unfold inside in Hin. rewrite Epc in Hin.
    destruct Hin as (Hcur & Hp & Hne & ob & Ej & Ho).
    injection Hadv as <- <- <-.
    pose proof (leave_region carts0 (w_threads w) pre final k t Hnd Hset Ht
                  (Released o items sub) None Hk Hall) as H.
    rewrite Ej, settle_checkout, Hp in H. rewrite Hcur.
    destruct items as [|li items]; [done|]. cbn [fst snd] in H.
    apply H. right. exists o, (li :: items), sub. by rewrite Ho.
  - (* Released: the thread has left its region before *)
    injection Hadv as <- <- <-.
    assert (Hw : t_pc t <> Waiting) by (by rewrite Epc).
    assert (Himp : k ∈ pre -> exists t0, w_threads w !! k = Some t0 /\
              t_session (at_pc t (Done (reply (Order o sub items) (t_session t) 200))) =
                t_session t0 /\
              t_job (at_pc t (Done (reply (Order o sub items) (t_session t) 200))) =
                t_job t0 /\
              forall b,
                answered_as (t_session t0) (t_pc t0)
                  (settle (t_session t0) (t_job t0) b).2 ->
                answered_as (t_session t0)
                  (t_pc (at_pc t (Done (reply (Order o sub items) (t_session t) 200))))
                  (settle (t_session t0) (t_job t0) b).2).
    { intros _. exists t. split; [done|]. split; [done|]. split; [done|].
      intros b. rewrite Epc. cbn [at_pc t_pc].
      intros [E|(o' & items' & sub' & [= -> -> ->] & ->)]; [|by left].
      destruct (settle_pc (t_session t) (t_job t) b) as [E'|[r E']]; congruence. }
    exists pre, final. split; [done|]. cbn [w_threads w_carts]. split.
    + by apply settled_from_insert.
    + destruct Hcase as [[Hcur Hall]|(i & ti & Hi & Hipre & Hin & Hall)].
      * left. split; [done|]. intros j tj Hj Hwj.
        destruct (decide (j = k)) as [->|Hne]; [by apply (Hall k t)|].
        rewrite list_lookup_insert_ne in Hj by done. eauto.
      * assert (i <> k).
        { intros ->. rewrite Ht in Hi. injection Hi as <-.
          unfold inside in Hin. by rewrite Epc in Hin. }
        right. exists i, ti. rewrite list_lookup_insert_ne by done.
        split; [done|]. split; [done|]. split; [done|].
        intros j tj Hj Hwj.
        destruct (decide (j = k)) as [->|Hne]; [by apply (Hall k t)|].
        rewrite list_lookup_insert_ne in Hj by done. eauto.
  - (* Written *)
    destruct (Hbusy eq_refl) as (Hk & Hin & Hall).
    unfold inside in Hin. rewrite Epc in Hin. destruct Hin as (Hcur & Hj).
    injection Hadv as <- <- <-.
    pose proof (leave_region carts0 (w_threads w) pre final k t Hnd Hset Ht
                  Left None Hk Hall) as H.
    rewrite settle_write in H by done. cbn [fst snd] in H. rewrite Hcur.
    apply H. by left.
  - done.
  - done.
Qed.

Lemma steps_linear carts0 w w' :
  lock_ok w -> linear_inv carts0 w -> rtc step w w' -> linear_inv carts0 w'.
Proof.
  intros Hl Hi Hs. revert Hl Hi. induction Hs as [|w1 w2 w3 H12 _ IH]; [done|].
  intros Hl Hi. apply IH.
  - by eapply step_lock_ok.
  - by eapply step_linear.
Qed.


Lemma step_jobs (jobs : list (string * job)) w w' :
  (forall i t, w_threads w !! i = Some t -> jobs !! i = Some (t_session t, t_job t)) ->
  step w w' ->
  forall i t, w_threads w' !! i = Some t -> jobs !! i = Some (t_session t, t_job t).
Proof.
  intros H [k Hfire] i t.
  destruct (fire_inv _ _ _ Hfire) as (tk & p & carts' & lock' & Htk & _ & ->).
  cbn [w_threads]. destruct (decide (i = k)) as [->|Hne].
  - rewrite list_lookup_insert_eq by (eapply lookup_lt_Some; eauto).
    intros [= <-]. cbn [at_pc t_session t_job]. by apply H.
  - rewrite list_lookup_insert_ne by done. apply H.
Qed.

Lemma steps_jobs carts (jobs : list (string * job)) w :
  rtc step (launch carts jobs) w ->
  forall i t, w_threads w !! i = Some t -> jobs !! i = Some (t_session t, t_job t).
Proof.
  intros Hs.
  assert (H0 : forall i t, w_threads (launch carts jobs) !! i = Some t ->
                           jobs !! i = Some (t_session t, t_job t)).
  { intros i t. unfold launch. cbn [w_threads].
    intros ([sid j] & -> & Hj)%list_lookup_fmap_Some. done. }
  revert H0. induction Hs as [|w1 w2 w3 H12 _ IH]; [done|].
  intros H. apply IH. by eapply step_jobs.
Qed.

Lemma settled_serial (jobs : list (string * job)) ths order : forall base final,
  (forall i t, ths !! i = Some t -> jobs !! i = Some (t_session t, t_job t)) ->
  (forall i t, ths !! i = Some t -> through (t_pc t) = true) ->
  settled_from ths order base final ->
  final = (serial jobs order base).1 /\
  Forall (fun ip : nat * pc => t_pc <$> ths !! ip.1 = Some ip.2) (serial jobs order base).2.
Proof.
  induction order as [|i rest IH]; intros base final Hjobs Hthrough;
    cbn [settled_from serial].
  - intros ->. split; [done|constructor].
  - intros (t & Ht & Ha & Hrest). rewrite (Hjobs i t Ht).
    destruct (settle (t_session t) (t_job t) base) as [carts1 p] eqn:Es. cbn [fst snd] in *.
    destruct (IH _ _ Hjobs Hthrough Hrest) as [Hf HF].
    destruct (serial jobs rest carts1) as [carts2 ps]. cbn [fst snd] in *.
    split; [done|]. constructor; [|done]. cbn [fst snd]. rewrite Ht. cbn. f_equal.
    destruct Ha as [?|(o & items & sub & E & _)]; [done|].
    pose proof (Hthrough i t Ht) as Hth. by rewrite E in Hth.
Qed.

Lemma finished_order carts jobs w :
  rtc step (launch carts jobs) w -> finished w ->
  exists order,
    order ≡ₚ seq 0 (length jobs) /\
    settled_from (w_threads w) order carts (w_carts w) /\
    (forall i t, w_threads w !! i = Some t -> jobs !! i = Some (t_session t, t_job t)) /\
    (forall i t, w_threads w !! i = Some t -> through (t_pc t) = true).
Proof.
  intros Hs Hfin.
  pose proof (steps_lock_ok _ _ (launch_lock_ok carts jobs) Hs) as Hlock.
  pose proof (steps_linear carts _ _ (launch_lock_ok carts jobs)
                (launch_linear carts jobs) Hs) as (pre & final & Hnd & Hset & Hcase).
  pose proof (steps_jobs carts jobs w Hs) as Hjobs.
  assert (Hlen : length (w_threads w) = length jobs).
  { rewrite (steps_length _ _ Hs). unfold launch. cbn [w_threads]. apply length_map. }
  assert (Hthrough : forall i t, w_threads w !! i = Some t -> through (t_pc t) = true).
  { intros i t Hi. unfold finished in Hfin. rewrite Forall_forall in Hfin.
    apply Hfin. by eapply list_elem_of_lookup_2. }
  destruct Hcase as [[Hcur Hall]|(i & ti & Hi & _ & Hin & _)].
  - exists pre. split; [|by rewrite Hcur].
    apply NoDup_Permutation; [done|apply NoDup_seq|].
    intros x. rewrite elem_of_seq. split.
    + intros Hx. destruct (settled_member _ _ _ _ _ Hset Hx) as (t & Ht & _).
      apply lookup_lt_Some in Ht. lia.
    + intros Hx. destruct (lookup_lt_is_Some_2 (w_threads w) x) as [t Ht]; [lia|].
      apply (Hall x t Ht). pose proof (Hthrough x t Ht) as Hth.
      intros E. by rewrite E in Hth.
  - apply inside_region in Hin. pose proof (Hthrough i ti Hi) as Hth.
    by destruct (t_pc ti).
Qed.


(** ** Adds in flight *)

Lemma settle_add_held s i q carts sid item :
  held (settle s (Add_job i q) carts).1 sid item =
    held carts sid item + adds_to sid item (s, Add_job i q).
Proof.
  rewrite settle_write by done. cbn [fst locked_write]. unfold held, adds_to. cbn [fst snd].
  destruct (String.eqb s sid) eqn:Es.
  - apply String.eqb_eq in Es as ->. rewrite cart_of_insert_eq.
    destruct (String.eqb i item) eqn:Ei; cbn [andb].
    + apply String.eqb_eq in Ei as ->. by rewrite added_get.
    + apply String.eqb_neq in Ei. rewrite added_get_ne by done. lia.
  - apply String.eqb_neq in Es. rewrite cart_of_insert_ne by done. cbn [andb]. lia.
Qed.

Lemma serial_adds (jobs : list (string * job)) sid item order : forall carts,
  only_adds jobs ->
  held (serial jobs order carts).1 sid item =
    held carts sid item +
    foldr (fun i acc => from_option (adds_to sid item) 0 (jobs !! i) + acc) 0 order.
Proof.
  induction order as [|i rest IH]; intros carts Hadds; cbn [serial foldr];
    [cbn [fst]; lia|].
  destruct (jobs !! i) as [[s j]|] eqn:Hi; cbn [from_option].
  - assert (exists it q, j = Add_job it q) as (it & q & ->).
    { unfold only_adds in Hadds. rewrite Forall_forall in Hadds.
      apply (Hadds (s, j)). by eapply list_elem_of_lookup_2. }
    pose proof (settle_add_held s it q carts sid item) as Hh.
    destruct (settle s (Add_job it q) carts) as [carts1 p]. cbn [fst] in Hh.
    specialize (IH carts1 Hadds).
    destruct (serial jobs rest carts1) as [carts2 ps]. cbn [fst] in *. lia.
  - rewrite IH by done. lia.
Qed.

Lemma sum_permutation (f : nat -> Z) l l' :
  l ≡ₚ l' -> foldr (fun i acc => f i + acc) 0 l = foldr (fun i acc => f i + acc) 0 l'.
Proof. induction 1; cbn [foldr]; lia. Qed.

Lemma sum_indices (g : string * job -> Z) (jobs : list (string * job)) : forall pre,
  foldr (fun i acc => from_option g 0 ((pre ++ jobs)%list !! i) + acc) 0
    (seq (length pre) (length jobs)) =
  foldr (fun sj acc => g sj + acc) 0 jobs.
Proof.
  induction jobs as [|j rest IH]; intros pre; cbn [length seq foldr]; [done|].
  rewrite list_lookup_middle by done. cbn [from_option]. f_equal.
  specialize (IH (pre ++ [j])%list).
  rewrite <- app_assoc, length_app in IH. cbn [app length] in IH.
  by rewrite Nat.add_1_r in IH.
Qed.

(** X28. No add is lost to concurrency: when any number of adds, to any
    sessions and items, are in flight together, then however they
    interleave, once all are through every cart holds of every item what it
    held before plus the quantities of all the adds to that cart and
    item. *)
Theorem adds_all_counted carts jobs w sid item :
  only_adds jobs ->
  rtc step (launch carts jobs) w -> finished w ->
  held (w_carts w) sid item = held carts sid item + added_total sid item jobs.
Proof.
  intros Hadds Hs Hfin.
  destruct (finished_order carts jobs w Hs Hfin) as (order & Hperm & Hset & Hjobs & Hth).
  destruct (settled_serial jobs _ order carts (w_carts w) Hjobs Hth Hset) as [-> _].
  rewrite serial_adds by done. f_equal.
  rewrite (sum_permutation _ _ _ Hperm). apply (sum_indices _ jobs []).
Qed.


Lemma adds_all_counted_witness :
  let jobs := [("s", Add_job "1" 2); ("s", Add_job "1" 3); ("t", Add_job "1" 1)] in
  let w := run [0; 1; 2; 0; 0; 1; 1; 2; 1; 2; 2; 2]%nat (launch two_keyboards jobs) in
  held (w_carts w) "s" "1" = held two_keyboards "s" "1" + added_total "s" "1" jobs.
Proof.
  intros jobs w.
  apply (adds_all_counted two_keyboards jobs w "s" "1").
  - repeat (apply List.Forall_cons; [by eexists _, _|]). apply List.Forall_nil.
  - apply run_steps.
  - vm_compute. repeat (apply List.Forall_cons; [reflexivity|]). apply List.Forall_nil.
Defined.

End SerialFacts.
